(** * Configuration resolution of the container runtime (pkg/config/config.go)

    A shallow embedding of the merge engine ([UpdateFromDropInFile],
    [UpdateFromFile], [UpdateFromPath], [removeDupStorageOpts]) and of the
    validators ([Config.Validate] and the per-domain [Validate] methods,
    [ValidateDefaultRuntime], [TranslateMonitorFields],
    [validateAllowedAndGenerateDisallowedAnnotations], [RemoveUnusedSocket]).

    Go methods with a pointer receiver mutate their receiver even when they
    return an error; they are embedded in a state-and-error monad whose
    state survives a failure.  Go maps are [gmap]s, Go sets (maps to
    [struct{}] or [bool]) are [gset]s, [int] and [int64] are [Z] (only
    compared, never computed with, in the code below).  Maps, pointers and
    the backing arrays of slices are references: where a struct copy shares
    them between the configuration and another structure ([fromConfig]),
    what is stored through the copy is written back to the configuration
    ([shared_with]).  The [Runtimes] map is allocated, as [DefaultConfig]
    leaves it. *)

From stdpp Require Import base option list gmap strings fin_maps sets.
From Stdlib Require Import ZArith Lia Ascii.

Local Open Scope string_scope.
Local Open Scope list_scope.

(* ===================================================================== *)
(** ** Errors and logging *)
(* ===================================================================== *)

(** An error made inside a collaborator package: where it comes from and
    whether it reports a missing file. *)
Record Failure := mkFailure { failure_origin : string; failure_not_exist : bool }.

(** Go [error] values.  [Errorf] is [fmt.Errorf]/[errors.New] with its
    format string and the operands that identify the failure; [Wrapf] is
    [fmt.Errorf] with a [%w] verb; [PathError] is the [*fs.PathError] of
    package [os] (operation, path, cause); [LookPathError] is the [*exec.Error]
    of [exec.LookPath]; [Foreign] is an error made inside a collaborator
    package. *)
Inductive Errno := ENOENT | EACCES | ENOTDIR | ECONNREFUSED | EOTHER.

Inductive error : Type :=
| Errorf (format : string) (operands : list string)
| Wrapf (format : string) (operands : list string) (cause : error)
| PathError (op path : string) (errno : Errno)
| LookPathError (name : string)
| Foreign (f : Failure).

(** [os.IsNotExist]: looks at the error itself, not through [%w]. *)
Definition os_IsNotExist (e : error) : bool :=
  match e with
  | PathError _ _ ENOENT => true
  | Foreign f => failure_not_exist f
  | _ => false
  end.

(** The paths an error value carries, outermost first. *)
Fixpoint error_paths (e : error) : list string :=
  match e with
  | Errorf _ ops => ops
  | Wrapf _ ops cause => ops ++ error_paths cause
  | PathError _ p _ => [p]
  | LookPathError n => [n]
  | Foreign _ => []
  end.

Inductive Level := DebugLevel | InfoLevel | WarnLevel | ErrorLevel.

(** One [logrus] call: level, format string, operands. *)
Record LogEntry := mkLog { log_level : Level; log_format : string; log_operands : list string }.

(* ===================================================================== *)
(** ** The state-and-error monad *)
(* ===================================================================== *)

(** Outcome of running a method: its result ([inl] an error, [inr] a
    value), the state it leaves behind (also on error) and what it logged. *)
Record Out (S A : Type) := mkOut {
  out_res : error + A;
  out_st : S;
  out_log : list LogEntry
}.
Arguments mkOut {S A} _ _ _.
Arguments out_res {S A} _.
Arguments out_st {S A} _.
Arguments out_log {S A} _.

Definition M (S A : Type) : Type := S → Out S A.

Definition ret {S A} (a : A) : M S A := λ s, mkOut (inr a) s [].

Definition bind {S A B} (m : M S A) (f : A → M S B) : M S B := λ s,
  match m s with
  | mkOut (inl e) s' l => mkOut (inl e) s' l
  | mkOut (inr a) s' l =>
      match f a s' with
      | mkOut r s'' l' => mkOut r s'' (l ++ l')
      end
  end.

(** [return err] *)
Definition throw {S A} (e : error) : M S A := λ s, mkOut (inl e) s [].

Definition get {S} : M S S := λ s, mkOut (inr s) s [].
Definition gets {S A} (f : S → A) : M S A := λ s, mkOut (inr (f s)) s [].
Definition put {S} (s : S) : M S unit := λ _, mkOut (inr tt) s [].
Definition modify {S} (f : S → S) : M S unit := λ s, mkOut (inr tt) (f s) [].

(** A [logrus] call. *)
Definition logf {S} (l : Level) (format : string) (operands : list string) : M S unit :=
  λ s, mkOut (inr tt) s [mkLog l format operands].

(** [err := m] : run [m] and hand its error back as a value, so that the
    caller can branch on it. *)
Definition attempt {S A} (m : M S A) : M S (error + A) := λ s,
  match m s with
  | mkOut r s' l => mkOut (inr r) s' l
  end.

(** [if err := m; err != nil { return fmt.Errorf(format + ": %w", err) }] *)
Definition wrap {S A} (format : string) (operands : list string) (m : M S A) : M S A := λ s,
  match m s with
  | mkOut (inl e) s' l => mkOut (inl (Wrapf format operands e)) s' l
  | mkOut (inr a) s' l => mkOut (inr a) s' l
  end.

(** Run a method of a component of the state (an embedded struct, or the
    process environment) inside a method of the whole. *)
Definition zoom {S T A} (proj : S → T) (upd : T → S → S) (m : M T A) : M S A := λ s,
  match m (proj s) with
  | mkOut r t l => mkOut r (upd t s) l
  end.

#[global] Instance M_ret {S} : MRet (M S) := λ A, ret.
#[global] Instance M_bind {S} : MBind (M S) := λ A B f m, bind m f.

Definition succeeded {S A} (o : Out S A) : Prop := ∃ a, out_res o = inr a.
Definition failed {S A} (o : Out S A) : Prop := ∃ e, out_res o = inl e.

(** [triple P m Q E]: started in a state that satisfies [P], the method
    [m] leaves a state that satisfies [Q a] when it returns [a], and one
    that satisfies [E e] when it returns the error [e]. *)
Definition triple {S A} (P : S → Prop) (m : M S A)
    (Q : A → S → Prop) (E : error → S → Prop) : Prop :=
  ∀ s, P s →
    match m s with
    | mkOut (inr a) s' _ => Q a s'
    | mkOut (inl e) s' _ => E e s'
    end.

(** [keeps I m E]: the method [m] keeps [I] when it returns, and ends in
    a state that satisfies [E e] when it fails with [e]. *)
Definition keeps {S A} (I : S → Prop) (m : M S A) (E : error → S → Prop) : Prop :=
  triple I m (λ _, I) E.

(* ===================================================================== *)
(** ** removeDupStorageOpts *)
(* ===================================================================== *)

(** The first loop of [removeDupStorageOpts], [for i := len-1; i >= 0; i--]:
    [pending] holds [storageOpts[i], storageOpts[i-1], ..., storageOpts[0]],
    [opts] is the map of options seen, [resOpts] the slice appended to. *)
Fixpoint removeDupStorageOpts_scan
    (pending : list string) (opts : gset string) (resOpts : list string) : list string :=
  match pending with
  | [] => resOpts
  | o :: pending' =>
      if decide (o ∈ opts) then removeDupStorageOpts_scan pending' opts resOpts
      else removeDupStorageOpts_scan pending' ({[o]} ∪ opts) (resOpts ++ [o])
  end.

(** [removeDupStorageOpts]: scan from the end, then swap the result end
    for end (the second loop is an in-place reversal). *)
Definition removeDupStorageOpts (storageOpts : list string) : list string :=
  reverse (removeDupStorageOpts_scan (reverse storageOpts) ∅ []).

(** The specification's wording: an entry is kept exactly when no equal
    entry follows it; kept entries stay in their order. *)
Fixpoint keep_last_occurrences (l : list string) : list string :=
  match l with
  | [] => []
  | x :: l' =>
      if decide (x ∈ l') then keep_last_occurrences l'
      else x :: keep_last_occurrences l'
  end.

(** Dual of the above for a list read from its end: keep an entry exactly
    when it is not in [seen] and no equal entry precedes it. *)
Fixpoint keep_first_unseen (seen : gset string) (l : list string) : list string :=
  match l with
  | [] => []
  | x :: l' =>
      if decide (x ∈ seen) then keep_first_unseen seen l'
      else x :: keep_first_unseen ({[x]} ∪ seen) l'
  end.

(* ===================================================================== *)
(** ** Constants *)
(* ===================================================================== *)

Definition defaultGRPCMaxMsgSize : Z := 80 * 1024 * 1024.
Definition OCIBufSize : Z := 8192.
Definition RuntimeTypeVM : string := "vm".
Definition RuntimeTypePod : string := "pod".
Definition defaultCtrStopTimeout : Z := 30.
Definition RuntimeTypeVMBinaryPattern : string := "containerd-shim-([a-zA-Z0-9\-\+])+-v2".
Definition tasksetBinary : string := "taskset".

(** Modelled from the spec: [DefaultRuntimeType] is declared in a
    platform file of the package that is not part of the sources at hand;
    the data model names the closed enumeration of backend types as
    default/"oci", "vm", "pod". *)
Definition DefaultRuntimeType : string := "oci".

Inductive ImageVolumesType := ImageVolumesMkdir | ImageVolumesIgnore | ImageVolumesBind
  | ImageVolumesOther (token : string).

(* ===================================================================== *)
(** ** Types owned by collaborator packages *)
(* ===================================================================== *)

(** Types declared outside [pkg/config/config.go].  Nothing below looks
    inside them; they are only stored, copied and handed to their owners. *)
Class ExternalTypes := {
  capabilities_Capabilities : Type;
  config_Workloads : Type;
  collectors_Collectors : Type;
  nri_Config : Type;
  types_SystemContext_rest : Type;
  features_Features : Type;
  seccomp_Config : Type;
  apparmor_Config : Type;
  blockio_Config : Type;
  rdt_Config : Type;
  ulimits_Config : Type;
  device_Config : Type;
  cgmgr_CgroupManager : Type;
  conmonmgr_ConmonManager : Type;
  nsmgr_NamespaceManager : Type;
  cnimgr_CNIManager : Type;
  cpuset_CPUSet : Type;
  host_State : Type
}.

(** Builds the function that replaces field [proj] in a record, from the
    eta-expansion [eta] of the record's constructor. *)
Ltac record_setter eta proj :=
  let e := eval cbv beta delta [eta] in eta in
  match eval pattern proj in e with
  | ?F _ => let t := eval cbv beta in (λ v, F (λ _, v)) in exact t
  end.

Section Config.
Context `{ET : ExternalTypes}.

(* ===================================================================== *)
(** ** The configuration structs *)
(* ===================================================================== *)

Record RootConfig := mkRootConfig {
  Root : string;
  RunRoot : string;
  ImageStore : string;
  Storage : string;
  StorageOptions : list string;
  LogDir : string;
  VersionFile : string;
  VersionFilePersist : string;
  CleanShutdownFile : string;
  InternalWipe : bool;
  InternalRepair : bool
}.

Record RuntimeHandler := mkRuntimeHandler {
  RuntimeConfigPath : string;
  RuntimePath : string;
  RuntimeType : string;
  RuntimeRoot : string;
  PrivilegedWithoutHostDevices : bool;
  AllowedAnnotations : list string;
  DisallowedAnnotations : list string;
  MonitorPath : string;
  MonitorCgroup : string;
  MonitorEnv : list string;
  MonitorExecCgroup : string;
  PlatformRuntimePaths : gmap string string;
  RuntimePullImage : bool;
  features : features_Features
}.

(** The fields of [RuntimeConfig] that no function of this file reads or
    writes; they travel with the struct. *)
Record RuntimeConfigPassive := mkRuntimeConfigPassive {
  NoPivot : bool;
  LogToJournald : bool;
  DropInfraCtr : bool;
  ReadOnly : bool;
  AddInheritableCapabilities : bool;
  DefaultEnv : list string;
  AllowedDevices : list string;
  DeviceOwnershipFromSecurityContext : bool;
  DecryptionKeysPath : string;
  IrqBalanceConfigFile : string;
  DefaultMountsFile : string;
  ContainerExitsDir : string;
  ContainerAttachSocketDir : string;
  BindMountPrefix : string;
  UIDMappings : string;
  MinimumMappableUID : Z;
  GIDMappings : string;
  MinimumMappableGID : Z;
  LogLevel : string;
  LogFilter : string;
  PidsLimit : Z;
  SeparatePullCgroup : string;
  SharedCPUSet : string;
  AbsentMountSourcesToReject : list string;
  EnablePodEvents : bool;
  IrqBalanceConfigRestoreFile : string;
  HostNetworkDisableSELinux : bool;
  DisableHostPortMapping : bool
}.

Record RuntimeConfig := mkRuntimeConfig {
  SeccompUseDefaultWhenEmpty : bool;
  SELinux : bool;
  ConmonEnv : list string;
  HooksDir : list string;
  DefaultCapabilities : capabilities_Capabilities;
  DefaultSysctls : list string;
  DefaultUlimits : list string;
  AdditionalDevices : list string;
  CDISpecDirs : list string;
  DefaultRuntime : string;
  Conmon : string;
  ConmonCgroup : string;
  SeccompProfile : string;
  ApparmorProfile : string;
  BlockIOConfigFile : string;
  BlockIOReload : bool;
  RdtConfigFile : string;
  CgroupManagerName : string;
  NamespacesDir : string;
  PinnsPath : string;
  EnableCriuSupport : bool;
  Runtimes : gmap string RuntimeHandler;
  Workloads : config_Workloads;
  LogSizeMax : Z;
  CtrStopTimeout : Z;
  InfraCtrCPUSet : string;
  Timezone : string;
  seccompConfig : seccomp_Config;
  apparmorConfig : apparmor_Config;
  blockioConfig : blockio_Config;
  rdtConfig : rdt_Config;
  ulimitsConfig : ulimits_Config;
  deviceConfig : device_Config;
  cgroupManager : cgmgr_CgroupManager;
  conmonManager : option conmonmgr_ConmonManager;
  namespaceManager : nsmgr_NamespaceManager;
  passive : RuntimeConfigPassive
}.

Record ImageConfig := mkImageConfig {
  DefaultTransport : string;
  GlobalAuthFile : string;
  PauseImage : string;
  PauseImageAuthFile : string;
  PauseCommand : string;
  PinnedImages : list string;
  SignaturePolicyPath : string;
  SignaturePolicyDir : string;
  InsecureRegistries : list string;
  ImageVolumes : ImageVolumesType;
  Registries : list string;
  BigFilesTemporaryDir : string
}.

Record NetworkConfig := mkNetworkConfig {
  CNIDefaultNetwork : string;
  NetworkDir : string;
  PluginDir : string;
  PluginDirs : list string;
  cniManager : option cnimgr_CNIManager
}.

Record APIConfig := mkAPIConfig {
  GRPCMaxSendMsgSize : Z;
  GRPCMaxRecvMsgSize : Z;
  Listen : string;
  StreamAddress : string;
  StreamPort : string;
  StreamEnableTLS : bool;
  StreamTLSCert : string;
  StreamTLSKey : string;
  StreamTLSCA : string;
  StreamIdleTimeout : string
}.

Record MetricsConfig := mkMetricsConfig {
  EnableMetrics : bool;
  MetricsCollectors : collectors_Collectors;
  MetricsHost : string;
  MetricsPort : Z;
  MetricsSocket : string;
  MetricsCert : string;
  MetricsKey : string
}.

Record TracingConfig := mkTracingConfig {
  EnableTracing : bool;
  TracingEndpoint : string;
  TracingSamplingRatePerMillion : Z
}.

Record StatsConfig := mkStatsConfig { StatsCollectionPeriod : Z }.

(** [types.SystemContext], of which this package writes one field. *)
Record SystemContext := mkSystemContext {
  sc_BigFilesTemporaryDir : string;
  sc_rest : types_SystemContext_rest
}.

(** [Config]; the embedded structs are fields named after their types. *)
Record Config := mkConfig {
  Comment : string;
  singleConfigPath : string;
  dropInConfigDir : string;
  rootConfig : RootConfig;
  apiConfig : APIConfig;
  runtimeConfig : RuntimeConfig;
  imageConfig : ImageConfig;
  networkConfig : NetworkConfig;
  metricsConfig : MetricsConfig;
  tracingConfig : TracingConfig;
  statsConfig : StatsConfig;
  NRI : nri_Config;
  systemContext : SystemContext
}.

(** [tomlConfig], the shadow structure with one table per domain. *)
Record tomlConfig := mkTomlConfig {
  Crio_RootConfig : RootConfig;
  Crio_API : APIConfig;
  Crio_Runtime : RuntimeConfig;
  Crio_Image : ImageConfig;
  Crio_Network : NetworkConfig;
  Crio_Metrics : MetricsConfig;
  Crio_Tracing : TracingConfig;
  Crio_Stats : StatsConfig;
  Crio_NRI : nri_Config
}.

(** *** Field assignment

    [set_F v r] is the Go assignment [r.F = v]: the record [r] with field
    [F] replaced by [v] and every other field kept. *)

Definition RootConfig_eta (r : RootConfig) : RootConfig :=
  mkRootConfig (Root r) (RunRoot r) (ImageStore r) (Storage r)
    (StorageOptions r) (LogDir r) (VersionFile r) (VersionFilePersist r)
    (CleanShutdownFile r) (InternalWipe r) (InternalRepair r).

Definition set_Root := ltac:(record_setter RootConfig_eta Root).
Definition set_RunRoot := ltac:(record_setter RootConfig_eta RunRoot).
Definition set_Storage := ltac:(record_setter RootConfig_eta Storage).
Definition set_StorageOptions := ltac:(record_setter RootConfig_eta StorageOptions).

Definition RuntimeHandler_eta (r : RuntimeHandler) : RuntimeHandler :=
  mkRuntimeHandler (RuntimeConfigPath r) (RuntimePath r) (RuntimeType r)
    (RuntimeRoot r) (PrivilegedWithoutHostDevices r) (AllowedAnnotations r)
    (DisallowedAnnotations r) (MonitorPath r) (MonitorCgroup r) (MonitorEnv
    r) (MonitorExecCgroup r) (PlatformRuntimePaths r) (RuntimePullImage r)
    (features r).

Definition set_RuntimePath := ltac:(record_setter RuntimeHandler_eta RuntimePath).
Definition set_DisallowedAnnotations := ltac:(record_setter RuntimeHandler_eta DisallowedAnnotations).
Definition set_MonitorPath := ltac:(record_setter RuntimeHandler_eta MonitorPath).
Definition set_MonitorCgroup := ltac:(record_setter RuntimeHandler_eta MonitorCgroup).
Definition set_MonitorEnv := ltac:(record_setter RuntimeHandler_eta MonitorEnv).
Definition set_features := ltac:(record_setter RuntimeHandler_eta features).

Definition RuntimeConfig_eta (r : RuntimeConfig) : RuntimeConfig :=
  mkRuntimeConfig (SeccompUseDefaultWhenEmpty r) (SELinux r) (ConmonEnv r)
    (HooksDir r) (DefaultCapabilities r) (DefaultSysctls r) (DefaultUlimits
    r) (AdditionalDevices r) (CDISpecDirs r) (DefaultRuntime r) (Conmon r)
    (ConmonCgroup r) (SeccompProfile r) (ApparmorProfile r)
    (BlockIOConfigFile r) (BlockIOReload r) (RdtConfigFile r)
    (CgroupManagerName r) (NamespacesDir r) (PinnsPath r) (EnableCriuSupport
    r) (Runtimes r) (Workloads r) (LogSizeMax r) (CtrStopTimeout r)
    (InfraCtrCPUSet r) (Timezone r) (seccompConfig r) (apparmorConfig r)
    (blockioConfig r) (rdtConfig r) (ulimitsConfig r) (deviceConfig r)
    (cgroupManager r) (conmonManager r) (namespaceManager r) (passive r).

Definition set_ConmonEnv := ltac:(record_setter RuntimeConfig_eta ConmonEnv).
Definition set_Conmon := ltac:(record_setter RuntimeConfig_eta Conmon).
Definition set_ConmonCgroup := ltac:(record_setter RuntimeConfig_eta ConmonCgroup).
Definition set_InfraCtrCPUSet := ltac:(record_setter RuntimeConfig_eta InfraCtrCPUSet).
Definition set_Timezone := ltac:(record_setter RuntimeConfig_eta Timezone).
Definition set_HooksDir := ltac:(record_setter RuntimeConfig_eta HooksDir).
Definition set_DefaultRuntime := ltac:(record_setter RuntimeConfig_eta DefaultRuntime).
Definition set_PinnsPath := ltac:(record_setter RuntimeConfig_eta PinnsPath).
Definition set_EnableCriuSupport := ltac:(record_setter RuntimeConfig_eta EnableCriuSupport).
Definition set_Runtimes := ltac:(record_setter RuntimeConfig_eta Runtimes).
Definition set_Workloads := ltac:(record_setter RuntimeConfig_eta Workloads).
Definition set_LogSizeMax := ltac:(record_setter RuntimeConfig_eta LogSizeMax).
Definition set_CtrStopTimeout := ltac:(record_setter RuntimeConfig_eta CtrStopTimeout).
Definition set_seccompConfig := ltac:(record_setter RuntimeConfig_eta seccompConfig).
Definition set_apparmorConfig := ltac:(record_setter RuntimeConfig_eta apparmorConfig).
Definition set_blockioConfig := ltac:(record_setter RuntimeConfig_eta blockioConfig).
Definition set_rdtConfig := ltac:(record_setter RuntimeConfig_eta rdtConfig).
Definition set_ulimitsConfig := ltac:(record_setter RuntimeConfig_eta ulimitsConfig).
Definition set_deviceConfig := ltac:(record_setter RuntimeConfig_eta deviceConfig).
Definition set_cgroupManager := ltac:(record_setter RuntimeConfig_eta cgroupManager).
Definition set_conmonManager := ltac:(record_setter RuntimeConfig_eta conmonManager).
Definition set_namespaceManager := ltac:(record_setter RuntimeConfig_eta namespaceManager).
Definition set_DefaultCapabilities := ltac:(record_setter RuntimeConfig_eta DefaultCapabilities).
Definition set_DefaultSysctls := ltac:(record_setter RuntimeConfig_eta DefaultSysctls).
Definition set_DefaultUlimits := ltac:(record_setter RuntimeConfig_eta DefaultUlimits).
Definition set_AdditionalDevices := ltac:(record_setter RuntimeConfig_eta AdditionalDevices).
Definition set_CDISpecDirs := ltac:(record_setter RuntimeConfig_eta CDISpecDirs).
Definition set_passive := ltac:(record_setter RuntimeConfig_eta passive).

Definition RuntimeConfigPassive_eta (r : RuntimeConfigPassive) : RuntimeConfigPassive :=
  mkRuntimeConfigPassive (NoPivot r) (LogToJournald r) (DropInfraCtr r) (ReadOnly r)
    (AddInheritableCapabilities r) (DefaultEnv r) (AllowedDevices r)
    (DeviceOwnershipFromSecurityContext r) (DecryptionKeysPath r)
    (IrqBalanceConfigFile r) (DefaultMountsFile r) (ContainerExitsDir r)
    (ContainerAttachSocketDir r) (BindMountPrefix r) (UIDMappings r)
    (MinimumMappableUID r) (GIDMappings r) (MinimumMappableGID r) (LogLevel r)
    (LogFilter r) (PidsLimit r) (SeparatePullCgroup r) (SharedCPUSet r)
    (AbsentMountSourcesToReject r) (EnablePodEvents r)
    (IrqBalanceConfigRestoreFile r) (HostNetworkDisableSELinux r)
    (DisableHostPortMapping r).

Definition set_DefaultEnv := ltac:(record_setter RuntimeConfigPassive_eta DefaultEnv).
Definition set_AllowedDevices := ltac:(record_setter RuntimeConfigPassive_eta AllowedDevices).
Definition set_AbsentMountSourcesToReject :=
  ltac:(record_setter RuntimeConfigPassive_eta AbsentMountSourcesToReject).

Definition ImageConfig_eta (r : ImageConfig) : ImageConfig :=
  mkImageConfig (DefaultTransport r) (GlobalAuthFile r) (PauseImage r)
    (PauseImageAuthFile r) (PauseCommand r) (PinnedImages r)
    (SignaturePolicyPath r) (SignaturePolicyDir r) (InsecureRegistries r)
    (ImageVolumes r) (Registries r) (BigFilesTemporaryDir r).

Definition set_Registries := ltac:(record_setter ImageConfig_eta Registries).
Definition set_PinnedImages := ltac:(record_setter ImageConfig_eta PinnedImages).
Definition set_InsecureRegistries := ltac:(record_setter ImageConfig_eta InsecureRegistries).

Definition NetworkConfig_eta (r : NetworkConfig) : NetworkConfig :=
  mkNetworkConfig (CNIDefaultNetwork r) (NetworkDir r) (PluginDir r)
    (PluginDirs r) (cniManager r).

Definition set_PluginDir := ltac:(record_setter NetworkConfig_eta PluginDir).
Definition set_PluginDirs := ltac:(record_setter NetworkConfig_eta PluginDirs).
Definition set_cniManager := ltac:(record_setter NetworkConfig_eta cniManager).

Definition APIConfig_eta (r : APIConfig) : APIConfig :=
  mkAPIConfig (GRPCMaxSendMsgSize r) (GRPCMaxRecvMsgSize r) (Listen r)
    (StreamAddress r) (StreamPort r) (StreamEnableTLS r) (StreamTLSCert r)
    (StreamTLSKey r) (StreamTLSCA r) (StreamIdleTimeout r).

Definition set_GRPCMaxSendMsgSize := ltac:(record_setter APIConfig_eta GRPCMaxSendMsgSize).
Definition set_GRPCMaxRecvMsgSize := ltac:(record_setter APIConfig_eta GRPCMaxRecvMsgSize).

Definition MetricsConfig_eta (r : MetricsConfig) : MetricsConfig :=
  mkMetricsConfig (EnableMetrics r) (MetricsCollectors r) (MetricsHost r)
    (MetricsPort r) (MetricsSocket r) (MetricsCert r) (MetricsKey r).

Definition set_MetricsCollectors := ltac:(record_setter MetricsConfig_eta MetricsCollectors).

Definition SystemContext_eta (r : SystemContext) : SystemContext :=
  mkSystemContext (sc_BigFilesTemporaryDir r) (sc_rest r).

Definition set_sc_BigFilesTemporaryDir := ltac:(record_setter SystemContext_eta sc_BigFilesTemporaryDir).

Definition Config_eta (r : Config) : Config :=
  mkConfig (Comment r) (singleConfigPath r) (dropInConfigDir r) (rootConfig
    r) (apiConfig r) (runtimeConfig r) (imageConfig r) (networkConfig r)
    (metricsConfig r) (tracingConfig r) (statsConfig r) (NRI r)
    (systemContext r).

Definition set_Comment := ltac:(record_setter Config_eta Comment).
Definition set_singleConfigPath := ltac:(record_setter Config_eta singleConfigPath).
Definition set_dropInConfigDir := ltac:(record_setter Config_eta dropInConfigDir).
Definition set_rootConfig := ltac:(record_setter Config_eta rootConfig).
Definition set_apiConfig := ltac:(record_setter Config_eta apiConfig).
Definition set_runtimeConfig := ltac:(record_setter Config_eta runtimeConfig).
Definition set_imageConfig := ltac:(record_setter Config_eta imageConfig).
Definition set_networkConfig := ltac:(record_setter Config_eta networkConfig).
Definition set_metricsConfig := ltac:(record_setter Config_eta metricsConfig).
Definition set_tracingConfig := ltac:(record_setter Config_eta tracingConfig).
Definition set_statsConfig := ltac:(record_setter Config_eta statsConfig).
Definition set_NRI := ltac:(record_setter Config_eta NRI).
Definition set_systemContext := ltac:(record_setter Config_eta systemContext).

Definition tomlConfig_eta (r : tomlConfig) : tomlConfig :=
  mkTomlConfig (Crio_RootConfig r) (Crio_API r) (Crio_Runtime r) (Crio_Image r)
    (Crio_Network r) (Crio_Metrics r) (Crio_Tracing r) (Crio_Stats r)
    (Crio_NRI r).
Definition set_Crio_RootConfig := ltac:(record_setter tomlConfig_eta Crio_RootConfig).
Definition set_Crio_Image := ltac:(record_setter tomlConfig_eta Crio_Image).

(* ===================================================================== *)
(** ** The process environment *)
(* ===================================================================== *)

(** One call of the [filepath.Walk] callback: the path visited, whether it
    is a directory, and the cause of the [*fs.PathError] that [Walk] met
    when it examined the path, if it met one. *)
Record WalkItem := mkWalkItem {
  walk_path : string;
  walk_IsDir : bool;
  walk_err : option Errno
}.

(** What the package sees of the host and of process-wide state. *)
Record World := mkWorld {
  fs_dirs : gset string;            (* existing directories *)
  fs_files : gset string;           (* existing non-directories: files, sockets *)
  fs_noaccess : gset string;        (* paths whose lookup fails for another reason than absence *)
  fs_readonly : gset string;        (* paths that can neither be created nor removed *)
  fs_data : gmap string string;     (* contents of the readable regular files *)
  fs_walk : gmap string (list WalkItem);
                                    (* per root, the visits of [filepath.Walk], in its lexical order *)
  sock_listening : gset string;     (* unix sockets on which a peer accepts connections *)
  env_PATH : gmap string string;    (* executables that [exec.LookPath] resolves *)
  zoneinfo : gset string;           (* zone names of the time zone database *)
  cmd_result : gmap (list string) string;
                                    (* combined output of the command lines that exit with success *)
  spawned : list (list string);     (* command lines run so far *)
  cmd_prefix : list string;         (* [cmdrunner]: prefix put before every command *)
  selinux_disabled : bool;          (* [selinux.SetDisabled] was called *)
  host : host_State                 (* whatever else the collaborators act on *)
}.

Definition World_eta (r : World) : World :=
  mkWorld (fs_dirs r) (fs_files r) (fs_noaccess r) (fs_readonly r) (fs_data r)
    (fs_walk r) (sock_listening r) (env_PATH r) (zoneinfo r) (cmd_result r)
    (spawned r) (cmd_prefix r) (selinux_disabled r) (host r).
Definition set_fs_dirs := ltac:(record_setter World_eta fs_dirs).
Definition set_env_PATH := ltac:(record_setter World_eta env_PATH).
Definition set_fs_files := ltac:(record_setter World_eta fs_files).
Definition set_spawned := ltac:(record_setter World_eta spawned).
Definition set_cmd_prefix := ltac:(record_setter World_eta cmd_prefix).
Definition set_selinux_disabled := ltac:(record_setter World_eta selinux_disabled).
Definition set_fs_data := ltac:(record_setter World_eta fs_data).
Definition set_fs_walk := ltac:(record_setter World_eta fs_walk).

(** [os.Stat]: [None] is success. *)
Definition os_Stat (path : string) (w : World) : option error :=
  if decide (path ∈ fs_noaccess w) then Some (PathError "stat" path EACCES)
  else if decide (path ∈ fs_dirs w ∨ path ∈ fs_files w) then None
  else Some (PathError "stat" path ENOENT).

(** [os.ReadFile] *)
Definition os_ReadFile (path : string) (w : World) : error + string :=
  match fs_data w !! path with
  | Some data => inr data
  | None =>
      inl (PathError "open" path
             (if decide (path ∈ fs_dirs w ∨ path ∈ fs_files w) then EACCES else ENOENT))
  end.

(** [os.Mkdir] of a path at which nothing exists. *)
Definition os_Mkdir (path : string) : M World unit := λ w,
  if decide (path ∈ fs_readonly w) then mkOut (inl (PathError "mkdir" path EACCES)) w []
  else mkOut (inr tt) (set_fs_dirs ({[path]} ∪ fs_dirs w) w) [].

(** [os.Remove] *)
Definition os_Remove (path : string) : M World unit := λ w,
  if decide (path ∈ fs_readonly w) then mkOut (inl (PathError "remove" path EACCES)) w []
  else if decide (path ∈ fs_files w) then
    mkOut (inr tt) (set_fs_files (fs_files w ∖ {[path]}) w) []
  else if decide (path ∈ fs_dirs w) then
    mkOut (inr tt) (set_fs_dirs (fs_dirs w ∖ {[path]}) w) []
  else mkOut (inl (PathError "remove" path ENOENT)) w [].

(** [net.DialTimeout("unix", path, 0)]: [None] is a connection. *)
Definition net_DialTimeout (path : string) (w : World) : option error :=
  if decide (path ∈ sock_listening w) then None
  else Some (PathError "dial" path ECONNREFUSED).

(** [exec.LookPath] *)
Definition exec_LookPath (name : string) (w : World) : error + string :=
  match env_PATH w !! name with
  | Some path => inr path
  | None => inl (LookPathError name)
  end.

(** [time.LoadLocation] for a name other than the empty one and "Local":
    "UTC" is built in, any other name is looked up in the host's database. *)
Definition time_LoadLocation (name : string) (w : World) : option error :=
  if decide (name = "UTC" ∨ name ∈ zoneinfo w) then None
  else Some (Errorf "unknown time zone %s" [name]).

(** [cmdrunner.Command(cmd, args...).CombinedOutput()] *)
Definition cmdrunner_CombinedOutput (cmd : string) (args : list string) : M World string := λ w,
  let line := cmd_prefix w ++ cmd :: args in
  let w' := set_spawned (spawned w ++ [line]) w in
  match cmd_result w !! line with
  | Some output => mkOut (inr output) w' []
  | None => mkOut (inl (Foreign (mkFailure "exec" false))) w' []
  end.

(** [cmdrunner.PrependCommandsWith] *)
Definition cmdrunner_PrependCommandsWith (cmd : string) (args : list string) : M World unit :=
  modify (set_cmd_prefix (cmd :: args)).

(** [selinux.SetDisabled] *)
Definition selinux_SetDisabled : M World unit := modify (set_selinux_disabled true).

(** [errors.Is(err, os.ErrNotExist)]: follows the [%w] chain. *)
Fixpoint errors_Is_ErrNotExist (e : error) : bool :=
  match e with
  | Wrapf _ _ cause => errors_Is_ErrNotExist cause
  | PathError _ _ ENOENT => true
  | Foreign f => failure_not_exist f
  | _ => false
  end.

(** A method's state: its receiver and the environment. *)
Record St (C : Type) := mkSt { cfg : C; world : World }.
Arguments mkSt {C} _ _.
Arguments cfg {C} _.
Arguments world {C} _.

Definition onWorld {C A} (m : M World A) : M (St C) A :=
  zoom world (λ w s, mkSt (cfg s) w) m.
Definition onCfg {C A} (m : M C A) : M (St C) A :=
  zoom cfg (λ c s, mkSt c (world s)) m.
(** A method of field [proj] of the receiver. *)
Definition onField {C D A} (proj : C → D) (upd : D → C → C) (m : M (St D) A) : M (St C) A :=
  zoom (λ s, mkSt (proj (cfg s)) (world s)) (λ t s, mkSt (upd (cfg t) (cfg s)) (world t)) m.

(** A read of the environment. *)
Definition readWorld {C A} (f : World → A) : M (St C) A := gets (λ s, f (world s)).

Definition liftE {S A} (r : error + A) : M S A :=
  match r with inl e => throw e | inr a => ret a end.

(** Results of collaborators: [err != nil { return err }]. *)
Definition liftF {S A} (r : Failure + A) : M S A :=
  match r with inl f => throw (Foreign f) | inr a => ret a end.
Definition checkF {S} (r : option Failure) : M S unit :=
  match r with Some f => throw (Foreign f) | None => ret tt end.

(** A collaborator that acts on the environment. *)
Definition Host (A : Type) : Type := World → (Failure + A) * World.

Definition call {A} (h : Host A) : M World A := λ w,
  match h w with
  | (inl f, w') => mkOut (inl (Foreign f)) w' []
  | (inr a, w') => mkOut (inr a) w' []
  end.

(** Properties of a state that concern the environment only, or the
    receiver only. *)
Definition onHost {C} (I : World → Prop) : St C → Prop := λ s, I (world s).
Definition onConfig {C} (I : C → Prop) : St C → Prop := λ s, I (cfg s).

(** [host_blind P m]: started on a configuration that satisfies [P], the
    method [m] neither looks at the environment nor acts on it: on two
    environments it returns the same result, leaves the same
    configuration, which satisfies [P] again, logs the same, and leaves
    each environment as it is. *)
Definition host_blind {C A} (P : C → Prop) (m : M (St C) A) : Prop :=
  ∀ c w w', P c →
    match m (mkSt c w), m (mkSt c w') with
    | mkOut r s l, mkOut r' s' l' =>
        r = r' ∧ l = l' ∧ cfg s = cfg s' ∧ world s = w ∧ world s' = w' ∧ P (cfg s)
    end.

(** [same_host w w']: the host is the same in [w'] as in [w]: same
    files, directories, sockets, executables, time zones, and the same
    commands run; only the two process-wide switches may differ. *)
Definition same_host (w w' : World) : Prop :=
  fs_dirs w' = fs_dirs w ∧ fs_files w' = fs_files w
  ∧ fs_noaccess w' = fs_noaccess w ∧ fs_readonly w' = fs_readonly w
  ∧ fs_data w' = fs_data w ∧ fs_walk w' = fs_walk w
  ∧ sock_listening w' = sock_listening w ∧ env_PATH w' = env_PATH w
  ∧ zoneinfo w' = zoneinfo w ∧ cmd_result w' = cmd_result w
  ∧ spawned w' = spawned w ∧ host w' = host w.

(** [for _, x := range l { body }], left on the first [return err]. *)
Fixpoint for_range {S A} (l : list A) (body : A → M S unit) : M S unit :=
  match l with
  | [] => ret tt
  | x :: l' => bind (body x) (λ _, for_range l' body)
  end.

(* ===================================================================== *)
(** ** TOML fragments *)
(* ===================================================================== *)

(** A decoded TOML document, as far as [toml.Decode] uses it: for each key
    of the [crio] root table the value the document gives it ([None] when
    the key is absent), and for each sub-table the update the document
    makes to the table's struct (the identity when the table is absent). *)
Record Document := mkDocument {
  doc_root : option string;
  doc_runroot : option string;
  doc_imagestore : option string;
  doc_storage_driver : option string;
  doc_storage_option : option (list string);
  doc_log_dir : option string;
  doc_version_file : option string;
  doc_version_file_persist : option string;
  doc_clean_shutdown_file : option string;
  doc_internal_wipe : option bool;
  doc_internal_repair : option bool;
  doc_api : APIConfig → APIConfig;
  doc_runtime : RuntimeConfig → RuntimeConfig;
  doc_image : ImageConfig → ImageConfig;
  doc_network : NetworkConfig → NetworkConfig;
  doc_metrics : MetricsConfig → MetricsConfig;
  doc_tracing : TracingConfig → TracingConfig;
  doc_stats : StatsConfig → StatsConfig;
  doc_nri : nri_Config → nri_Config
}.

(** The document without any key. *)
Definition empty_Document : Document :=
  mkDocument None None None None None None None None None None None
    id id id id id id id id.

(** The view a [storage.Store] gives of itself. *)
Record StoreView := mkStoreView {
  store_RunRoot : string;
  store_GraphRoot : string;
  store_GraphDriverName : string;
  store_GraphOptions : list string
}.

(* ===================================================================== *)
(** ** Collaborators *)
(* ===================================================================== *)

(** Functions of the Go library and of packages outside
    [pkg/config/config.go].  The first group computes on its arguments
    only; the second group acts on the environment. *)
Class Collaborators := {
  (* Go library *)
  filepath_Dir : string → string;
  filepath_Base : string → string;
  filepath_Join : string → string → string;
  filepath_IsAbs : string → bool;
  strings_EqualFold : string → string → bool;
  strings_HasSuffix : string → string → bool;
  regexp_MatchString : string → string → Failure + bool;
  (* order in which a [range] clause visits the keys of a map *)
  range_order : list string → list string;
  (* github.com/BurntSushi/toml: [None] for bytes that do not decode, and
     what decoding such bytes has stored by the time it fails, seen through
     the structure it is handed: for a map and for the NRI block their
     contents, for a slice the contents of the backing array the slice had
     at the call, up to the length the decoder gave the slice (a slice for
     which the decoder took a new array counts as it was) *)
  toml_parse : string → option Document;
  toml_partial : string → tomlConfig → tomlConfig;
  json_Unmarshal_features : string → features_Features → option Failure * features_Features;
  (* parsers and in-memory helpers *)
  ulimits_LoadUlimits : list string → ulimits_Config → Failure + ulimits_Config;
  device_LoadDevices : list string → device_Config → Failure + device_Config;
  RuntimeConfig_Sysctls : list string → option Failure;
  capabilities_Validate : capabilities_Capabilities → option Failure;
  cpuset_Parse : string → Failure + cpuset_CPUSet;
  cpuset_String : cpuset_CPUSet → string;
  Workloads_Validate : config_Workloads → option Failure * config_Workloads;
  references_ParseRegistryImageReferenceFromOutOfProcessData : string → option Failure;
  seccomp_SetNotifierPath : string → seccomp_Config → seccomp_Config;
  seccomp_SetUseDefaultWhenEmpty : bool → seccomp_Config → seccomp_Config;
  blockio_SetReload : bool → blockio_Config → blockio_Config;
  nsmgr_New : string → string → nsmgr_NamespaceManager;
  cgmgr_IsSystemd : cgmgr_CgroupManager → bool;
  nri_Validate_static : nri_Config → option Failure * nri_Config;
  (* acting on the host *)
  node_ValidateConfig : Host unit;
  storage_GetStore : RootConfig → Host StoreView;
  cgmgr_SetCgroupManager : string → Host cgmgr_CgroupManager;
  sysregistriesv2_GetRegistries : SystemContext → Host unit;
  utils_IsDirectory : string → World → option Failure;
  cdi_GetRegistry : list string → Host unit;
  RuntimeConfig_ValidatePinnsPath : string → string → Host string;
  nsmgr_Initialize : nsmgr_NamespaceManager → Host nsmgr_NamespaceManager;
  seccomp_LoadProfile : string → seccomp_Config → Host seccomp_Config;
  seccomp_LoadDefaultProfile : seccomp_Config → Host seccomp_Config;
  apparmor_LoadProfile : string → apparmor_Config → Host apparmor_Config;
  blockio_Load : string → blockio_Config → Host blockio_Config;
  rdt_Load : string → rdt_Config → Host rdt_Config;
  conmonmgr_New : string → Host conmonmgr_ConmonManager;
  cnimgr_New : string → string → list string → Host cnimgr_CNIManager;
  nri_Validate_execution : nri_Config → Host nri_Config
}.

Context `{CO : Collaborators}.

(** [parent], the [filepath.Dir] of [path], is a directory that
    [os.MkdirAll path] has to look after: it is shorter than [path] and it
    is not its own parent.  A path that is its own parent (the root, ".")
    is the end of the way up and exists on every host.  The parent of the
    parent is no longer than the parent: this holds of every path that
    [filepath.Dir] returns, and is asked of whatever function stands for
    it. *)
Definition proper_parent (parent path : string) : bool :=
  bool_decide (String.length parent < String.length path)%nat
  && bool_decide (filepath_Dir parent ≠ parent)
  && bool_decide (String.length (filepath_Dir parent) ≤ String.length parent)%nat.

(** [os.MkdirAll]: nothing to do for an existing directory; fails on a
    path that exists as a non-directory; otherwise it first makes sure, in
    the same way, that the parent directory exists, and then creates the
    directory with [os.Mkdir].  An error met on the way is returned as it
    is, and the directories created before it stay.  [fuel] bounds the
    recursion; a parent is shorter than its path, so the length of the path
    is fuel enough. *)
Fixpoint os_MkdirAll_from (fuel : nat) (path : string) : M World unit := λ w,
  if decide (path ∈ fs_dirs w) then mkOut (inr tt) w []
  else if decide (path ∈ fs_files w) then mkOut (inl (PathError "mkdir" path ENOTDIR)) w []
  else
    match fuel with
    | S fuel' =>
        if proper_parent (filepath_Dir path) path
        then bind (os_MkdirAll_from fuel' (filepath_Dir path)) (λ _, os_Mkdir path) w
        else os_Mkdir path w
    | O => os_Mkdir path w
    end.

Definition os_MkdirAll (path : string) : M World unit :=
  os_MkdirAll_from (String.length path) path.

(** [toml.Decode(data, t)] stores through the pointer [t]: keys present
    in the document overwrite the fields of [t], every other field of [t]
    keeps its value.  When it returns an error, [t] is left with what had
    been stored by then ([toml_partial]). *)
Definition toml_Decode (data : string) : M tomlConfig unit := λ t,
  match toml_parse data with
  | None => mkOut (inl (Foreign (mkFailure "toml" false))) (toml_partial data t) []
  | Some d =>
      let r := Crio_RootConfig t in
      mkOut (inr tt)
        (mkTomlConfig
           (mkRootConfig
              (default (Root r) (doc_root d))
              (default (RunRoot r) (doc_runroot d))
              (default (ImageStore r) (doc_imagestore d))
              (default (Storage r) (doc_storage_driver d))
              (default (StorageOptions r) (doc_storage_option d))
              (default (LogDir r) (doc_log_dir d))
              (default (VersionFile r) (doc_version_file d))
              (default (VersionFilePersist r) (doc_version_file_persist d))
              (default (CleanShutdownFile r) (doc_clean_shutdown_file d))
              (default (InternalWipe r) (doc_internal_wipe d))
              (default (InternalRepair r) (doc_internal_repair d)))
           (doc_api d (Crio_API t))
           (doc_runtime d (Crio_Runtime t))
           (doc_image d (Crio_Image t))
           (doc_network d (Crio_Network t))
           (doc_metrics d (Crio_Metrics t))
           (doc_tracing d (Crio_Tracing t))
           (doc_stats d (Crio_Stats t))
           (doc_nri d (Crio_NRI t)))
        []
  end.

(* ===================================================================== *)
(** ** Merge engine *)
(* ===================================================================== *)

Definition SetSystemContext (c : Config) : Config :=
  set_systemContext
    (set_sc_BigFilesTemporaryDir (BigFilesTemporaryDir (imageConfig c)) (systemContext c)) c.

(** [toConfig]: the assignments of the method, made at once. *)
Definition toConfig (t : tomlConfig) (c : Config) : Config :=
  SetSystemContext
    {| Comment := "# ";
       singleConfigPath := singleConfigPath c;
       dropInConfigDir := dropInConfigDir c;
       rootConfig := Crio_RootConfig t;
       apiConfig := Crio_API t;
       runtimeConfig := Crio_Runtime t;
       imageConfig := Crio_Image t;
       networkConfig := Crio_Network t;
       metricsConfig := Crio_Metrics t;
       tracingConfig := Crio_Tracing t;
       statsConfig := Crio_Stats t;
       NRI := Crio_NRI t;
       systemContext := systemContext c |}.

(** [t := new(tomlConfig); t.fromConfig(c)] *)
Definition fromConfig (c : Config) : tomlConfig :=
  mkTomlConfig (rootConfig c) (apiConfig c) (runtimeConfig c) (imageConfig c)
    (networkConfig c) (metricsConfig c) (tracingConfig c) (statsConfig c) (NRI c).

(** Two slices share a backing array; the one held [old] when the
    elements of [new] were stored through the other.  The elements are
    overwritten in place, and the length of the first slice stays. *)
Definition stored_in_place {A} (old new : list A) : list A :=
  take (length old) (new ++ drop (length new) old).

(** What the shadow structure shares with the configuration.  The
    assignments of [fromConfig] copy structs, and with them the references
    they hold: the maps [Runtimes] and [Workloads], the pointer to the NRI
    block, and the backing arrays of the slices.  What is stored in these
    through [t] is stored in the configuration, too.  Strings, numbers and
    booleans are copied, and so are the lengths of the slices. *)
Definition shared_RootConfig (t c : RootConfig) : RootConfig :=
  set_StorageOptions (stored_in_place (StorageOptions c) (StorageOptions t)) c.

Definition shared_RuntimeConfigPassive (t c : RuntimeConfigPassive) : RuntimeConfigPassive :=
  set_DefaultEnv (stored_in_place (DefaultEnv c) (DefaultEnv t))
    (set_AllowedDevices (stored_in_place (AllowedDevices c) (AllowedDevices t))
       (set_AbsentMountSourcesToReject
          (stored_in_place (AbsentMountSourcesToReject c) (AbsentMountSourcesToReject t))
          c)).

Definition shared_RuntimeConfig (t c : RuntimeConfig) : RuntimeConfig :=
  set_Runtimes (Runtimes t)
    (set_Workloads (Workloads t)
       (set_DefaultCapabilities (DefaultCapabilities t)
          (set_ConmonEnv (stored_in_place (ConmonEnv c) (ConmonEnv t))
             (set_HooksDir (stored_in_place (HooksDir c) (HooksDir t))
                (set_DefaultSysctls (stored_in_place (DefaultSysctls c) (DefaultSysctls t))
                   (set_DefaultUlimits (stored_in_place (DefaultUlimits c) (DefaultUlimits t))
                      (set_AdditionalDevices
                         (stored_in_place (AdditionalDevices c) (AdditionalDevices t))
                         (set_CDISpecDirs (stored_in_place (CDISpecDirs c) (CDISpecDirs t))
                            (set_passive
                               (shared_RuntimeConfigPassive (passive t) (passive c))
                               c))))))))).

Definition shared_ImageConfig (t c : ImageConfig) : ImageConfig :=
  set_PinnedImages (stored_in_place (PinnedImages c) (PinnedImages t))
    (set_InsecureRegistries (stored_in_place (InsecureRegistries c) (InsecureRegistries t))
       (set_Registries (stored_in_place (Registries c) (Registries t)) c)).

Definition shared_NetworkConfig (t c : NetworkConfig) : NetworkConfig :=
  set_PluginDirs (stored_in_place (PluginDirs c) (PluginDirs t)) c.

Definition shared_MetricsConfig (t c : MetricsConfig) : MetricsConfig :=
  set_MetricsCollectors (MetricsCollectors t) c.

Definition shared_with (t : tomlConfig) (c : Config) : Config :=
  set_NRI (Crio_NRI t)
    (set_rootConfig (shared_RootConfig (Crio_RootConfig t) (rootConfig c))
       (set_runtimeConfig (shared_RuntimeConfig (Crio_Runtime t) (runtimeConfig c))
          (set_imageConfig (shared_ImageConfig (Crio_Image t) (imageConfig c))
             (set_networkConfig (shared_NetworkConfig (Crio_Network t) (networkConfig c))
                (set_metricsConfig (shared_MetricsConfig (Crio_Metrics t) (metricsConfig c))
                   c))))).

Definition UpdateFromDropInFile (path : string) : M (St Config) unit :=
  c ← gets cfg;
  let storageOpts := [] ++ StorageOptions (rootConfig c) in
  let graphRoot := Root (rootConfig c) in
  let runRoot := RunRoot (rootConfig c) in
  let storageDriver := Storage (rootConfig c) in
  data ← readWorld (os_ReadFile path);
  data ← liftE data;
  let t := fromConfig c in
  t ← match toml_Decode data t with
      | mkOut err t _ =>
          modify (λ s, mkSt (shared_with t (cfg s)) (world s));;
          match err with
          | inl err => throw (Wrapf "unable to decode configuration %v: %w" [path] err)
          | inr _ => ret t
          end
      end;
  let storageOpts := storageOpts ++ StorageOptions (Crio_RootConfig t) in
  let storageOpts := removeDupStorageOpts storageOpts in
  let t := set_Crio_RootConfig (set_StorageOptions storageOpts (Crio_RootConfig t)) t in
  let t := if decide (Root (Crio_RootConfig t) = "")
           then set_Crio_RootConfig (set_Root graphRoot (Crio_RootConfig t)) t else t in
  let t := if decide (RunRoot (Crio_RootConfig t) = "")
           then set_Crio_RootConfig (set_RunRoot runRoot (Crio_RootConfig t)) t else t in
  let t := if decide (Storage (Crio_RootConfig t) = "")
           then set_Crio_RootConfig (set_Storage storageDriver (Crio_RootConfig t)) t else t in
  t ← (if decide (0 < length (Registries (Crio_Image t)))
       then logf WarnLevel
              "Support for the 'registries' option has been dropped but it is referenced in %q.  Please use containers-registries.conf(5) for configuring unqualified-search registries instead."
              [path];;
            ret (set_Crio_Image (set_Registries [] (Crio_Image t)) t)
       else ret t);
  modify (λ s, mkSt (toConfig t (cfg s)) (world s)).

Definition UpdateFromFile (path : string) : M (St Config) unit :=
  UpdateFromDropInFile path;;
  modify (λ s, mkSt (set_singleConfigPath path (cfg s)) (world s)).

(** [filepath.Walk(root, fn)] for a callback that returns either [nil] or
    an error other than [filepath.SkipDir]: the visits are made in order
    and the first error ends the walk. *)
Definition filepath_Walk {S} (root : string) (w : World)
    (fn : string → bool → option error → M S unit) : M S unit :=
  for_range (default [] (fs_walk w !! root))
    (λ it, fn (walk_path it) (walk_IsDir it)
              (PathError "lstat" (walk_path it) <$> walk_err it)).

Definition UpdateFromPath (path : string) : M (St Config) unit :=
  stat ← readWorld (os_Stat path);
  let absent := match stat with
                | Some err => os_IsNotExist err
                | None => false
                end in
  if absent then ret tt
  else
    w ← gets world;
    filepath_Walk path w (λ p IsDir err,
      match err with
      | Some err => throw err
      | None => if IsDir then ret tt else UpdateFromDropInFile p
      end);;
    modify (λ s, mkSt (set_dropInConfigDir path (cfg s)) (world s)).

(** The paths of the fragments among the visits of a walk. *)
Definition walk_fragments (items : list WalkItem) : list string :=
  walk_path <$> filter (λ it, walk_IsDir it = false) items.

(** The configuration after merging the fragments at [paths], one after
    the other. *)
Definition merge_fragments (paths : list string) (c : Config) (w : World) : Config :=
  foldl (λ c p, cfg (out_st (UpdateFromDropInFile p (mkSt c w)))) c paths.

(* ===================================================================== *)
(** ** Constants declared outside this file *)
(* ===================================================================== *)

(** Package constants declared in the platform files of the package, and
    the constants of packages [annotations] and [utils], none of which are
    part of the sources at hand. *)
Class PackageConstants := {
  defaultRuntime : string;
  DefaultRuntimeRoot : string;
  defaultMonitorCgroup : string;
  annotations_OCISeccompBPFHookAnnotation : string;
  annotations_DevicesAnnotation : string;
  annotations_AllAllowedAnnotations : list string;
  utils_PodCgroupName : string;
  (* the zero value of [features.Features] *)
  features_zero : features_Features
}.

Context `{PC : PackageConstants}.

Definition modifyCfg {C} (f : C → C) : M (St C) unit :=
  modify (λ s, mkSt (f (cfg s)) (world s)).

(* ===================================================================== *)
(** ** Runtime handlers *)
(* ===================================================================== *)

(** The loop [for _, ann := range allowed] over the map [disallowedMap]. *)
Fixpoint validateAllowed_loop (allowed : list string) (disallowedMap : gset string)
    : error + gset string :=
  match allowed with
  | [] => inr disallowedMap
  | ann :: allowed' =>
      if decide (ann ∈ disallowedMap)
      then validateAllowed_loop allowed' (disallowedMap ∖ {[ann]})
      else inl (Errorf "invalid allowed_annotation: %s" [ann])
  end.

(** The resulting slice lists the keys left in [disallowedMap], in the
    order in which [range] visits them. *)
Definition validateAllowedAndGenerateDisallowedAnnotations (allowed : list string)
    : error + list string :=
  let disallowedMap : gset string := list_to_set annotations_AllAllowedAnnotations in
  match validateAllowed_loop allowed disallowedMap with
  | inl err => inl err
  | inr disallowedMap => inr (range_order (elements disallowedMap))
  end.

Definition ValidateRuntimeAllowedAnnotations : M (St RuntimeHandler) unit :=
  r ← gets cfg;
  disallowed ← liftE (validateAllowedAndGenerateDisallowedAnnotations (AllowedAnnotations r));
  logf DebugLevel "Allowed annotations for runtime: %v" (AllowedAnnotations r);;
  modifyCfg (set_DisallowedAnnotations disallowed).

Definition ValidateRuntimeVMBinaryPattern (r : RuntimeHandler) : bool :=
  if decide (RuntimeType r ≠ RuntimeTypeVM) then true
  else
    let binaryName := filepath_Base (RuntimePath r) in
    match regexp_MatchString RuntimeTypeVMBinaryPattern binaryName with
    | inl _ => false
    | inr matched => matched
    end.

Definition ValidateRuntimePath (name : string) : M (St RuntimeHandler) unit :=
  r ← gets cfg;
  (if decide (RuntimePath r = "") then
     executable ← readWorld (exec_LookPath name);
     match executable with
     | inl err => throw (Wrapf "%q not found in $PATH: %w" [name] err)
     | inr executable =>
         modifyCfg (set_RuntimePath executable);;
         logf DebugLevel "Using runtime executable from $PATH %q" [executable]
     end
   else
     stat ← readWorld (os_Stat (RuntimePath r));
     match stat with
     | Some err =>
         if os_IsNotExist err
         then throw (Errorf "invalid runtime_path for runtime '%s': %q" [name; RuntimePath r])
         else ret tt
     | None => ret tt
     end);;
  r ← gets cfg;
  let ok := ValidateRuntimeVMBinaryPattern r in
  if negb ok
  then throw (Errorf "invalid runtime_path for runtime '%s': containerd binary naming pattern is not followed" [name])
  else logf DebugLevel "Found valid runtime %q for runtime_path %q" [name; RuntimePath r].

Definition ValidateRuntimeType (name : string) : M (St RuntimeHandler) unit :=
  r ← gets cfg;
  if decide (RuntimeType r ≠ "" ∧ RuntimeType r ≠ DefaultRuntimeType
             ∧ RuntimeType r ≠ RuntimeTypeVM ∧ RuntimeType r ≠ RuntimeTypePod)
  then throw (Errorf "invalid `runtime_type` %q for runtime %q" [RuntimeType r; name])
  else ret tt.

Definition ValidateRuntimeConfigPath (name : string) : M (St RuntimeHandler) unit :=
  r ← gets cfg;
  if decide (RuntimeConfigPath r = "") then ret tt
  else if decide (RuntimeType r ≠ RuntimeTypeVM)
  then throw (Errorf "runtime_config_path can only be used with the 'vm' runtime type" [])
  else
    stat ← readWorld (os_Stat (RuntimeConfigPath r));
    match stat with
    | Some err =>
        if os_IsNotExist err
        then throw (Errorf "invalid runtime_config_path for runtime '%s': %q"
                      [name; RuntimeConfigPath r])
        else ret tt
    | None => ret tt
    end.

Definition RuntimeHandler_Validate (name : string) : M (St RuntimeHandler) unit :=
  ValidateRuntimePath name;;
  ValidateRuntimeConfigPath name;;
  ValidateRuntimeAllowedAnnotations;;
  ValidateRuntimeType name.

(* ===================================================================== *)
(** ** Default runtime *)
(* ===================================================================== *)

Definition defaultRuntimeHandler : RuntimeHandler :=
  {| RuntimeConfigPath := "";
     RuntimePath := "";
     RuntimeType := DefaultRuntimeType;
     RuntimeRoot := DefaultRuntimeRoot;
     PrivilegedWithoutHostDevices := false;
     AllowedAnnotations :=
       [annotations_OCISeccompBPFHookAnnotation; annotations_DevicesAnnotation];
     DisallowedAnnotations := [];
     MonitorPath := "";
     MonitorCgroup := defaultMonitorCgroup;
     MonitorEnv := ["PATH=/usr/local/sbin:/usr/local/bin:/usr/sbin:/usr/bin:/sbin:/bin"];
     MonitorExecCgroup := "";
     PlatformRuntimePaths := ∅;
     RuntimePullImage := false;
     features := features_zero |}.

(** [ValidateDefaultRuntime]; the receiver's [Runtimes] map is allocated,
    as it is in every configuration built by [DefaultConfig]. *)
Definition ValidateDefaultRuntime : M RuntimeConfig unit :=
  c ← get;
  match Runtimes c !! DefaultRuntime c with
  | Some _ => ret tt
  | None =>
      if decide (DefaultRuntime c ≠ "") then
        throw (Errorf "default_runtime set to %q, but no runtime entry table [crio.runtime.runtimes.%s] was found"
                 [DefaultRuntime c; DefaultRuntime c])
      else
        logf DebugLevel "Defaulting to %q as the runtime since default_runtime is not set"
          [defaultRuntime];;
        match Runtimes c !! defaultRuntime with
        | Some _ => ret tt
        | None => modify (set_Runtimes (<[defaultRuntime := defaultRuntimeHandler]> (Runtimes c)))
        end;;
        modify (set_DefaultRuntime defaultRuntime)
  end.

(* ===================================================================== *)
(** ** Handlers of a runtime configuration *)
(* ===================================================================== *)

(** The keys of the [Runtimes] map in the order of a [range] clause. *)
Definition range_Runtimes (c : RuntimeConfig) : list string :=
  range_order (elements (dom (Runtimes c))).

(** Run a method of the handler stored under [name]; the handler is
    reached through a pointer, so what the method does to it is seen in
    the map.  Nothing is run for a name without entry. *)
Definition onHandler (name : string) (m : M (St RuntimeHandler) unit)
    : M (St RuntimeConfig) unit := λ s,
  match Runtimes (cfg s) !! name with
  | None => mkOut (inr tt) s []
  | Some handler =>
      match m (mkSt handler (world s)) with
      | mkOut r (mkSt handler' w') l =>
          mkOut r (mkSt (set_Runtimes (<[name := handler']> (Runtimes (cfg s))) (cfg s)) w') l
      end
  end.

Fixpoint ValidateRuntimes_loop (names : list string) (failedValidation : list string)
    : M (St RuntimeConfig) (list string) :=
  match names with
  | [] => ret failedValidation
  | name :: names' =>
      err ← attempt (onHandler name (RuntimeHandler_Validate name));
      match err with
      | inl err =>
          c ← gets cfg;
          if decide (DefaultRuntime c = name) then throw err
          else
            logf WarnLevel "'%s is being ignored due to: %q" [name];;
            ValidateRuntimes_loop names' (failedValidation ++ [name])
      | inr _ => ValidateRuntimes_loop names' failedValidation
      end
  end.

Definition initializeRuntimeFeatures : M (St RuntimeConfig) unit :=
  c ← gets cfg;
  for_range (range_Runtimes c) (λ name,
    onHandler name (
      handler ← gets cfg;
      output ← attempt (onWorld (cmdrunner_CombinedOutput (RuntimePath handler) ["features"]));
      match output with
      | inl err => logf ErrorLevel "Getting OCI runtime features failed: %s" []
      | inr output =>
          let '(err, f) := json_Unmarshal_features output (features handler) in
          modifyCfg (set_features f);;
          match err with
          | Some err => logf ErrorLevel "Unmarshalling OCI features failed: %s" []
          | None => ret tt
          end
      end)).

Definition ValidateRuntimes : M (St RuntimeConfig) unit :=
  c ← gets cfg;
  failedValidation ← ValidateRuntimes_loop (range_Runtimes c) [];
  for_range failedValidation (λ invalidHandlerName,
    modifyCfg (λ c, set_Runtimes (delete invalidHandlerName (Runtimes c)) c));;
  initializeRuntimeFeatures.

(* ===================================================================== *)
(** ** Monitor fields *)
(* ===================================================================== *)

Definition validateExecutablePath (executable currentPath : string) : M World string :=
  if decide (currentPath = "") then
    path ← gets (exec_LookPath executable);
    match path with
    | inl err => throw err
    | inr path => logf DebugLevel "Using %s from $PATH: %s" [executable; path];; ret path
    end
  else
    stat ← gets (os_Stat currentPath);
    match stat with
    | Some err => throw (Wrapf "invalid %s path: %w" [executable] err)
    | None => logf InfoLevel "Using %s executable: %s" [executable; currentPath];; ret currentPath
    end.

Definition validateCriuInPath : M World unit :=
  validateExecutablePath "criu" "";; ret tt.

(** The methods below take the configuration as receiver and a handler by
    pointer: their state is the pair of both. *)
Definition set_handler_MonitorPath (v : string) (ch : RuntimeConfig * RuntimeHandler) :=
  (ch.1, set_MonitorPath v ch.2).
Definition set_handler_MonitorCgroup (v : string) (ch : RuntimeConfig * RuntimeHandler) :=
  (ch.1, set_MonitorCgroup v ch.2).
Definition set_handler_MonitorEnv (v : list string) (ch : RuntimeConfig * RuntimeHandler) :=
  (ch.1, set_MonitorEnv v ch.2).

(** [ValidateConmonPath]: both assignments take place whether or not the
    call on their right-hand side fails. *)
Definition ValidateConmonPath (executable : string) : M (St (RuntimeConfig * RuntimeHandler)) unit :=
  ch ← gets cfg;
  r ← attempt (onWorld (validateExecutablePath executable (MonitorPath ch.2)));
  match r with
  | inl err => modifyCfg (set_handler_MonitorPath "");; throw err
  | inr path =>
      modifyCfg (set_handler_MonitorPath path);;
      m ← attempt (onWorld (call (conmonmgr_New path)));
      match m with
      | inl err => modifyCfg (λ ch, (set_conmonManager None ch.1, ch.2));; throw err
      | inr m => modifyCfg (λ ch, (set_conmonManager (Some m) ch.1, ch.2))
      end
  end.

Definition TranslateMonitorFieldsForHandler (onExecution : bool)
    : M (St (RuntimeConfig * RuntimeHandler)) unit :=
  c ← gets (λ s, (cfg s).1);
  (if decide (ConmonCgroup c ≠ "") then
     logf DebugLevel "Monitor cgroup %s is becoming %s" [ConmonCgroup c];;
     modifyCfg (set_handler_MonitorCgroup (ConmonCgroup c))
   else ret tt);;
  (if decide (Conmon c ≠ "") then
     logf DebugLevel "Monitor path %s is becoming %s" [Conmon c];;
     modifyCfg (set_handler_MonitorPath (Conmon c))
   else ret tt);;
  (if decide (length (ConmonEnv c) ≠ 0) then
     modifyCfg (set_handler_MonitorEnv (ConmonEnv c))
   else ret tt);;
  handler ← gets (λ s, (cfg s).2);
  (if decide (MonitorCgroup handler = "") then
     modifyCfg (set_handler_MonitorCgroup defaultMonitorCgroup)
   else ret tt);;
  if onExecution then
    ValidateConmonPath "conmon";;
    ch ← gets cfg;
    if negb (cgmgr_IsSystemd (cgroupManager ch.1)) then
      if decide (MonitorCgroup ch.2 ≠ utils_PodCgroupName ∧ MonitorCgroup ch.2 ≠ "")
      then throw (Errorf "cgroupfs manager conmon cgroup should be 'pod' or empty" [])
      else ret tt
    else
      if negb (bool_decide (MonitorCgroup ch.2 = utils_PodCgroupName)
               || strings_HasSuffix (MonitorCgroup ch.2) ".slice")
      then throw (Errorf "conmon cgroup should be 'pod' or a systemd slice" [])
      else ret tt
  else ret tt.

(** The call [c.TranslateMonitorFieldsForHandler(handler, onExecution)] for
    the handler stored under [name]. *)
Definition withHandler (name : string) (m : M (St (RuntimeConfig * RuntimeHandler)) unit)
    : M (St RuntimeConfig) unit := λ s,
  match Runtimes (cfg s) !! name with
  | None => mkOut (inr tt) s []
  | Some handler =>
      match m (mkSt (cfg s, handler) (world s)) with
      | mkOut r (mkSt (c', handler') w') l =>
          mkOut r (mkSt (set_Runtimes (<[name := handler']> (Runtimes c')) c') w') l
      end
  end.

(** The body of the loop of [TranslateMonitorFields], for the key [name]. *)
Definition TranslateMonitorFields_body (onExecution : bool) (name : string)
    : M (St RuntimeConfig) unit :=
  c ← gets cfg;
  match Runtimes c !! name with
  | None => ret tt
  | Some handler =>
      if decide (RuntimeType handler = DefaultRuntimeType ∨ RuntimeType handler = "")
      then wrap "failed to translate monitor fields for runtime %s: %w" [name]
             (withHandler name (TranslateMonitorFieldsForHandler onExecution))
      else ret tt
  end.

Definition TranslateMonitorFields (onExecution : bool) : M (St RuntimeConfig) unit :=
  c ← gets cfg;
  for_range (range_Runtimes c) (TranslateMonitorFields_body onExecution).

(* ===================================================================== *)
(** ** Domain validators *)
(* ===================================================================== *)

(** The loop over [c.HooksDir] of [RuntimeConfig.Validate]; [hooksDirs]
    is the slice it appends to. *)
Fixpoint hooksDirs_loop (dirs : list string) (hooksDirs : list string)
    : M World (list string) :=
  match dirs with
  | [] => ret hooksDirs
  | hooksDir :: dirs' =>
      isDir ← gets (utils_IsDirectory hooksDir);
      match isDir with
      | Some err =>
          if negb (failure_not_exist err) then
            logf WarnLevel "Skipping invalid hooks directory: %s exists but is not a directory"
              [hooksDir];;
            hooksDirs_loop dirs' hooksDirs
          else
            r ← attempt (os_MkdirAll hooksDir);
            match r with
            | inl err =>
                logf DebugLevel "Failed to create requested hooks dir: %v" [];;
                hooksDirs_loop dirs' hooksDirs
            | inr _ =>
                logf DebugLevel "Using hooks directory: %s" [hooksDir];;
                hooksDirs_loop dirs' (hooksDirs ++ [hooksDir])
            end
      | None =>
          logf DebugLevel "Using hooks directory: %s" [hooksDir];;
          hooksDirs_loop dirs' (hooksDirs ++ [hooksDir])
      end
  end.

(** The block [if onExecution { ... }] of [RuntimeConfig.Validate]. *)
Definition RuntimeConfig_Validate_onExecution (systemContext : SystemContext)
    : M (St RuntimeConfig) unit :=
  c ← gets cfg;
  cgroupManager ← wrap "unable to update cgroup manager: %w" []
                    (onWorld (call (cgmgr_SetCgroupManager (CgroupManagerName c))));
  modifyCfg (set_cgroupManager cgroupManager);;
  wrap "runtime validation: %w" [] ValidateRuntimes;;
  wrap "invalid registries: %w" []
    (onWorld (call (sysregistriesv2_GetRegistries systemContext)));;
  c ← gets cfg;
  hooksDirs ← onWorld (hooksDirs_loop (HooksDir c) []);
  modifyCfg (set_HooksDir hooksDirs);;
  c ← gets cfg;
  attempt (onWorld (call (cdi_GetRegistry (CDISpecDirs c))));;
  pinns ← wrap "pinns validation: %w" []
            (onWorld (call (RuntimeConfig_ValidatePinnsPath "pinns" (PinnsPath c))));
  modifyCfg (set_PinnsPath pinns);;
  c ← gets cfg;
  modifyCfg (set_namespaceManager (nsmgr_New (NamespacesDir c) (PinnsPath c)));;
  c ← gets cfg;
  nm ← wrap "initialize nsmgr: %w" []
         (onWorld (call (nsmgr_Initialize (namespaceManager c))));
  modifyCfg (set_namespaceManager nm);;
  c ← gets cfg;
  (if EnableCriuSupport c then
     r ← attempt (onWorld validateCriuInPath);
     match r with
     | inl err =>
         modifyCfg (set_EnableCriuSupport false);;
         throw (Errorf "cannot enable checkpoint/restore support without the criu binary in $PATH" [])
     | inr _ => logf InfoLevel "Checkpoint/restore support enabled" []
     end
   else logf InfoLevel "Checkpoint/restore support disabled" []);;
  c ← gets cfg;
  modifyCfg (set_seccompConfig
               (seccomp_SetUseDefaultWhenEmpty (SeccompUseDefaultWhenEmpty c) (seccompConfig c)));;
  c ← gets cfg;
  r ← attempt (onWorld (call (seccomp_LoadProfile (SeccompProfile c) (seccompConfig c))));
  match r with
  | inl err =>
      if negb (errors_Is_ErrNotExist err)
      then throw (Wrapf "unable to load seccomp profile: %w" [] err)
      else
        logf InfoLevel "Specified profile does not exist on disk" [];;
        sc ← wrap "load default seccomp profile: %w" []
               (onWorld (call (seccomp_LoadDefaultProfile (seccompConfig c))));
        modifyCfg (set_seccompConfig sc)
  | inr sc => modifyCfg (set_seccompConfig sc)
  end;;
  c ← gets cfg;
  ac ← wrap "unable to load AppArmor profile: %w" []
         (onWorld (call (apparmor_LoadProfile (ApparmorProfile c) (apparmorConfig c))));
  modifyCfg (set_apparmorConfig ac);;
  bc ← wrap "blockio configuration: %w" []
         (onWorld (call (blockio_Load (BlockIOConfigFile c) (blockioConfig c))));
  modifyCfg (set_blockioConfig (blockio_SetReload (BlockIOReload c) bc));;
  rc ← wrap "rdt configuration: %w" []
         (onWorld (call (rdt_Load (RdtConfigFile c) (rdtConfig c))));
  modifyCfg (set_rdtConfig rc).

Definition RuntimeConfig_Validate (systemContext : SystemContext) (onExecution : bool)
    : M (St RuntimeConfig) unit :=
  c ← gets cfg;
  u ← liftF (ulimits_LoadUlimits (DefaultUlimits c) (ulimitsConfig c));
  modifyCfg (set_ulimitsConfig u);;
  d ← liftF (device_LoadDevices (AdditionalDevices c) (deviceConfig c));
  modifyCfg (set_deviceConfig d);;
  onCfg ValidateDefaultRuntime;;
  c ← gets cfg;
  (if bool_decide (Timezone c ≠ "") && negb (strings_EqualFold (Timezone c) "local") then
     location ← readWorld (time_LoadLocation (Timezone c));
     match location with
     | Some err => throw (Errorf "invalid timezone: %s" [Timezone c])
     | None => ret tt
     end
   else ret tt);;
  (if decide (0 ≤ LogSizeMax c ∧ LogSizeMax c < OCIBufSize)%Z
   then throw (Errorf "log size max should be negative or >= %d" ["8192"])
   else ret tt);;
  (if decide (CtrStopTimeout c < defaultCtrStopTimeout)%Z then
     modifyCfg (set_CtrStopTimeout defaultCtrStopTimeout);;
     logf WarnLevel "Forcing ctr_stop_timeout to lowest possible value of %ds" ["30"]
   else ret tt);;
  wrap "invalid default_sysctls: %w" [] (checkF (RuntimeConfig_Sysctls (DefaultSysctls c)));;
  wrap "invalid capabilities: %w" [] (checkF (capabilities_Validate (DefaultCapabilities c)));;
  (if decide (InfraCtrCPUSet c ≠ "") then
     set ← wrap "invalid infra_ctr_cpuset: %w" [] (liftF (cpuset_Parse (InfraCtrCPUSet c)));
     executable ← readWorld (exec_LookPath tasksetBinary);
     match executable with
     | inl err => throw (Wrapf "%q not found in $PATH: %w" [tasksetBinary] err)
     | inr executable =>
         onWorld (cmdrunner_PrependCommandsWith executable ["--cpu-list"; cpuset_String set])
     end
   else ret tt);;
  (let '(err, workloads) := Workloads_Validate (Workloads c) in
   modifyCfg (set_Workloads workloads);;
   wrap "workloads validation: %w" [] (checkF err));;
  (if onExecution then RuntimeConfig_Validate_onExecution systemContext else ret tt);;
  wrap "monitor fields translation: %w" [] (TranslateMonitorFields onExecution).

(** *** The phases of [RuntimeConfig.Validate]

    For the proofs, the method is cut at the floor of the stop timeout:
    what comes before it (followed by [k]), the floor itself, and what
    comes after it. *)
Definition RuntimeConfig_Validate_first (k : RuntimeConfig → M (St RuntimeConfig) unit)
    : M (St RuntimeConfig) unit :=
  c ← gets cfg;
  u ← liftF (ulimits_LoadUlimits (DefaultUlimits c) (ulimitsConfig c));
  modifyCfg (set_ulimitsConfig u);;
  d ← liftF (device_LoadDevices (AdditionalDevices c) (deviceConfig c));
  modifyCfg (set_deviceConfig d);;
  onCfg ValidateDefaultRuntime;;
  c ← gets cfg;
  (if bool_decide (Timezone c ≠ "") && negb (strings_EqualFold (Timezone c) "local") then
     location ← readWorld (time_LoadLocation (Timezone c));
     match location with
     | Some err => throw (Errorf "invalid timezone: %s" [Timezone c])
     | None => ret tt
     end
   else ret tt);;
  (if decide (0 ≤ LogSizeMax c ∧ LogSizeMax c < OCIBufSize)%Z
   then throw (Errorf "log size max should be negative or >= %d" ["8192"])
   else ret tt);;
  k c.

Definition RuntimeConfig_Validate_floor (c : RuntimeConfig) : M (St RuntimeConfig) unit :=
  if decide (CtrStopTimeout c < defaultCtrStopTimeout)%Z then
    modifyCfg (set_CtrStopTimeout defaultCtrStopTimeout);;
    logf WarnLevel "Forcing ctr_stop_timeout to lowest possible value of %ds" ["30"]
  else ret tt.

Definition RuntimeConfig_Validate_rest (systemContext : SystemContext) (onExecution : bool)
    (c : RuntimeConfig) : M (St RuntimeConfig) unit :=
  wrap "invalid default_sysctls: %w" [] (checkF (RuntimeConfig_Sysctls (DefaultSysctls c)));;
  wrap "invalid capabilities: %w" [] (checkF (capabilities_Validate (DefaultCapabilities c)));;
  (if decide (InfraCtrCPUSet c ≠ "") then
     set ← wrap "invalid infra_ctr_cpuset: %w" [] (liftF (cpuset_Parse (InfraCtrCPUSet c)));
     executable ← readWorld (exec_LookPath tasksetBinary);
     match executable with
     | inl err => throw (Wrapf "%q not found in $PATH: %w" [tasksetBinary] err)
     | inr executable =>
         onWorld (cmdrunner_PrependCommandsWith executable ["--cpu-list"; cpuset_String set])
     end
   else ret tt);;
  (let '(err, workloads) := Workloads_Validate (Workloads c) in
   modifyCfg (set_Workloads workloads);;
   wrap "workloads validation: %w" [] (checkF err));;
  (if onExecution then RuntimeConfig_Validate_onExecution systemContext else ret tt);;
  wrap "monitor fields translation: %w" [] (TranslateMonitorFields onExecution).

(** [RuntimeConfig.Validate] rejects [LogSizeMax] when it returns the
    error of that check. *)
Definition LogSizeMax_rejected {S A} (o : Out S A) : Prop :=
  out_res o = inl (Errorf "log size max should be negative or >= %d" ["8192"]).

(** The path condition under which [RuntimeConfig.Validate] reaches the
    check of [LogSizeMax]: none of the four checks before it returns. *)
Definition LogSizeMax_checked (c : RuntimeConfig) (w : World) : Prop :=
  (∃ u, ulimits_LoadUlimits (DefaultUlimits c) (ulimitsConfig c) = inr u)
  ∧ (∃ d, device_LoadDevices (AdditionalDevices c) (deviceConfig c) = inr d)
  ∧ (is_Some (Runtimes c !! DefaultRuntime c) ∨ DefaultRuntime c = "")
  ∧ (Timezone c = "" ∨ strings_EqualFold (Timezone c) "local" = true
     ∨ time_LoadLocation (Timezone c) w = None).

Definition RemoveUnusedSocket (path : string) : M World unit :=
  wrap "creating socket directories: %w" [] (os_MkdirAll (filepath_Dir path));;
  stat ← gets (os_Stat path);
  match stat with
  | None =>
      conn ← gets (net_DialTimeout path);
      match conn with
      | None => throw (Errorf "already existing connection on %s" [path])
      | Some _ => wrap "removing %s: %w" [path] (os_Remove path)
      end
  | Some _ => ret tt
  end.

Definition APIConfig_Validate (onExecution : bool) : M (St APIConfig) unit :=
  c ← gets cfg;
  (if decide (GRPCMaxSendMsgSize c ≤ 0)%Z
   then modifyCfg (set_GRPCMaxSendMsgSize defaultGRPCMaxMsgSize) else ret tt);;
  (if decide (GRPCMaxRecvMsgSize c ≤ 0)%Z
   then modifyCfg (set_GRPCMaxRecvMsgSize defaultGRPCMaxMsgSize) else ret tt);;
  if onExecution then onWorld (RemoveUnusedSocket (Listen c)) else ret tt.

Definition RootConfig_Validate (onExecution : bool) : M (St RootConfig) unit :=
  if onExecution then
    c ← gets cfg;
    (if negb (filepath_IsAbs (LogDir c))
     then throw (Errorf "log_dir is not an absolute path" []) else ret tt);;
    wrap "invalid log_dir: %w" [] (onWorld (os_MkdirAll (LogDir c)));;
    store ← wrap "failed to get store to set defaults: %w" []
              (onWorld (call (storage_GetStore c)));
    modifyCfg (set_RunRoot (store_RunRoot store));;
    modifyCfg (set_Root (store_GraphRoot store));;
    modifyCfg (set_Storage (store_GraphDriverName store));;
    modifyCfg (set_StorageOptions (store_GraphOptions store))
  else ret tt.

Definition ImageConfig_Validate (onExecution : bool) : M (St ImageConfig) unit :=
  c ← gets cfg;
  (if negb (filepath_IsAbs (SignaturePolicyDir c))
   then throw (Errorf "signature policy dir %q is not absolute" [SignaturePolicyDir c])
   else ret tt);;
  wrap "invalid pause image %q: %w" [PauseImage c]
    (checkF (references_ParseRegistryImageReferenceFromOutOfProcessData (PauseImage c)));;
  if onExecution
  then wrap "cannot create signature policy dir: %w" []
         (onWorld (os_MkdirAll (SignaturePolicyDir c)))
  else ret tt.

Definition NetworkConfig_Validate (onExecution : bool) : M (St NetworkConfig) unit :=
  if onExecution then
    c ← gets cfg;
    isDir ← readWorld (utils_IsDirectory (NetworkDir c));
    match isDir with
    | Some err =>
        if failure_not_exist err
        then wrap "cannot create network_dir: %s: %w" [NetworkDir c]
               (onWorld (os_MkdirAll (NetworkDir c)))
        else throw (Wrapf "invalid network_dir: %s: %w" [NetworkDir c] (Foreign err))
    | None => ret tt
    end;;
    for_range (PluginDirs c) (λ pluginDir,
      wrap "invalid plugin_dirs entry: %w" [] (onWorld (os_MkdirAll pluginDir)));;
    (if decide (PluginDir c ≠ "") then
       logf WarnLevel
         "The config field plugin_dir is being deprecated. Please use plugin_dirs instead" [];;
       wrap "invalid plugin_dir entry: %w" [] (onWorld (os_MkdirAll (PluginDir c)));;
       modifyCfg (set_PluginDirs (PluginDirs c ++ [PluginDir c]));;
       modifyCfg (set_PluginDir "")
     else ret tt);;
    c ← gets cfg;
    cniManager ← wrap "initialize CNI plugin: %w" []
                   (onWorld (call (cnimgr_New (CNIDefaultNetwork c) (NetworkDir c)
                                         (PluginDirs c))));
    modifyCfg (set_cniManager (Some cniManager))
  else ret tt.

(** Modelled from the spec: [nri.Config.Validate] is not part of the
    sources at hand.  Following section 4.3, its static pass works on the
    NRI block in memory and its execution pass may act on the host. *)
Definition NRI_Validate (onExecution : bool) : M (St nri_Config) unit :=
  n ← gets cfg;
  if onExecution then
    n ← onWorld (call (nri_Validate_execution n));
    modifyCfg (λ _, n)
  else
    let '(err, n) := nri_Validate_static n in
    modifyCfg (λ _, n);;
    checkF err.

Definition Config_Validate (onExecution : bool) : M (St Config) unit :=
  c ← gets cfg;
  match ImageVolumes (imageConfig c) with
  | ImageVolumesMkdir | ImageVolumesIgnore | ImageVolumesBind => ret tt
  | ImageVolumesOther _ => throw (Errorf "unrecognized image volume type specified" [])
  end;;
  (if onExecution then onWorld (call node_ValidateConfig) else ret tt);;
  wrap "validating root config: %w" []
    (onField rootConfig set_rootConfig (RootConfig_Validate onExecution));;
  wrap "validating runtime config: %w" []
    (onField runtimeConfig set_runtimeConfig
       (RuntimeConfig_Validate (systemContext c) onExecution));;
  c ← gets cfg;
  modifyCfg (set_runtimeConfig
               (set_seccompConfig
                  (seccomp_SetNotifierPath
                     (filepath_Join (filepath_Dir (Listen (apiConfig c))) "seccomp")
                     (seccompConfig (runtimeConfig c)))
                  (runtimeConfig c)));;
  wrap "validating image config: %w" []
    (onField imageConfig set_imageConfig (ImageConfig_Validate onExecution));;
  wrap "validating network config: %w" []
    (onField networkConfig set_networkConfig (NetworkConfig_Validate onExecution));;
  wrap "validating api config: %w" []
    (onField apiConfig set_apiConfig (APIConfig_Validate onExecution));;
  c ← gets cfg;
  (if negb (SELinux (runtimeConfig c)) then onWorld selinux_SetDisabled else ret tt);;
  wrap "validating NRI config: %w" [] (onField NRI set_NRI (NRI_Validate onExecution)).


(** The handler that the table holds under [name] does not pass
    [RuntimeHandler.Validate] on the host [w]. *)
Definition fails_validation (c : RuntimeConfig) (w : World) (name : string) : Prop :=
  ∃ h, Runtimes c !! name = Some h ∧ failed (RuntimeHandler_Validate name (mkSt h w)).

(** [h'] is the handler [h], up to the features of its runtime. *)
Definition same_but_features (h h' : RuntimeHandler) : Prop :=
  h' = set_features (features h') h.

(** The command line [<runtime_path> features]. *)
Definition features_command (w : World) (h : RuntimeHandler) : list string :=
  cmd_prefix w ++ [RuntimePath h; "features"].

End Config.

Arguments mkSt {ET C} _ _.
Arguments cfg {ET C} _.
Arguments world {ET C} _.
Arguments onHost {ET C} _ _ /.
Arguments onConfig {ET C} _ _ /.
Arguments host_blind {ET C A} _ _.

(* ===================================================================== *)
(** * A concrete host, for the examples *)
(* ===================================================================== *)

(** Collaborator types without content. *)
Definition example_types : ExternalTypes :=
  {| capabilities_Capabilities := unit;
     config_Workloads := unit;
     collectors_Collectors := unit;
     nri_Config := unit;
     types_SystemContext_rest := unit;
     features_Features := unit;
     seccomp_Config := unit;
     apparmor_Config := unit;
     blockio_Config := unit;
     rdt_Config := unit;
     ulimits_Config := unit;
     device_Config := unit;
     cgmgr_CgroupManager := bool;
     conmonmgr_ConmonManager := unit;
     nsmgr_NamespaceManager := unit;
     cnimgr_CNIManager := unit;
     cpuset_CPUSet := string;
     host_State := unit |}.

(** The part of a path before its last slash, if it has one. *)
Fixpoint before_last_slash (s : string) : option string :=
  match s with
  | EmptyString => None
  | String c s' =>
      match before_last_slash s' with
      | Some d => Some (String c d)
      | None => if Ascii.eqb c "/"%char then Some EmptyString else None
      end
  end.

(** [filepath.Dir] on clean paths. *)
Definition example_Dir (path : string) : string :=
  match before_last_slash path with
  | Some EmptyString => "/"
  | Some d => d
  | None => "."
  end.

(** The bytes of a fragment whose keys stand in the table [crio], where
    the decoder looks for them: the table header, a line feed, the keys. *)
Definition crio_table (body : string) : string :=
  "[crio]" +:+ String "010"%char body.

(** Three fragments, written with TOML literal strings, and what they
    decode to. *)
Definition example_fragment_options : string := crio_table "storage_option = ['c', 'a']".
Definition example_fragment_driver : string := crio_table "storage_driver = 'vfs'".
Definition example_fragment_root : string := crio_table "root = '/srv/containers'".

Definition example_doc_options : @Document example_types :=
  mkDocument None None None None (Some ["c"; "a"]) None None None None None None
    id id id id id id id id.
Definition example_doc_driver : @Document example_types :=
  mkDocument None None None (Some "vfs") None None None None None None None
    id id id id id id id id.
Definition example_doc_root : @Document example_types :=
  mkDocument (Some "/srv/containers") None None None None None None None None None None
    id id id id id id id id.

Definition example_parse (data : string) : option (@Document example_types) :=
  if decide (data = example_fragment_options) then Some example_doc_options
  else if decide (data = example_fragment_driver) then Some example_doc_driver
  else if decide (data = example_fragment_root) then Some example_doc_root
  else if decide (data = "") then Some empty_Document
  else None.

(** An action on the host that does nothing and succeeds. *)
Definition idle {A} (a : A) : @Host example_types A := λ w, (inr a, w).

Definition example_collaborators : @Collaborators example_types :=
  {| filepath_Dir := example_Dir;
     filepath_Base := id;
     filepath_Join := λ a b, a +:+ "/" +:+ b;
     filepath_IsAbs := String.prefix "/";
     strings_EqualFold := String.eqb;
     strings_HasSuffix := λ s suffix,
       bool_decide (String.list_ascii_of_string suffix `suffix_of` String.list_ascii_of_string s);
     regexp_MatchString := λ _ s, inr (String.prefix "containerd-shim-" s);
     range_order := id;
     toml_parse := example_parse;
     toml_partial := λ _ t, t;
     json_Unmarshal_features := λ _ f, (None, f);
     ulimits_LoadUlimits := λ _ u, inr u;
     device_LoadDevices := λ _ d, inr d;
     RuntimeConfig_Sysctls := λ _, None;
     capabilities_Validate := λ _, None;
     cpuset_Parse := λ s, inr s;
     cpuset_String := id;
     Workloads_Validate := λ wl, (None, wl);
     references_ParseRegistryImageReferenceFromOutOfProcessData := λ _, None;
     seccomp_SetNotifierPath := λ _ s, s;
     seccomp_SetUseDefaultWhenEmpty := λ _ s, s;
     blockio_SetReload := λ _ b, b;
     nsmgr_New := λ _ _, tt;
     cgmgr_IsSystemd := id;
     nri_Validate_static := λ n, (None, n);
     node_ValidateConfig := idle tt;
     storage_GetStore := λ r,
       idle (mkStoreView (RunRoot r) (Root r) (Storage r) (StorageOptions r));
     cgmgr_SetCgroupManager := λ name, idle (String.eqb name "systemd");
     sysregistriesv2_GetRegistries := λ _, idle tt;
     utils_IsDirectory := λ path w,
       if decide (path ∈ fs_dirs w) then None
       else if decide (path ∈ fs_files w) then Some (mkFailure "stat" false)
       else Some (mkFailure "stat" true);
     cdi_GetRegistry := λ _, idle tt;
     RuntimeConfig_ValidatePinnsPath := λ _ path, idle path;
     nsmgr_Initialize := idle;
     seccomp_LoadProfile := λ _, idle;
     seccomp_LoadDefaultProfile := idle;
     apparmor_LoadProfile := λ _, idle;
     blockio_Load := λ _, idle;
     rdt_Load := λ _, idle;
     conmonmgr_New := λ _, idle tt;
     cnimgr_New := λ _ _ _, idle tt;
     nri_Validate_execution := idle |}.

(** The annotations the comment on [RuntimeHandler.AllowedAnnotations]
    lists as recognized. *)
Definition example_constants : @PackageConstants example_types :=
  @Build_PackageConstants example_types
    "runc" "/run/runc" "system.slice"
    "io.containers.trace-syscall" "io.kubernetes.cri-o.Devices"
    ["io.kubernetes.cri-o.userns-mode";
     "io.kubernetes.cri-o.Devices";
     "io.kubernetes.cri-o.ShmSize";
     "io.kubernetes.cri-o.UnifiedCgroup";
     "io.containers.trace-syscall";
     "io.kubernetes.cri-o.LinkLogs";
     "seccomp-profile.kubernetes.cri-o.io"]
    "pod" tt.

Section Examples.
#[local] Existing Instance example_types.
#[local] Existing Instance example_collaborators.
#[local] Existing Instance example_constants.

Definition example_passive : RuntimeConfigPassive :=
  {| NoPivot := false; LogToJournald := false; DropInfraCtr := true; ReadOnly := false;
     AddInheritableCapabilities := false; DefaultEnv := []; AllowedDevices := ["/dev/fuse"];
     DeviceOwnershipFromSecurityContext := false; DecryptionKeysPath := "/etc/crio/keys/";
     IrqBalanceConfigFile := "/etc/sysconfig/irqbalance"; DefaultMountsFile := "";
     ContainerExitsDir := "/var/run/crio/exits";
     ContainerAttachSocketDir := "/var/run/crio"; BindMountPrefix := "";
     UIDMappings := ""; MinimumMappableUID := -1; GIDMappings := ""; MinimumMappableGID := -1;
     LogLevel := "info"; LogFilter := ""; PidsLimit := -1; SeparatePullCgroup := "";
     SharedCPUSet := ""; AbsentMountSourcesToReject := []; EnablePodEvents := false;
     IrqBalanceConfigRestoreFile := "/etc/sysconfig/orig_irq_banned_cpus";
     HostNetworkDisableSELinux := true; DisableHostPortMapping := false |}.

(** A runtime configuration with the values of [DefaultConfig]. *)
Definition example_RuntimeConfig : RuntimeConfig :=
  {| SeccompUseDefaultWhenEmpty := true; SELinux := false; ConmonEnv := [];
     HooksDir := ["/usr/share/containers/oci/hooks.d"]; DefaultCapabilities := tt;
     DefaultSysctls := []; DefaultUlimits := []; AdditionalDevices := [];
     CDISpecDirs := ["/etc/cdi"]; DefaultRuntime := defaultRuntime; Conmon := "";
     ConmonCgroup := ""; SeccompProfile := ""; ApparmorProfile := "crio-default";
     BlockIOConfigFile := ""; BlockIOReload := false; RdtConfigFile := "";
     CgroupManagerName := "systemd"; NamespacesDir := "/var/run"; PinnsPath := "";
     EnableCriuSupport := false;
     Runtimes := {[ defaultRuntime := defaultRuntimeHandler ]};
     Workloads := tt; LogSizeMax := -1; CtrStopTimeout := 30; InfraCtrCPUSet := "";
     Timezone := ""; seccompConfig := tt; apparmorConfig := tt; blockioConfig := tt;
     rdtConfig := tt; ulimitsConfig := tt; deviceConfig := tt; cgroupManager := true;
     conmonManager := None; namespaceManager := tt; passive := example_passive |}.

Definition example_RootConfig : RootConfig :=
  {| Root := "/r"; RunRoot := "/run"; ImageStore := ""; Storage := "overlay";
     StorageOptions := ["a"; "b"]; LogDir := "/var/log/crio/pods";
     VersionFile := "/var/run/crio/version"; VersionFilePersist := "";
     CleanShutdownFile := "/var/lib/crio/clean.shutdown";
     InternalWipe := true; InternalRepair := false |}.

Definition example_Config : Config :=
  {| Comment := "# "; singleConfigPath := ""; dropInConfigDir := "";
     rootConfig := example_RootConfig;
     apiConfig :=
       {| GRPCMaxSendMsgSize := defaultGRPCMaxMsgSize;
          GRPCMaxRecvMsgSize := defaultGRPCMaxMsgSize;
          Listen := "/var/run/crio/crio.sock"; StreamAddress := "127.0.0.1";
          StreamPort := "0"; StreamEnableTLS := false; StreamTLSCert := "";
          StreamTLSKey := ""; StreamTLSCA := ""; StreamIdleTimeout := "" |};
     runtimeConfig := example_RuntimeConfig;
     imageConfig :=
       {| DefaultTransport := "docker://"; GlobalAuthFile := "";
          PauseImage := "registry.k8s.io/pause:3.9"; PauseImageAuthFile := "";
          PauseCommand := "/pause"; PinnedImages := []; SignaturePolicyPath := "";
          SignaturePolicyDir := "/etc/crio/policies"; InsecureRegistries := [];
          ImageVolumes := ImageVolumesMkdir; Registries := [];
          BigFilesTemporaryDir := "" |};
     networkConfig :=
       {| CNIDefaultNetwork := ""; NetworkDir := "/etc/cni/net.d/"; PluginDir := "";
          PluginDirs := ["/opt/cni/bin/"]; cniManager := None |};
     metricsConfig :=
       {| EnableMetrics := false; MetricsCollectors := tt; MetricsHost := "127.0.0.1";
          MetricsPort := 9090; MetricsSocket := ""; MetricsCert := ""; MetricsKey := "" |};
     tracingConfig :=
       {| EnableTracing := false; TracingEndpoint := "0.0.0.0:4317";
          TracingSamplingRatePerMillion := 0 |};
     statsConfig := {| StatsCollectionPeriod := 0 |};
     NRI := tt;
     systemContext := {| sc_BigFilesTemporaryDir := ""; sc_rest := tt |} |}.

(** A host with a drop-in directory of three fragments, the second of
    which breaks off after the equals sign and does not decode, a stale
    socket and a socket with a listener. *)
Definition example_World : World :=
  {| fs_dirs := {[ "/etc/crio/crio.conf.d"; "/var/run/crio"; "/run/live" ]};
     fs_files := {[ "/etc/crio/crio.conf.d/10-root.conf";
                    "/etc/crio/crio.conf.d/20-broken.conf";
                    "/etc/crio/crio.conf.d/30-driver.conf";
                    "/etc/crio/opts.conf"; "/etc/crio/driver.conf";
                    "/var/run/crio/crio.sock"; "/run/live/crio.sock" ]};
     fs_noaccess := ∅;
     fs_readonly := ∅;
     fs_data := {[ "/etc/crio/crio.conf.d/10-root.conf"
                     := example_fragment_root;
                   "/etc/crio/crio.conf.d/20-broken.conf" := "storage_driver = ";
                   "/etc/crio/crio.conf.d/30-driver.conf"
                     := example_fragment_driver;
                   "/etc/crio/opts.conf" := example_fragment_options;
                   "/etc/crio/driver.conf" := example_fragment_driver ]};
     fs_walk := {[ "/etc/crio/crio.conf.d" :=
                     [mkWalkItem "/etc/crio/crio.conf.d" true None;
                      mkWalkItem "/etc/crio/crio.conf.d/10-root.conf" false None;
                      mkWalkItem "/etc/crio/crio.conf.d/20-broken.conf" false None;
                      mkWalkItem "/etc/crio/crio.conf.d/30-driver.conf" false None] ]};
     sock_listening := {[ "/run/live/crio.sock" ]};
     env_PATH := {[ "runc" := "/usr/bin/runc"; "conmon" := "/usr/bin/conmon" ]};
     zoneinfo := {[ "Europe/Berlin" ]};
     cmd_result := ∅;
     spawned := [];
     cmd_prefix := [];
     selinux_disabled := false;
     host := tt |}.

(** A runtime table whose only handler is stored under the empty name,
    as a TOML table header with an empty quoted key declares it, with no
    default runtime configured. *)
Definition example_empty_name : RuntimeConfig :=
  set_DefaultRuntime "" (set_Runtimes {[ "" := defaultRuntimeHandler ]} example_RuntimeConfig).

(** Runtime configurations with a stop timeout of ten seconds, and with
    log files limited to 100 and to 9000 bytes. *)
Definition example_low_timeout : RuntimeConfig :=
  set_CtrStopTimeout 10 example_RuntimeConfig.
Definition example_small_log : RuntimeConfig :=
  set_LogSizeMax 100 example_RuntimeConfig.
Definition example_large_log : RuntimeConfig :=
  set_LogSizeMax 9000 example_RuntimeConfig.

(** A configuration that pins the infra containers to two CPUs, one with
    a time zone the host knows, one with a time zone it does not know. *)
Definition example_cpuset : Config :=
  set_runtimeConfig (set_InfraCtrCPUSet "0-1" example_RuntimeConfig) example_Config.
Definition example_berlin : Config :=
  set_runtimeConfig (set_Timezone "Europe/Berlin" example_RuntimeConfig) example_Config.
Definition example_atlantis : Config :=
  set_runtimeConfig (set_Timezone "Atlantis/Capital" example_RuntimeConfig) example_Config.

(** The example host with [taskset] installed. *)
Definition example_World_taskset : World :=
  set_env_PATH (<["taskset" := "/usr/bin/taskset"]> (env_PATH example_World)) example_World.

(** A VM handler next to the default one, under the legacy [conmon]
    settings. *)
Definition example_kata_handler : RuntimeHandler :=
  {| RuntimeConfigPath := "/etc/kata/configuration.toml";
     RuntimePath := "/usr/bin/containerd-shim-kata-v2";
     RuntimeType := RuntimeTypeVM;
     RuntimeRoot := "/run/vc";
     PrivilegedWithoutHostDevices := true;
     AllowedAnnotations := [];
     DisallowedAnnotations := [];
     MonitorPath := "";
     MonitorCgroup := "";
     MonitorEnv := [];
     MonitorExecCgroup := "";
     PlatformRuntimePaths := ∅;
     RuntimePullImage := false;
     features := features_zero |}.

Definition example_kata : RuntimeConfig :=
  set_Conmon "/usr/local/bin/conmon"
    (set_ConmonCgroup "pod"
       (set_ConmonEnv ["PATH=/usr/local/bin"]
          (set_Runtimes (<["kata" := example_kata_handler]> (Runtimes example_RuntimeConfig))
             example_RuntimeConfig))).

(** An allow-list that names a recognized annotation twice. *)
Definition example_repeated_annotation : list string :=
  ["io.kubernetes.cri-o.Devices"; "io.kubernetes.cri-o.Devices"].

(** The example host once the fragment that does not decode has been
    removed from the drop-in directory. *)
Definition example_World_repaired : World :=
  set_fs_walk
    {[ "/etc/crio/crio.conf.d" :=
         [mkWalkItem "/etc/crio/crio.conf.d" true None;
          mkWalkItem "/etc/crio/crio.conf.d/10-root.conf" false None;
          mkWalkItem "/etc/crio/crio.conf.d/30-driver.conf" false None] ]}
    (set_fs_files (fs_files example_World ∖ {[ "/etc/crio/crio.conf.d/20-broken.conf" ]})
       (set_fs_data (delete "/etc/crio/crio.conf.d/20-broken.conf" (fs_data example_World))
          example_World)).

(** The example host with an empty configuration file. *)
Definition example_World_empty_file : World :=
  set_fs_files ({[ "/etc/crio/empty.conf" ]} ∪ fs_files example_World)
    (set_fs_data (<["/etc/crio/empty.conf" := ""]> (fs_data example_World)) example_World).

(** A runtime table with a second handler, whose executable the example
    host does not have. *)
Definition example_two_runtimes : RuntimeConfig :=
  set_Runtimes
    (<["crun" := set_RuntimePath "/usr/bin/crun" defaultRuntimeHandler]>
       (Runtimes example_RuntimeConfig))
    example_RuntimeConfig.

End Examples.

(* ===================================================================== *)
(** * Properties *)
(* ===================================================================== *)

Section Properties.
Context `{ET : ExternalTypes} `{CO : !Collaborators} `{PC : !PackageConstants}.

(** ** removeDupStorageOpts *)

Lemma removeDupStorageOpts_scan_spec pending opts resOpts :
  removeDupStorageOpts_scan pending opts resOpts
  = resOpts ++ keep_first_unseen opts pending.
Proof.
  revert opts resOpts.
  induction pending as [|o pending IH]; intros opts resOpts; simpl.
  - by rewrite app_nil_r.
  - case_decide; rewrite IH; [done|]. by rewrite <- app_assoc.
Qed.

Lemma keep_first_unseen_snoc l x :
  keep_first_unseen ∅ (l ++ [x])
  = if decide (x ∈ l) then keep_first_unseen ∅ l
    else keep_first_unseen ∅ l ++ [x].
Proof.
  assert (G : ∀ l seen,
    keep_first_unseen seen (l ++ [x])
    = if decide (x ∈ seen ∨ x ∈ l) then keep_first_unseen seen l
      else keep_first_unseen seen l ++ [x]).
  { clear. induction l as [|y l IH]; intros seen; simpl.
    - destruct (decide (x ∈ seen)).
      + by rewrite decide_True by auto.
      + rewrite decide_False; [done|]. intros [?|H]; [done|]. by apply elem_of_nil in H.
    - destruct (decide (y ∈ seen)) as [Hy|Hy].
      + rewrite IH. apply decide_ext. set_solver.
      + rewrite IH.
        destruct (decide (x ∈ {[y]} ∪ seen ∨ x ∈ l)) as [H|H].
        * rewrite decide_True by set_solver. done.
        * rewrite decide_False by set_solver. done. }
  rewrite G. apply decide_ext. set_solver.
Qed.

Lemma keep_last_occurrences_reverse l :
  reverse (keep_first_unseen ∅ (reverse l)) = keep_last_occurrences l.
Proof.
  induction l as [|x l IH]; [done|].
  rewrite reverse_cons, keep_first_unseen_snoc. simpl.
  destruct (decide (x ∈ l)) as [Hx|Hx].
  - rewrite decide_True by (by apply elem_of_reverse). done.
  - rewrite decide_False by (by rewrite elem_of_reverse).
    by rewrite reverse_snoc, IH.
Qed.

Lemma removeDupStorageOpts_keep_last storageOpts :
  removeDupStorageOpts storageOpts = keep_last_occurrences storageOpts.
Proof.
  unfold removeDupStorageOpts.
  rewrite removeDupStorageOpts_scan_spec. simpl.
  apply keep_last_occurrences_reverse.
Qed.

Lemma keep_last_occurrences_elem_of l x :
  x ∈ keep_last_occurrences l ↔ x ∈ l.
Proof.
  induction l as [|y l IH]; [done|]. simpl.
  destruct (decide (y ∈ l)); rewrite ?elem_of_cons, IH; set_solver.
Qed.

Lemma keep_last_occurrences_NoDup l : NoDup (keep_last_occurrences l).
Proof.
  induction l as [|y l IH]; simpl; [constructor|].
  destruct (decide (y ∈ l)); [done|].
  constructor; [by rewrite keep_last_occurrences_elem_of|done].
Qed.

Lemma keep_last_occurrences_sublist l : sublist (keep_last_occurrences l) l.
Proof.
  induction l as [|y l IH]; simpl; [constructor|].
  destruct (decide (y ∈ l)); by constructor.
Qed.

(** An entry of the first list survives when it occurs in neither the rest
    of that list nor the appended one. *)
Lemma keep_last_occurrences_app a b :
  keep_last_occurrences (a ++ b)
  = filter (λ x, x ∉ b) (keep_last_occurrences a) ++ keep_last_occurrences b.
Proof.
  induction a as [|x a IH]; [done|]. simpl.
  destruct (decide (x ∈ a)) as [Ha|Ha].
  - rewrite decide_True by set_solver. done.
  - destruct (decide (x ∈ b)) as [Hb|Hb].
    + rewrite decide_True by set_solver.
      rewrite filter_cons_False by (intros ?; done). done.
    + rewrite decide_False by set_solver.
      rewrite filter_cons_True by done. simpl. by rewrite IH.
Qed.

Lemma keep_last_occurrences_twice l :
  keep_last_occurrences (l ++ l) = keep_last_occurrences (l ++ []).
Proof.
  rewrite app_nil_r, keep_last_occurrences_app.
  replace (filter (λ x, x ∉ l) (keep_last_occurrences l)) with (@nil string); [done|].
  symmetry. apply elem_of_nil_inv. intros x.
  rewrite list_elem_of_filter, keep_last_occurrences_elem_of. tauto.
Qed.

(** ** Running the monad *)

Ltac unfold_monad :=
  unfold mbind, M_bind, mret, M_ret, bind, ret, gets, get, put, modify, modifyCfg,
    throw, logf, liftE, liftF, checkF, readWorld, attempt, wrap, zoom, onWorld,
    onCfg, onField in *.

Ltac run := repeat (unfold_monad; cbn [out_res out_st out_log cfg world fst snd] in *).

(** Run a method along the path that the equations at hand select. *)
Ltac exec :=
  repeat (progress (run; simpl)
          || match goal with
             | H : ?x = _ |- context [match ?x with _ => _ end] => rewrite H
             end).

(** ** Rules of the method logic *)

Section Logic.
Context {S : Type}.
Implicit Types (P : S → Prop) (E : error → S → Prop).

Lemma triple_ret {A} P (a : A) Q E :
  (∀ s, P s → Q a s) → triple P (ret a) Q E.
Proof. intros H s Hs. by apply H. Qed.

Lemma triple_throw {A} P (e : error) (Q : A → S → Prop) E :
  (∀ s, P s → E e s) → triple P (throw e) Q E.
Proof. intros H s Hs. by apply H. Qed.

Lemma triple_bind {A B} P (m : M S A) (f : A → M S B) R Q E :
  triple P m R E → (∀ a, triple (R a) (f a) Q E) → triple P (bind m f) Q E.
Proof.
  intros Hm Hf s Hs. unfold bind. specialize (Hm s Hs).
  destruct (m s) as [[e|a] s' l]; [done|].
  specialize (Hf a s' Hm). by destruct (f a s') as [[e|b] s'' l'].
Qed.

Lemma triple_gets {A} P (f : S → A) Q E :
  (∀ s, P s → Q (f s) s) → triple P (gets f) Q E.
Proof. intros H s Hs. by apply H. Qed.

Lemma triple_get P (Q : S → S → Prop) E :
  (∀ s, P s → Q s s) → triple P get Q E.
Proof. intros H s Hs. by apply H. Qed.

Lemma triple_modify P (f : S → S) Q E :
  (∀ s, P s → Q tt (f s)) → triple P (modify f) Q E.
Proof. intros H s Hs. by apply H. Qed.

Lemma triple_logf P level format operands Q E :
  (∀ s, P s → Q tt s) → triple P (logf level format operands) Q E.
Proof. intros H s Hs. by apply H. Qed.

Lemma triple_attempt {A} P (m : M S A) Q E :
  triple P m (λ a, Q (inr a)) (λ e, Q (inl e)) → triple P (attempt m) Q E.
Proof.
  intros H s Hs. unfold attempt. specialize (H s Hs).
  by destruct (m s) as [[e|a] s' l].
Qed.

Lemma triple_wrap {A} P format operands (m : M S A) Q E :
  triple P m Q (λ e, E (Wrapf format operands e)) → triple P (wrap format operands m) Q E.
Proof.
  intros H s Hs. unfold wrap. specialize (H s Hs).
  by destruct (m s) as [[e|a] s' l].
Qed.

Lemma triple_zoom {T A} P (proj : S → T) (upd : T → S → S) (m : M T A) Q E :
  (∀ s0, P s0 →
     triple (λ t, t = proj s0) m (λ a t, Q a (upd t s0)) (λ e t, E e (upd t s0))) →
  triple P (zoom proj upd m) Q E.
Proof.
  intros H s Hs. unfold zoom. specialize (H s Hs (proj s) eq_refl).
  by destruct (m (proj s)) as [[e|a] t l].
Qed.

Lemma triple_conseq {A} P P' (m : M S A) Q Q' E E' :
  triple P' m Q' E' →
  (∀ s, P s → P' s) → (∀ a s, Q' a s → Q a s) → (∀ e s, E' e s → E e s) →
  triple P m Q E.
Proof.
  intros H HP HQ HE s Hs. specialize (H s (HP s Hs)).
  destruct (m s) as [[e|a] s' l]; auto.
Qed.

Lemma triple_liftF {A} P (r : Failure + A) Q E :
  (∀ f, r = inl f → ∀ s, P s → E (Foreign f) s) →
  (∀ a, r = inr a → ∀ s, P s → Q a s) →
  triple P (liftF r) Q E.
Proof. intros He Hq s Hs. destruct r; simpl; eauto. Qed.

Lemma triple_checkF P (r : option Failure) Q E :
  (∀ f, r = Some f → ∀ s, P s → E (Foreign f) s) →
  (r = None → ∀ s, P s → Q tt s) →
  triple P (checkF r) Q E.
Proof. intros He Hq s Hs. destruct r; simpl; eauto. Qed.

Lemma triple_liftE {A} P (r : error + A) Q E :
  (∀ e, r = inl e → ∀ s, P s → E e s) →
  (∀ a, r = inr a → ∀ s, P s → Q a s) →
  triple P (liftE r) Q E.
Proof. intros He Hq s Hs. destruct r; simpl; eauto. Qed.

(** A loop keeps what each of its iterations keeps. *)
Lemma triple_for_range {A} (I : S → Prop) (l : list A) (body : A → M S unit) E :
  (∀ x, x ∈ l → triple I (body x) (λ _, I) E) →
  triple I (for_range l body) (λ _, I) E.
Proof.
  intros Hbody. induction l as [|x l IH].
  - by apply triple_ret.
  - simpl. eapply triple_bind; [apply Hbody; left|].
    intros []. apply IH. intros y Hy. apply Hbody. by right.
Qed.

End Logic.

Lemma triple_readWorld {C A} (P : St C → Prop) (f : World → A) Q E :
  (∀ s, P s → Q (f (world s)) s) → triple P (readWorld f) Q E.
Proof. intros H s Hs. by apply H. Qed.

Lemma triple_modifyCfg {C} (P : St C → Prop) (f : C → C) Q E :
  (∀ c w, P (mkSt c w) → Q tt (mkSt (f c) w)) → triple P (modifyCfg f) Q E.
Proof. intros H [c w] Hs. by apply H. Qed.

(** ** Rules for what a method keeps *)

Section Keeps.
Context {S : Type}.
Implicit Types (I : S → Prop) (E : error → S → Prop).

Lemma keeps_ret {A} I (a : A) E : keeps I (ret a) E.
Proof. by apply triple_ret. Qed.

Lemma keeps_throw {A} I (e : error) E :
  (∀ s, I s → E e s) → keeps (A:=A) I (throw e) E.
Proof. intros H. by apply triple_throw. Qed.

Lemma keeps_bind {A B} I (m : M S A) (f : A → M S B) E :
  keeps I m E → (∀ a, keeps I (f a) E) → keeps I (bind m f) E.
Proof. intros Hm Hf. by eapply triple_bind. Qed.

(** The value read is known when the continuation runs. *)
Lemma keeps_bind_gets {A B} I (g : S → A) (f : A → M S B) E :
  (∀ a, triple (λ s, I s ∧ g s = a) (f a) (λ _, I) E) → keeps I (bind (gets g) f) E.
Proof.
  intros Hf. eapply triple_bind; [|apply Hf]. by apply triple_gets.
Qed.

Lemma keeps_gets {A} I (g : S → A) E : keeps I (gets g) E.
Proof. by apply triple_gets. Qed.

Lemma keeps_get I E : keeps I get E.
Proof. by apply triple_get. Qed.

Lemma keeps_modify I (f : S → S) E :
  (∀ s, I s → I (f s)) → keeps I (modify f) E.
Proof. intros H. by apply triple_modify. Qed.

Lemma keeps_logf I level format operands E : keeps I (logf level format operands) E.
Proof. by apply triple_logf. Qed.

Lemma keeps_attempt {A} I (m : M S A) E :
  keeps I m (λ _, I) → keeps I (attempt m) E.
Proof. intros H. by apply triple_attempt. Qed.

Lemma keeps_wrap {A} I format operands (m : M S A) E :
  keeps I m (λ e, E (Wrapf format operands e)) → keeps I (wrap format operands m) E.
Proof. intros H. by apply triple_wrap. Qed.

Lemma keeps_liftF {A} I (r : Failure + A) E :
  (∀ f s, I s → E (Foreign f) s) → keeps I (liftF r) E.
Proof. intros H. apply triple_liftF; eauto. Qed.

Lemma keeps_checkF I (r : option Failure) E :
  (∀ f s, I s → E (Foreign f) s) → keeps I (checkF r) E.
Proof. intros H. apply triple_checkF; eauto. Qed.

Lemma keeps_liftE {A} I (r : error + A) E :
  (∀ e s, I s → E e s) → keeps I (liftE r) E.
Proof. intros H. apply triple_liftE; eauto. Qed.

Lemma keeps_for_range {A} I (l : list A) (body : A → M S unit) E :
  (∀ x, keeps I (body x) E) → keeps I (for_range l body) E.
Proof. intros H. apply triple_for_range. intros x _. apply H. Qed.

Lemma keeps_weaken {A} I (m : M S A) E E' :
  keeps I m E' → (∀ e s, E' e s → E e s) → keeps I m E.
Proof. intros H HE. eapply triple_conseq; eauto. Qed.

End Keeps.

Lemma keeps_readWorld {C A} (I : St C → Prop) (f : World → A) E : keeps I (readWorld f) E.
Proof. by apply triple_readWorld. Qed.

Lemma keeps_modifyCfg {C} (I : St C → Prop) (f : C → C) E :
  (∀ c w, I (mkSt c w) → I (mkSt (f c) w)) → keeps I (modifyCfg f) E.
Proof. intros H. by apply triple_modifyCfg. Qed.

(** What does not look at the environment is kept by whatever acts on
    the environment alone. *)
Lemma keeps_onWorld_any {C A} (I : St C → Prop) (m : M World A) E :
  (∀ c w w', I (mkSt c w) → I (mkSt c w')) →
  (∀ e c w w', I (mkSt c w) → E e (mkSt c w')) →
  keeps I (onWorld m) E.
Proof.
  intros HI HE [c w] Hs. unfold onWorld, zoom. simpl.
  destruct (m w) as [[e|a] w' l]; simpl; eauto.
Qed.

Lemma keeps_onWorld {C A} (I : St C → Prop) (J : World → Prop) (m : M World A) E EJ :
  keeps J m EJ →
  (∀ c w, I (mkSt c w) → J w) →
  (∀ c w w', I (mkSt c w) → J w' → I (mkSt c w')) →
  (∀ e c w w', I (mkSt c w) → EJ e w' → E e (mkSt c w')) →
  keeps I (onWorld m) E.
Proof.
  intros Hm HJ HI HE [c w] Hs. unfold onWorld, zoom. simpl.
  specialize (Hm w (HJ c w Hs)).
  destruct (m w) as [[e|a] w' l]; simpl; eauto.
Qed.

(** A method of the configuration that is handed the handler stored
    under [name]. *)
Lemma keeps_withHandler (I : St RuntimeConfig → Prop)
    (J : St (RuntimeConfig * RuntimeHandler) → Prop)
    name (m : M (St (RuntimeConfig * RuntimeHandler)) unit) E EJ :
  keeps J m EJ →
  (∀ c w h, I (mkSt c w) → Runtimes c !! name = Some h → J (mkSt (c, h) w)) →
  (∀ c w c' h' w', I (mkSt c w) → J (mkSt (c', h') w') →
     I (mkSt (set_Runtimes (<[name := h']> (Runtimes c')) c') w')) →
  (∀ e c w c' h' w', I (mkSt c w) → EJ e (mkSt (c', h') w') →
     E e (mkSt (set_Runtimes (<[name := h']> (Runtimes c')) c') w')) →
  keeps I (withHandler name m) E.
Proof.
  intros Hm HJ HI HE [c w] Hs. unfold withHandler. simpl.
  destruct (Runtimes c !! name) as [h|] eqn:Hh; [|done].
  specialize (Hm _ (HJ c w h Hs Hh)).
  destruct (m (mkSt (c, h) w)) as [[e|a] [[c' h'] w'] l]; simpl; eauto.
Qed.

(** One step of a proof that a method keeps a property. *)
Ltac keeps_step :=
  lazymatch goal with
  | |- keeps _ (mbind _ _) _ => unfold mbind, M_bind
  | |- keeps _ (mret _) _ => unfold mret, M_ret
  | |- keeps _ (bind _ _) _ => apply keeps_bind; [|intros ?]
  | |- keeps _ (ret _) _ => apply keeps_ret
  | |- keeps _ (throw _) _ => apply keeps_throw
  | |- keeps _ (gets _) _ => apply keeps_gets
  | |- keeps _ get _ => apply keeps_get
  | |- keeps _ (readWorld _) _ => apply keeps_readWorld
  | |- keeps _ (logf _ _ _) _ => apply keeps_logf
  | |- keeps _ (modify _) _ => apply keeps_modify
  | |- keeps _ (modifyCfg _) _ => apply keeps_modifyCfg
  | |- keeps _ (attempt _) _ => apply keeps_attempt
  | |- keeps _ (wrap _ _ _) _ => apply keeps_wrap
  | |- keeps _ (liftF _) _ => apply keeps_liftF
  | |- keeps _ (checkF _) _ => apply keeps_checkF
  | |- keeps _ (liftE _) _ => apply keeps_liftE
  | |- keeps _ (for_range _ _) _ => apply keeps_for_range; intros ?
  | |- keeps _ (match ?x with _ => _ end) _ => destruct x eqn:?
  end.

(** *** Properties of the environment alone *)

Lemma keeps_True {S A} (m : M S A) (E : error → S → Prop) :
  (∀ e s, E e s) → keeps (λ _, True) m E.
Proof. intros HE s _. destruct (m s) as [[e|a] s' l]; auto. Qed.

Lemma onHost_onCfg {C A} (I : World → Prop) (m : M C A) :
  keeps (onHost I) (onCfg m) (λ _, onHost I).
Proof.
  intros [c w] Hs. unfold onCfg, zoom. simpl.
  by destruct (m c) as [[e|a] c' l].
Qed.

Lemma onHost_onWorld {C A} (I : World → Prop) (m : M World A) :
  keeps I m (λ _, I) → keeps (onHost (C:=C) I) (onWorld m) (λ _, onHost I).
Proof.
  intros Hm [c w] Hs. unfold onWorld, zoom. simpl. specialize (Hm w Hs).
  by destruct (m w) as [[e|a] w' l].
Qed.

Lemma onHost_onField {C D A} (I : World → Prop) (proj : C → D) (upd : D → C → C)
    (m : M (St D) A) :
  keeps (onHost I) m (λ _, onHost I) →
  keeps (onHost I) (onField proj upd m) (λ _, onHost I).
Proof.
  intros Hm [c w] Hs. unfold onField, zoom. simpl. specialize (Hm (mkSt (proj c) w) Hs).
  by destruct (m (mkSt (proj c) w)) as [[e|a] [d w'] l].
Qed.

Lemma onHost_onHandler (I : World → Prop) name (m : M (St RuntimeHandler) unit) :
  keeps (onHost I) m (λ _, onHost I) →
  keeps (onHost I) (onHandler name m) (λ _, onHost I).
Proof.
  intros Hm [c w] Hs. unfold onHandler. simpl.
  destruct (Runtimes c !! name) as [h|]; [|done].
  specialize (Hm (mkSt h w) Hs). by destruct (m (mkSt h w)) as [[e|a] [h' w'] l].
Qed.

Lemma onHost_withHandler (I : World → Prop) name
    (m : M (St (RuntimeConfig * RuntimeHandler)) unit) :
  keeps (onHost I) m (λ _, onHost I) →
  keeps (onHost I) (withHandler name m) (λ _, onHost I).
Proof.
  intros Hm [c w] Hs. unfold withHandler. simpl.
  destruct (Runtimes c !! name) as [h|]; [|done].
  specialize (Hm (mkSt (c, h) w) Hs).
  by destruct (m (mkSt (c, h) w)) as [[e|a] [[c' h'] w'] l].
Qed.

(** Proofs about properties of the environment alone. *)
Ltac keeps_host :=
  repeat first
    [ keeps_step
    | apply onHost_onCfg
    | apply onHost_onWorld
    | apply onHost_onField
    | apply onHost_onHandler
    | apply onHost_withHandler ].

(** *** Properties of the receiver alone *)

Lemma onConfig_onCfg {C A} (I : C → Prop) (m : M C A) :
  keeps I m (λ _, I) → keeps (onConfig I) (onCfg m) (λ _, onConfig I).
Proof.
  intros Hm [c w] Hs. unfold onCfg, zoom. simpl. specialize (Hm c Hs).
  by destruct (m c) as [[e|a] c' l].
Qed.

Lemma onConfig_onWorld {C A} (I : C → Prop) (m : M World A) :
  keeps (onConfig (C:=C) I) (onWorld m) (λ _, onConfig I).
Proof.
  intros [c w] Hs. unfold onWorld, zoom. simpl.
  by destruct (m w) as [[e|a] w' l].
Qed.

Lemma onConfig_onHandler (I : RuntimeConfig → Prop) name (m : M (St RuntimeHandler) unit) :
  (∀ c handlers, I c → I (set_Runtimes handlers c)) →
  keeps (onConfig I) (onHandler name m) (λ _, onConfig I).
Proof.
  intros HI [c w] Hs. unfold onHandler. simpl.
  destruct (Runtimes c !! name) as [h|]; [|done].
  destruct (m (mkSt h w)) as [[e|a] [h' w'] l]; simpl; by apply HI.
Qed.

Lemma onConfig_withHandler (I : RuntimeConfig → Prop) name
    (m : M (St (RuntimeConfig * RuntimeHandler)) unit) :
  keeps (onConfig (λ ch, I ch.1)) m (λ _, onConfig (λ ch, I ch.1)) →
  (∀ c handlers, I c → I (set_Runtimes handlers c)) →
  keeps (onConfig I) (withHandler name m) (λ _, onConfig I).
Proof.
  intros Hm HI [c w] Hs. unfold withHandler. simpl.
  destruct (Runtimes c !! name) as [h|]; [|done].
  specialize (Hm (mkSt (c, h) w) Hs).
  destruct (m (mkSt (c, h) w)) as [[e|a] [[c' h'] w'] l]; simpl in *; by apply HI.
Qed.

(** Proofs about properties of the receiver alone. *)
Ltac keeps_config :=
  repeat first
    [ keeps_step
    | apply onConfig_onWorld
    | apply onConfig_onCfg
    | apply onConfig_onHandler
    | apply onConfig_withHandler
    | eapply keeps_weaken; [apply onConfig_onWorld|done]
    | eapply keeps_weaken; [apply onConfig_onCfg|done] ].

(** The first method of a sequence keeps the precondition. *)
Ltac bind_keeps :=
  unfold mbind, M_bind;
  lazymatch goal with
  | |- triple ?P (bind ?m ?f) ?Q ?E =>
      apply (triple_bind P m f (λ _, P) Q E); [change (keeps P m E)|intros ?]
  end.

(** ** Merging one fragment *)

Lemma length_not_pos_nil {A} (l : list A) : ¬ 0 < length l → l = [].
Proof. destruct l; simpl; [done|lia]. Qed.

(** The outcome of merging a fragment that is read and decoded: [t] is
    the shadow structure as [toml.Decode] leaves it, [t'] the one handed to
    [toConfig]. *)
Lemma UpdateFromDropInFile_decoded path data t c w :
  os_ReadFile path w = inr data →
  toml_Decode data (fromConfig c) = mkOut (inr tt) t [] →
  ∃ t' l,
    UpdateFromDropInFile path (mkSt c w) = mkOut (inr tt) (mkSt (toConfig t' c) w) l
    ∧ StorageOptions (Crio_RootConfig t')
      = removeDupStorageOpts (StorageOptions (rootConfig c) ++ StorageOptions (Crio_RootConfig t))
    ∧ Root (Crio_RootConfig t')
      = (if decide (Root (Crio_RootConfig t) = "") then Root (rootConfig c)
         else Root (Crio_RootConfig t))
    ∧ RunRoot (Crio_RootConfig t')
      = (if decide (RunRoot (Crio_RootConfig t) = "") then RunRoot (rootConfig c)
         else RunRoot (Crio_RootConfig t))
    ∧ Storage (Crio_RootConfig t')
      = (if decide (Storage (Crio_RootConfig t) = "") then Storage (rootConfig c)
         else Storage (Crio_RootConfig t))
    ∧ Registries (Crio_Image t') = [].
Proof.
  intros Hdata Hdec. unfold UpdateFromDropInFile.
  run. rewrite Hdata. run. rewrite Hdec. run.
  clear Hdata Hdec. simpl.
  destruct (decide (Root (Crio_RootConfig t) = "")) as [H1|H1]; simpl;
  destruct (decide (RunRoot (Crio_RootConfig t) = "")) as [H2|H2]; simpl;
  destruct (decide (Storage (Crio_RootConfig t) = "")) as [H3|H3]; simpl;
  destruct (decide (0 < length (Registries (Crio_Image t)))) as [H4|H4]; simpl;
  (eexists _, _; split; [reflexivity|]); simpl;
  repeat split; auto using length_not_pos_nil.
Qed.

Lemma os_ReadFile_data path data w :
  fs_data w !! path = Some data → os_ReadFile path w = inr data.
Proof. intros H. unfold os_ReadFile. by rewrite H. Qed.

(** C1. Merging a fragment concatenates the storage driver options the
    configuration had with those of the fragment and removes duplicates,
    keeping of each option its last occurrence, in place, and the order of
    what remains.  Base ["a";"b"] and a fragment contributing ["c";"a"]
    give ["b";"c";"a"]. *)
Theorem UpdateFromDropInFile_storage_options path data d c w :
  fs_data w !! path = Some data →
  toml_parse data = Some d →
  let o := UpdateFromDropInFile path (mkSt c w) in
  let merged := StorageOptions (rootConfig (cfg (out_st o))) in
  let all := StorageOptions (rootConfig c) ++ default [] (doc_storage_option d) in
  out_res o = inr tt
  ∧ merged = removeDupStorageOpts all
  ∧ merged = keep_last_occurrences all
  ∧ NoDup merged
  ∧ (∀ x, x ∈ merged ↔ x ∈ all)
  ∧ sublist merged all
  ∧ (StorageOptions (rootConfig c) = ["a"; "b"] →
     doc_storage_option d = Some ["c"; "a"] →
     merged = ["b"; "c"; "a"]).
Proof.
  intros Hdata Hdoc o merged all.
  assert (Hdec : toml_Decode data (fromConfig c) = mkOut (inr tt)
            (mkTomlConfig
               (mkRootConfig
                  (default (Root (rootConfig c)) (doc_root d))
                  (default (RunRoot (rootConfig c)) (doc_runroot d))
                  (default (ImageStore (rootConfig c)) (doc_imagestore d))
                  (default (Storage (rootConfig c)) (doc_storage_driver d))
                  (default (StorageOptions (rootConfig c)) (doc_storage_option d))
                  (default (LogDir (rootConfig c)) (doc_log_dir d))
                  (default (VersionFile (rootConfig c)) (doc_version_file d))
                  (default (VersionFilePersist (rootConfig c)) (doc_version_file_persist d))
                  (default (CleanShutdownFile (rootConfig c)) (doc_clean_shutdown_file d))
                  (default (InternalWipe (rootConfig c)) (doc_internal_wipe d))
                  (default (InternalRepair (rootConfig c)) (doc_internal_repair d)))
               (doc_api d (apiConfig c)) (doc_runtime d (runtimeConfig c))
               (doc_image d (imageConfig c)) (doc_network d (networkConfig c))
               (doc_metrics d (metricsConfig c)) (doc_tracing d (tracingConfig c))
               (doc_stats d (statsConfig c)) (doc_nri d (NRI c))) []).
  { unfold toml_Decode. by rewrite Hdoc. }
  destruct (UpdateFromDropInFile_decoded path data _ c w (os_ReadFile_data _ _ _ Hdata) Hdec)
    as (t' & l & Hrun & Hopts & _).
  assert (Hmerged : merged = keep_last_occurrences all).
  { subst merged o all. rewrite Hrun. simpl. rewrite Hopts. simpl.
    rewrite removeDupStorageOpts_keep_last.
    destruct (doc_storage_option d); simpl; [done|].
    apply keep_last_occurrences_twice. }
  split; [by subst o; rewrite Hrun|].
  split; [by rewrite removeDupStorageOpts_keep_last|].
  split; [done|]. rewrite Hmerged.
  split; [apply keep_last_occurrences_NoDup|].
  split; [apply keep_last_occurrences_elem_of|].
  split; [apply keep_last_occurrences_sublist|].
  intros Hbase Hfrag. subst all. rewrite Hbase, Hfrag. reflexivity.
Qed.

(** C3. A fragment that leaves the root directory, the run directory or
    the storage driver name empty (key absent, or set to the empty string)
    keeps the value the field had before the fragment; a fragment with a
    non-empty value overrides it.  Base ("/r", "/run", "overlay") and a
    fragment setting only the driver to "vfs" give ("/r", "/run", "vfs"). *)
Theorem UpdateFromDropInFile_inherits path data d c w :
  fs_data w !! path = Some data →
  toml_parse data = Some d →
  let r := rootConfig c in
  let r' := rootConfig (cfg (out_st (UpdateFromDropInFile path (mkSt c w)))) in
  (doc_root d = None ∨ doc_root d = Some "" → Root r' = Root r)
  ∧ (∀ v, doc_root d = Some v → v ≠ "" → Root r' = v)
  ∧ (doc_runroot d = None ∨ doc_runroot d = Some "" → RunRoot r' = RunRoot r)
  ∧ (∀ v, doc_runroot d = Some v → v ≠ "" → RunRoot r' = v)
  ∧ (doc_storage_driver d = None ∨ doc_storage_driver d = Some "" → Storage r' = Storage r)
  ∧ (∀ v, doc_storage_driver d = Some v → v ≠ "" → Storage r' = v)
  ∧ (Root r = "/r" → RunRoot r = "/run" → Storage r = "overlay" →
     doc_root d = None → doc_runroot d = None → doc_storage_driver d = Some "vfs" →
     Root r' = "/r" ∧ RunRoot r' = "/run" ∧ Storage r' = "vfs").
Proof.
  intros Hdata Hdoc r r'.
  assert (Hdec : ∃ t, toml_Decode data (fromConfig c) = mkOut (inr tt) t []
            ∧ Root (Crio_RootConfig t) = default (Root r) (doc_root d)
            ∧ RunRoot (Crio_RootConfig t) = default (RunRoot r) (doc_runroot d)
            ∧ Storage (Crio_RootConfig t) = default (Storage r) (doc_storage_driver d)).
  { unfold toml_Decode. rewrite Hdoc. eexists. split; [reflexivity|]. by simpl. }
  destruct Hdec as (t & Hdec & HR & HRR & HS).
  destruct (UpdateFromDropInFile_decoded path data _ c w (os_ReadFile_data _ _ _ Hdata) Hdec)
    as (t' & l & Hrun & _ & Hroot & Hrunroot & Hstorage & _).
  assert (HR' : Root r' = Root (Crio_RootConfig t')) by (subst r'; by rewrite Hrun).
  assert (HRR' : RunRoot r' = RunRoot (Crio_RootConfig t')) by (subst r'; by rewrite Hrun).
  assert (HS' : Storage r' = Storage (Crio_RootConfig t')) by (subst r'; by rewrite Hrun).
  rewrite HR', HRR', HS', Hroot, Hrunroot, Hstorage, HR, HRR, HS.
  subst r. clear.
  set (r := rootConfig c).
  assert (G : ∀ (o : option string) (prev : string),
    let v' := if decide (default prev o = "") then prev else default prev o in
    (o = None ∨ o = Some "" → v' = prev) ∧ (∀ v, o = Some v → v ≠ "" → v' = v)).
  { intros o prev. simpl. split.
    - intros [->| ->]; simpl; try case_decide; done.
    - intros v -> Hv. simpl. by rewrite decide_False. }
  destruct (G (doc_root d) (Root r)) as [G1 G2].
  destruct (G (doc_runroot d) (RunRoot r)) as [G3 G4].
  destruct (G (doc_storage_driver d) (Storage r)) as [G5 G6].
  do 6 (split; [assumption|]).
  intros E1 E2 E3 D1 D2 D3. rewrite <- E1, <- E2.
  repeat split; [apply G1; by left|apply G3; by left|by apply G6].
Qed.

(** ** The default runtime *)

(** C2 (as amended).  [ValidateDefaultRuntime] succeeds and changes nothing
    when [DefaultRuntime] is a key of [Runtimes]; otherwise it fails,
    changing nothing, when [DefaultRuntime] is not empty; otherwise
    ([DefaultRuntime] is empty and the empty name is no key) it sets
    [DefaultRuntime] to the built-in name, inserting the built-in handler
    under that name unless a handler is stored there already.  After a
    success [DefaultRuntime] is a key of [Runtimes]. *)
Theorem ValidateDefaultRuntime_spec (c : RuntimeConfig) :
  let o := ValidateDefaultRuntime c in
  (is_Some (Runtimes c !! DefaultRuntime c) →
     out_res o = inr tt ∧ out_st o = c)
  ∧ (Runtimes c !! DefaultRuntime c = None → DefaultRuntime c ≠ "" →
     out_res o = inl (Errorf "default_runtime set to %q, but no runtime entry table [crio.runtime.runtimes.%s] was found"
                        [DefaultRuntime c; DefaultRuntime c])
     ∧ out_st o = c)
  ∧ (Runtimes c !! DefaultRuntime c = None → DefaultRuntime c = "" →
     out_res o = inr tt
     ∧ out_st o
       = set_DefaultRuntime defaultRuntime
           (match Runtimes c !! defaultRuntime with
            | Some _ => c
            | None => set_Runtimes (<[defaultRuntime := defaultRuntimeHandler]> (Runtimes c)) c
            end))
  ∧ (out_res o = inr tt →
     is_Some (Runtimes (out_st o) !! DefaultRuntime (out_st o))).
Proof.
  unfold ValidateDefaultRuntime. run.
  destruct (Runtimes c !! DefaultRuntime c) as [h|] eqn:Hkey; run.
  { repeat split; try done; try (by eexists). }
  destruct (decide (DefaultRuntime c ≠ "")) as [Hne|He]; run.
  { repeat split; try done; try (intros [? ?]; done). }
  apply dec_stable in He.
  destruct (Runtimes c !! defaultRuntime) as [h|] eqn:Hdef; run.
  - repeat split; try done; try (intros [? ?]; done);
      try (intros _; simpl; rewrite Hdef; by eexists).
  - repeat split; try done; try (intros [? ?]; done);
      try (intros _; simpl; rewrite lookup_insert_eq; by eexists).
Qed.

(** ** Allowed and disallowed annotations *)

Lemma validateAllowed_loop_ok allowed m :
  NoDup allowed → (∀ a, a ∈ allowed → a ∈ m) →
  validateAllowed_loop allowed m = inr (m ∖ list_to_set allowed).
Proof.
  revert m. induction allowed as [|a allowed IH]; intros m Hnd Hin; simpl.
  - f_equal. set_solver.
  - apply NoDup_cons in Hnd as [Ha Hnd].
    rewrite decide_True by (apply Hin; left).
    rewrite IH; [f_equal; set_solver|done|].
    intros b Hb. apply elem_of_difference. split; [apply Hin; by right|].
    set_solver.
Qed.

Lemma validateAllowed_loop_unknown allowed m a :
  a ∈ allowed → a ∉ m → ∃ err, validateAllowed_loop allowed m = inl err.
Proof.
  revert m. induction allowed as [|b allowed IH]; intros m Ha Hm; [by apply elem_of_nil in Ha|].
  simpl. destruct (decide (b ∈ m)) as [Hb|Hb]; [|by eexists].
  apply elem_of_cons in Ha as [->|Ha]; [done|].
  apply IH; [done|]. set_solver.
Qed.

(** For an allow-list without repetition the function does what the
    annotation allow-list closure asks for: an entry outside the universe
    is an error, otherwise the result lists the universe minus the
    allow-list. *)
Lemma validateAllowedAndGenerateDisallowedAnnotations_NoDup allowed :
  NoDup allowed →
  (∀ l, range_order l ≡ₚ l) →
  let U : gset string := list_to_set annotations_AllAllowedAnnotations in
  ((∃ a, a ∈ allowed ∧ a ∉ U) →
     ∃ err, validateAllowedAndGenerateDisallowedAnnotations allowed = inl err)
  ∧ ((∀ a, a ∈ allowed → a ∈ U) →
     ∃ disallowed,
       validateAllowedAndGenerateDisallowedAnnotations allowed = inr disallowed
       ∧ NoDup disallowed
       ∧ ∀ a, a ∈ disallowed ↔ a ∈ U ∧ a ∉ allowed).
Proof.
  intros Hnd Hperm U. unfold validateAllowedAndGenerateDisallowedAnnotations. split.
  - intros (a & Ha & HU).
    destruct (validateAllowed_loop_unknown allowed U a Ha HU) as [err Herr].
    fold U. rewrite Herr. by eexists.
  - intros Hin. fold U. rewrite (validateAllowed_loop_ok allowed U Hnd Hin).
    eexists. split; [reflexivity|]. split.
    + rewrite Hperm. apply NoDup_elements.
    + intros a. rewrite Hperm, elem_of_elements, elem_of_difference, elem_of_list_to_set.
      done.
Qed.


(** ** Failing merges *)





(** A fragment either fails, naming the fragment's path in the error and
    leaving the environment as it was and the configuration either as it
    was, or as it was but for what a failed decode stored in what it
    shares with the shadow structure; or it succeeds, leaving the
    environment and the two path markers as they were. *)
Lemma UpdateFromDropInFile_outcome path c w :
  (∃ e c', UpdateFromDropInFile path (mkSt c w) = mkOut (inl e) (mkSt c' w) []
           ∧ path ∈ error_paths e
           ∧ (fs_data w !! path = None ∧ c' = c
              ∨ ∃ data, fs_data w !! path = Some data ∧ toml_parse data = None
                        ∧ c' = shared_with (toml_partial data (fromConfig c)) c)
           ∧ singleConfigPath c' = singleConfigPath c
           ∧ dropInConfigDir c' = dropInConfigDir c)
  ∨ (∃ c' l, UpdateFromDropInFile path (mkSt c w) = mkOut (inr tt) (mkSt c' w) l
             ∧ singleConfigPath c' = singleConfigPath c
             ∧ dropInConfigDir c' = dropInConfigDir c).
Proof.
  destruct (fs_data w !! path) as [data|] eqn:Hdata.
  - destruct (toml_parse data) as [d|] eqn:Hdoc.
    + right.
      destruct (UpdateFromDropInFile_decoded path data
                  (out_st (toml_Decode data (fromConfig c))) c w)
        as (t' & l & Hrun & _).
      { by apply os_ReadFile_data. }
      { unfold toml_Decode. by rewrite Hdoc. }
      exists (toConfig t' c), l. by rewrite Hrun.
    + left. eexists _, _. split; [|split; [|split; [right; eexists; by repeat split|done]]].
      * unfold UpdateFromDropInFile, os_ReadFile, toml_Decode. run.
        rewrite Hdata. run. rewrite Hdoc. run. reflexivity.
      * simpl. set_solver.
  - left. eexists _, _. split; [|split; [|split; [by left|done]]].
    + unfold UpdateFromDropInFile, os_ReadFile. run. rewrite Hdata. run. reflexivity.
    + simpl. set_solver.
Qed.

(** The callback that [UpdateFromPath] hands to [filepath.Walk]. *)
Lemma walk_outcome items c w r s l :
  for_range items
    (λ it, match PathError "lstat" (walk_path it) <$> walk_err it with
           | Some err => throw err
           | None => if walk_IsDir it then ret tt
                     else UpdateFromDropInFile (walk_path it)
           end) (mkSt c w) = mkOut r s l →
  (r = inr tt
   ∧ s = mkSt (merge_fragments (walk_fragments items) c w) w
   ∧ dropInConfigDir (cfg s) = dropInConfigDir c)
  ∨ (∃ e before it after,
       items = before ++ it :: after
       ∧ r = inl e
       ∧ walk_path it ∈ error_paths e
       ∧ (∀ b, b ∈ before → walk_err b = None)
       ∧ world s = w
       ∧ (cfg s = merge_fragments (walk_fragments before) c w
          ∨ ∃ data,
              fs_data w !! walk_path it = Some data ∧ toml_parse data = None
              ∧ cfg s = shared_with
                          (toml_partial data
                             (fromConfig (merge_fragments (walk_fragments before) c w)))
                          (merge_fragments (walk_fragments before) c w))
       ∧ dropInConfigDir (cfg s) = dropInConfigDir c).
Proof.
  revert c r s l. induction items as [|it items IH]; intros c r s l Hrun.
  { left. by injection Hrun as <- <- <-. }
  cbn [for_range] in Hrun. unfold bind in Hrun.
  destruct (walk_err it) as [errno|] eqn:Herr; cbn [fmap option_fmap option_map] in Hrun.
  { right. exists (PathError "lstat" (walk_path it) errno), [], it, items.
    injection Hrun as <- <- <-. simpl.
    split; [done|]. split; [done|]. split; [set_solver|].
    split; [intros b Hb; by apply elem_of_nil in Hb|]. split; [done|]. split; [by left|done]. }
  assert (Hskip : ∀ c' r' s' l',
    for_range items
      (λ it, match PathError "lstat" (walk_path it) <$> walk_err it with
             | Some err => throw err
             | None => if walk_IsDir it then ret tt
                       else UpdateFromDropInFile (walk_path it)
             end) (mkSt c' w) = mkOut r' s' l' →
    dropInConfigDir c' = dropInConfigDir c →
    (∀ l0, merge_fragments (walk_fragments l0) c' w
           = merge_fragments (walk_fragments (it :: l0)) c w) →
    (r' = inr tt
     ∧ s' = mkSt (merge_fragments (walk_fragments (it :: items)) c w) w
     ∧ dropInConfigDir (cfg s') = dropInConfigDir c)
    ∨ (∃ e before it0 after,
         it :: items = before ++ it0 :: after
         ∧ r' = inl e
         ∧ walk_path it0 ∈ error_paths e
         ∧ (∀ b, b ∈ before → walk_err b = None)
         ∧ world s' = w
         ∧ (cfg s' = merge_fragments (walk_fragments before) c w
            ∨ ∃ data,
                fs_data w !! walk_path it0 = Some data ∧ toml_parse data = None
                ∧ cfg s' = shared_with
                             (toml_partial data
                                (fromConfig (merge_fragments (walk_fragments before) c w)))
                             (merge_fragments (walk_fragments before) c w))
         ∧ dropInConfigDir (cfg s') = dropInConfigDir c)).
  { intros c' r' s' l' Hrest Hdrop Hmerge.
    destruct (IH c' r' s' l' Hrest)
      as [(-> & -> & ?)|(e & before & it' & after & -> & -> & ? & Hb & ? & Hcfg & ?)].
    - left. rewrite Hmerge. repeat split; try done. congruence.
    - right. exists e, (it :: before), it', after. rewrite <- !Hmerge.
      split; [done|]. split; [done|]. split; [done|].
      split; [intros b [->|Hin]%elem_of_cons; [done|by apply Hb]|].
      split; [done|]. split; [done|congruence]. }
  destruct (walk_IsDir it) eqn:Hdir.
  { unfold ret in Hrun at 1.
    destruct (for_range items _ (mkSt c w)) as [r' s' l'] eqn:Hrest.
    injection Hrun as <- <- <-.
    apply (Hskip c r' s' l' Hrest eq_refl).
    intros l0. unfold walk_fragments. by rewrite filter_cons_False by congruence. }
  destruct (UpdateFromDropInFile_outcome (walk_path it) c w)
    as [(e & c' & Hfrag & Hpath & Hc' & _ & Hdrop)|(c' & l0 & Hfrag & _ & Hdrop)];
    rewrite Hfrag in Hrun.
  { right. exists e, [], it, items. injection Hrun as <- <- <-. simpl.
    split; [done|]. split; [done|]. split; [done|].
    split; [intros b Hb; by apply elem_of_nil in Hb|]. split; [done|].
    split; [|done].
    destruct Hc' as [[_ ->]|(data & ? & ? & ->)]; [by left|right; by exists data]. }
  destruct (for_range items _ (mkSt c' w)) as [r' s' l'] eqn:Hrest.
  injection Hrun as <- <- <-.
  assert (Hmerge : ∀ l1, merge_fragments (walk_fragments l1) c' w
                         = merge_fragments (walk_fragments (it :: l1)) c w).
  { intros l1. unfold walk_fragments. rewrite filter_cons_True by done.
    simpl. by rewrite Hfrag. }
  by apply (Hskip c' r' s' l' Hrest Hdrop).
Qed.


(** ** Directories *)

Lemma set_fs_dirs_twice (D1 D2 : gset string) w :
  set_fs_dirs D2 (set_fs_dirs D1 w) = set_fs_dirs D2 w.
Proof. by destruct w. Qed.

Lemma set_fs_dirs_empty w : set_fs_dirs (∅ ∪ fs_dirs w) w = w.
Proof. destruct w. unfold set_fs_dirs. simpl. f_equal. set_solver. Qed.

(** [os.MkdirAll] logs nothing; it leaves an existing directory alone;
    when it succeeds the directory exists; and all it does on the host is
    to create directories: the one asked for and proper parents on the way
    up from it. *)
Lemma os_MkdirAll_from_outcome fuel path w :
  let o := os_MkdirAll_from fuel path w in
  out_log o = []
  ∧ (path ∈ fs_dirs w → o = mkOut (inr tt) w [])
  ∧ (succeeded o → path ∈ fs_dirs (out_st o))
  ∧ ∃ D : gset string,
      out_st o = set_fs_dirs (D ∪ fs_dirs w) w
      ∧ ∀ d, d ∈ D →
          (d = path ∨ (String.length d < String.length path
                       ∧ String.length (filepath_Dir d) ≤ String.length d)%nat)
          ∧ ∃ k, d = Nat.iter k filepath_Dir path.
Proof.
  revert path w. induction fuel as [|fuel IH]; intros path w; cbn [os_MkdirAll_from].
  all: destruct (decide (path ∈ fs_dirs w)) as [Hdir|Hdir]; simpl;
    [split; [done|]; split; [done|]; split; [done|];
     exists ∅; rewrite set_fs_dirs_empty; split; [done|]; intros d Hd; set_solver|].
  all: destruct (decide (path ∈ fs_files w)) as [Hfile|Hfile]; simpl;
    [split; [done|]; split; [done|]; split; [by intros [a Ha]|];
     exists ∅; rewrite set_fs_dirs_empty; split; [done|]; intros d Hd; set_solver|].
  all: assert (Hmkdir : ∀ w1 (D1 : gset string),
         w1 = set_fs_dirs (D1 ∪ fs_dirs w) w →
         out_log (os_Mkdir path w1) = []
         ∧ (succeeded (os_Mkdir path w1) → path ∈ fs_dirs (out_st (os_Mkdir path w1)))
         ∧ ∃ D : gset string,
             out_st (os_Mkdir path w1) = set_fs_dirs (D ∪ fs_dirs w) w
             ∧ ∀ d, d ∈ D → d = path ∨ d ∈ D1).
  1,3: intros w1 D1 ->; unfold os_Mkdir;
    replace (fs_readonly (set_fs_dirs (D1 ∪ fs_dirs w) w)) with (fs_readonly w)
      by (by destruct w);
    destruct (decide (path ∈ fs_readonly w)); simpl;
    [ split; [done|]; split; [by intros [a Ha]|]; exists D1; split; [done|]; by right
    | split; [done|]; split;
      [ intros _; replace (fs_dirs (set_fs_dirs (D1 ∪ fs_dirs w) w)) with (D1 ∪ fs_dirs w)
          by (by destruct w); set_solver
      | exists ({[path]} ∪ D1); split;
        [ rewrite set_fs_dirs_twice;
          replace (fs_dirs (set_fs_dirs (D1 ∪ fs_dirs w) w)) with (D1 ∪ fs_dirs w)
            by (by destruct w);
          f_equal; set_solver
        | intros d Hd; set_solver ] ] ].
  - destruct (Hmkdir w ∅ (eq_sym (set_fs_dirs_empty w))) as (Hlog & Hok & D & Hst & HD).
    split; [done|]. split; [done|]. split; [done|]. exists D. split; [done|].
    intros d Hd. destruct (HD d Hd) as [->|Hin]; [|set_solver].
    split; [by left|]. by exists 0.
  - destruct (proper_parent (filepath_Dir path) path) eqn:Hparent.
    + apply andb_true_iff in Hparent as [Hparent Hgrand].
      apply andb_true_iff in Hparent as [Hshort Hroot].
      apply bool_decide_eq_true in Hshort, Hroot, Hgrand.
      destruct (IH (filepath_Dir path) w) as (Hlog1 & _ & _ & D1 & Hst1 & HD1).
      unfold bind.
      destruct (os_MkdirAll_from fuel (filepath_Dir path) w) as [[e|[]] w1 l1];
        simpl in *; subst l1.
      * split; [done|]. split; [done|]. split; [by intros [a Ha]|].
        exists D1. split; [done|]. intros d Hd. destruct (HD1 d Hd) as [Hd1 [k Hk]]. split.
        -- right. destruct Hd1 as [->|[? ?]]; lia.
        -- exists (S k). by rewrite Nat.iter_succ_r.
      * destruct (Hmkdir w1 D1 Hst1) as (Hlog & Hok & D & Hst & HD).
        destruct (os_Mkdir path w1) as [r w2 l2]; simpl in *; subst l2.
        split; [done|]. split; [done|]. split; [done|]. exists D. split; [done|].
        intros d Hd. destruct (HD d Hd) as [->|Hin].
        -- split; [by left|]. by exists 0.
        -- destruct (HD1 d Hin) as [Hd1 [k Hk]]. split.
           ++ right. destruct Hd1 as [->|[? ?]]; lia.
           ++ exists (S k). by rewrite Nat.iter_succ_r.
    + destruct (Hmkdir w ∅ (eq_sym (set_fs_dirs_empty w))) as (Hlog & Hok & D & Hst & HD).
      split; [done|]. split; [done|]. split; [done|]. exists D. split; [done|].
      intros d Hd. destruct (HD d Hd) as [->|Hin]; [|set_solver].
      split; [by left|]. by exists 0.
Qed.

(** What [os.MkdirAll] leaves of the host as it is. *)
Lemma os_MkdirAll_frame path w :
  let w' := out_st (os_MkdirAll path w) in
  fs_files w' = fs_files w ∧ fs_noaccess w' = fs_noaccess w
  ∧ fs_readonly w' = fs_readonly w ∧ sock_listening w' = sock_listening w
  ∧ fs_dirs w ⊆ fs_dirs w'.
Proof.
  destruct (os_MkdirAll_from_outcome (String.length path) path w)
    as (_ & _ & _ & D & Hst & _).
  unfold os_MkdirAll. simpl in *. rewrite Hst. destruct w; simpl. repeat split; try done.
  set_solver.
Qed.

(** [os.MkdirAll] of the parent of a path creates nothing at the path
    itself. *)
Lemma os_MkdirAll_Dir_Stat path w :
  filepath_Dir path ≠ path →
  os_Stat path (out_st (os_MkdirAll (filepath_Dir path) w)) = os_Stat path w.
Proof.
  intros Hne.
  destruct (os_MkdirAll_from_outcome (String.length (filepath_Dir path))
              (filepath_Dir path) w) as (_ & _ & _ & D & Hst & HD).
  unfold os_MkdirAll. simpl in *. rewrite Hst.
  assert (path ∉ D) as Hout.
  { intros Hin. destruct (HD path Hin) as [[Heq|[? ?]] _]; [done|lia]. }
  unfold os_Stat.
  replace (fs_noaccess (set_fs_dirs (D ∪ fs_dirs w) w)) with (fs_noaccess w) by (by destruct w).
  replace (fs_files (set_fs_dirs (D ∪ fs_dirs w) w)) with (fs_files w) by (by destruct w).
  replace (fs_dirs (set_fs_dirs (D ∪ fs_dirs w) w)) with (D ∪ fs_dirs w) by (by destruct w).
  destruct (decide (path ∈ fs_noaccess w)); [done|].
  destruct (decide (path ∈ fs_dirs w ∨ path ∈ fs_files w)) as [Hex|Hno].
  - rewrite decide_True; [done|set_solver].
  - rewrite decide_False; [done|set_solver].
Qed.

(** A path that [os.Stat] finds is still found after [os.MkdirAll]. *)
Lemma os_MkdirAll_Stat_found path dir w :
  os_Stat path w = None → os_Stat path (out_st (os_MkdirAll dir w)) = None.
Proof.
  destruct (os_MkdirAll_frame dir w) as (Hfiles & Hnoacc & _ & _ & Hdirs).
  unfold os_Stat. simpl in *. rewrite Hfiles, Hnoacc.
  destruct (decide (path ∈ fs_noaccess w)); [done|].
  destruct (decide (path ∈ fs_dirs w ∨ path ∈ fs_files w)) as [Hex|Hno]; [|done].
  intros _. rewrite decide_True; [done|set_solver].
Qed.

(** ** The listen socket *)

(** C9.  For a socket path that exists: when a peer accepts the
    connection attempt, [RemoveUnusedSocket] returns an error and removes
    nothing; when no peer answers, it removes the socket file and returns
    [nil], unless the removal itself fails.  For a path that does not
    exist it returns [nil] once the parent directory exists. *)
Theorem RemoveUnusedSocket_spec (path : string) (w : World) :
  let o := RemoveUnusedSocket path w in
  (os_Stat path w = None → path ∈ sock_listening w →
     failed o
     ∧ fs_files (out_st o) = fs_files w
     ∧ fs_dirs w ⊆ fs_dirs (out_st o)
     ∧ os_Stat path (out_st o) = None
     ∧ (filepath_Dir path ∈ fs_dirs w →
        out_res o = inl (Errorf "already existing connection on %s" [path])
        ∧ out_st o = w))
  ∧ (path ∈ fs_files w → path ∉ fs_dirs w → path ∉ fs_noaccess w →
     filepath_Dir path ∈ fs_dirs w → path ∉ sock_listening w →
     (path ∉ fs_readonly w →
        out_res o = inr tt
        ∧ out_st o = set_fs_files (fs_files w ∖ {[path]}) w
        ∧ os_Stat path (out_st o) = Some (PathError "stat" path ENOENT))
     ∧ (path ∈ fs_readonly w →
        out_res o = inl (Wrapf "removing %s: %w" [path] (PathError "remove" path EACCES))
        ∧ out_st o = w))
  ∧ (os_Stat path w ≠ None → filepath_Dir path ≠ path →
     out_res (os_MkdirAll (filepath_Dir path) w) = inr tt →
     out_res o = inr tt
     ∧ filepath_Dir path ∈ fs_dirs (out_st o)
     ∧ fs_files (out_st o) = fs_files w
     ∧ out_st o = out_st (os_MkdirAll (filepath_Dir path) w)).
Proof.
  cbv zeta.
  destruct (os_MkdirAll_from_outcome (String.length (filepath_Dir path))
              (filepath_Dir path) w) as (Hlog & Hexists & Hmade & _).
  destruct (os_MkdirAll_frame (filepath_Dir path) w)
    as (Hfiles & Hnoacc & Hro & Hlisten & Hdirs).
  pose proof (os_MkdirAll_Stat_found path (filepath_Dir path) w) as Hfound.
  pose proof (os_MkdirAll_Dir_Stat path w) as Hparent.
  unfold RemoveUnusedSocket, failed, os_MkdirAll in *.
  destruct (os_MkdirAll_from _ (filepath_Dir path) w) as [[e|[]] w1 l1] eqn:Hmk;
    simpl in *; subst l1.
  - split; [|split].
    + intros Hstat Hlive. run. rewrite Hmk. run.
      split; [by eexists|]. split; [done|]. split; [done|].
      split; [by apply Hfound|]. intros Hdir. by specialize (Hexists Hdir).
    + intros Hfile Hnodir Hacc Hdir. by specialize (Hexists Hdir).
    + intros _ _ Hmk'. done.
  - split; [|split].
    + intros Hstat Hlive. run. rewrite Hmk. run. rewrite (Hfound Hstat). run.
      unfold net_DialTimeout. rewrite Hlisten, decide_True by done. run.
      split; [by eexists|]. split; [done|]. split; [done|]. split; [by apply Hfound|].
      intros Hdir. specialize (Hexists Hdir). by injection Hexists as <-.
    + intros Hfile Hnodir Hacc Hdir Hstale.
      specialize (Hexists Hdir). injection Hexists as <-.
      unfold os_Stat, net_DialTimeout, os_Remove. run. rewrite Hmk. run.
      rewrite decide_False by done. rewrite decide_True by auto. run.
      rewrite decide_False by done. run.
      split; intros Hreadonly.
      * rewrite decide_False by done. rewrite decide_True by done. run. simpl.
        split; [done|]. split; [done|].
        rewrite decide_False by done. rewrite decide_False by set_solver. done.
      * rewrite decide_True by done. run. done.
    + intros Hstat Hne _. run. rewrite Hmk. run. rewrite (Hparent Hne).
      destruct (os_Stat path w) as [err|] eqn:Hs; [|done]. run.
      split; [done|]. split; [|done]. apply Hmade. by eexists.
Qed.

(** ** Monitor fields *)

(** Proofs about properties of the configuration alone. *)
Ltac keeps_cfg :=
  repeat first
    [ keeps_step
    | apply keeps_onWorld_any ].

(** Translating the monitor fields of one handler leaves the table of
    handlers of the configuration alone. *)
Lemma TranslateMonitorFieldsForHandler_Runtimes onExecution (m : gmap string RuntimeHandler) :
  keeps (λ t : St (RuntimeConfig * RuntimeHandler), Runtimes (cfg t).1 = m)
    (TranslateMonitorFieldsForHandler onExecution)
    (λ _ t, Runtimes (cfg t).1 = m).
Proof.
  unfold TranslateMonitorFieldsForHandler, ValidateConmonPath.
  destruct onExecution; keeps_cfg; try done; intros [c h]; done.
Qed.

(** A handler whose type is neither the default type nor empty is passed
    over by the loop of [TranslateMonitorFields], and survives the visits
    of the other handlers. *)
Lemma TranslateMonitorFields_body_skip onExecution name handler c w :
  Runtimes c !! name = Some handler →
  RuntimeType handler ≠ DefaultRuntimeType → RuntimeType handler ≠ "" →
  TranslateMonitorFields_body onExecution name (mkSt c w) = mkOut (inr tt) (mkSt c w) [].
Proof.
  intros Hh Hd He. unfold TranslateMonitorFields_body. run. rewrite Hh.
  rewrite decide_False by tauto. reflexivity.
Qed.

Lemma TranslateMonitorFields_body_keeps onExecution name handler n :
  RuntimeType handler ≠ DefaultRuntimeType → RuntimeType handler ≠ "" →
  keeps (λ s : St RuntimeConfig, Runtimes (cfg s) !! name = Some handler)
    (TranslateMonitorFields_body onExecution n)
    (λ _ s, Runtimes (cfg s) !! name = Some handler).
Proof.
  intros Hd He. unfold TranslateMonitorFields_body, mbind, M_bind.
  apply keeps_bind_gets. intros c.
  destruct (Runtimes c !! n) as [h|] eqn:Hn; [|apply triple_ret; tauto].
  case_decide as Htype; [|apply triple_ret; tauto].
  assert (n ≠ name → triple
    (λ s : St RuntimeConfig, Runtimes (cfg s) !! name = Some handler ∧ cfg s = c)
    (wrap "failed to translate monitor fields for runtime %s: %w" [n]
       (withHandler n (TranslateMonitorFieldsForHandler onExecution)))
    (λ _ s, Runtimes (cfg s) !! name = Some handler)
    (λ _ s, Runtimes (cfg s) !! name = Some handler)) as Hvisit.
  { intros Hne. apply triple_wrap.
    apply triple_conseq with
      (P' := λ s : St RuntimeConfig, Runtimes (cfg s) !! name = Some handler)
      (Q' := λ _ s, Runtimes (cfg s) !! name = Some handler)
      (E' := λ _ s, Runtimes (cfg s) !! name = Some handler); [|tauto|done|done].
    apply keeps_withHandler with
      (J := λ t, Runtimes (cfg t).1 !! name = Some handler)
      (EJ := λ _ t, Runtimes (cfg t).1 !! name = Some handler).
    - intros [[c0 h0] w0] Hs. simpl in Hs.
      pose proof (TranslateMonitorFieldsForHandler_Runtimes onExecution (Runtimes c0)
                    (mkSt (c0, h0) w0) eq_refl) as Hkeep.
      destruct (TranslateMonitorFieldsForHandler onExecution (mkSt (c0, h0) w0))
        as [[e|a] [[c' h'] w'] l]; simpl in *; by rewrite Hkeep.
    - by intros.
    - intros c0 w0 c' h' w' _ Hs. simpl in *. by rewrite lookup_insert_ne.
    - intros e c0 w0 c' h' w' _ Hs. simpl in *. by rewrite lookup_insert_ne. }
  destruct (decide (n = name)) as [->|Hne]; [|by apply Hvisit].
  intros s [Hs <-]. rewrite Hs in Hn. injection Hn as <-. tauto.
Qed.

Lemma TranslateMonitorFields_keeps onExecution name handler :
  RuntimeType handler ≠ DefaultRuntimeType → RuntimeType handler ≠ "" →
  keeps (λ s : St RuntimeConfig, Runtimes (cfg s) !! name = Some handler)
    (TranslateMonitorFields onExecution)
    (λ _ s, Runtimes (cfg s) !! name = Some handler).
Proof.
  intros Hd He. unfold TranslateMonitorFields. keeps_step. keeps_step; [keeps_step|].
  keeps_step. exact (TranslateMonitorFields_body_keeps onExecution name handler _ Hd He).
Qed.

(** A handler of the default type, or without type, has its monitor
    fields translated: the legacy fields of the configuration, where set,
    replace the handler's, and an empty monitor cgroup becomes the default
    one.  (Shown for the static mode, where no validation follows.) *)
Lemma TranslateMonitorFields_body_translates name handler c w :
  Runtimes c !! name = Some handler →
  RuntimeType handler = DefaultRuntimeType ∨ RuntimeType handler = "" →
  ∃ handler' l,
    TranslateMonitorFields_body false name (mkSt c w)
    = mkOut (inr tt) (mkSt (set_Runtimes (<[name := handler']> (Runtimes c)) c) w) l
    ∧ MonitorPath handler'
      = (if decide (Conmon c ≠ "") then Conmon c else MonitorPath handler)
    ∧ MonitorEnv handler'
      = (if decide (length (ConmonEnv c) ≠ 0) then ConmonEnv c else MonitorEnv handler)
    ∧ MonitorCgroup handler'
      = (let cgroup := if decide (ConmonCgroup c ≠ "") then ConmonCgroup c
                       else MonitorCgroup handler in
         if decide (cgroup = "") then defaultMonitorCgroup else cgroup).
Proof.
  intros Hh Htype.
  unfold TranslateMonitorFields_body, TranslateMonitorFieldsForHandler, withHandler.
  run. rewrite Hh. rewrite decide_True by done. run. rewrite Hh.
  destruct (decide (ConmonCgroup c ≠ "")) as [H1|H1]; run;
  destruct (decide (Conmon c ≠ "")) as [H2|H2]; run;
  destruct (decide (length (ConmonEnv c) ≠ 0)) as [H3|H3]; run; simpl;
  ((destruct (decide (ConmonCgroup c = "")) as [H4|H4]; [done|])
   || destruct (decide (MonitorCgroup handler = "")) as [H4|H4]);
  run; simpl; eexists _, _; (split; [reflexivity|]); simpl; done.
Qed.

(** C10.  For a handler of type "vm" or "pod" (or of any type other
    than the default one and the empty one) the loop of
    [TranslateMonitorFields] does nothing, neither translation nor
    validation: its iteration returns [nil] and leaves configuration,
    environment and log as they are; and whatever happens to the other
    handlers, the handler is found unchanged afterwards.  A handler of the
    default type or without type is translated. *)
Theorem TranslateMonitorFields_skips_vm_and_pod onExecution name handler c w :
  Runtimes c !! name = Some handler →
  (RuntimeType handler = RuntimeTypeVM ∨ RuntimeType handler = RuntimeTypePod
   ∨ RuntimeType handler ≠ DefaultRuntimeType ∧ RuntimeType handler ≠ "" →
   TranslateMonitorFields_body onExecution name (mkSt c w) = mkOut (inr tt) (mkSt c w) []
   ∧ Runtimes (cfg (out_st (TranslateMonitorFields onExecution (mkSt c w)))) !! name
     = Some handler)
  ∧ (RuntimeType handler = DefaultRuntimeType ∨ RuntimeType handler = "" →
     ∃ handler' l,
       TranslateMonitorFields_body false name (mkSt c w)
       = mkOut (inr tt) (mkSt (set_Runtimes (<[name := handler']> (Runtimes c)) c) w) l
       ∧ MonitorPath handler'
         = (if decide (Conmon c ≠ "") then Conmon c else MonitorPath handler)
       ∧ MonitorEnv handler'
         = (if decide (length (ConmonEnv c) ≠ 0) then ConmonEnv c else MonitorEnv handler)
       ∧ MonitorCgroup handler'
         = (let cgroup := if decide (ConmonCgroup c ≠ "") then ConmonCgroup c
                          else MonitorCgroup handler in
            if decide (cgroup = "") then defaultMonitorCgroup else cgroup)).
Proof.
  intros Hh. split; [|by apply TranslateMonitorFields_body_translates].
  intros Htype.
  assert (RuntimeType handler ≠ DefaultRuntimeType ∧ RuntimeType handler ≠ "") as [Hd He].
  { destruct Htype as [-> | [-> | ?]]; [split; discriminate..|done]. }
  split; [by apply (TranslateMonitorFields_body_skip _ _ handler)|].
  pose proof (TranslateMonitorFields_keeps onExecution name handler Hd He (mkSt c w) Hh) as H.
  by destruct (TranslateMonitorFields onExecution (mkSt c w)) as [[e|a] s' l].
Qed.

(** ** Validation in static mode *)

Lemma same_host_refl w : same_host w w.
Proof. by repeat split. Qed.

Lemma TranslateMonitorFields_static_host (I : World → Prop) :
  keeps (onHost I) (TranslateMonitorFields false) (λ _, onHost I).
Proof.
  unfold TranslateMonitorFields, TranslateMonitorFields_body,
    TranslateMonitorFieldsForHandler.
  keeps_host; try done.
Qed.

Lemma RuntimeConfig_Validate_static_host w0 sc :
  keeps (onHost (same_host w0)) (RuntimeConfig_Validate sc false)
    (λ _, onHost (same_host w0)).
Proof.
  unfold RuntimeConfig_Validate, cmdrunner_PrependCommandsWith.
  keeps_host; try done; try apply TranslateMonitorFields_static_host.
Qed.

Lemma Config_Validate_static_host w0 :
  keeps (onHost (same_host w0)) (Config_Validate false) (λ _, onHost (same_host w0)).
Proof.
  unfold Config_Validate, RootConfig_Validate, ImageConfig_Validate,
    NetworkConfig_Validate, APIConfig_Validate, NRI_Validate, selinux_SetDisabled.
  keeps_host; try done; try apply RuntimeConfig_Validate_static_host.
Qed.

(** ** The stop timeout *)

(** No method called by [RuntimeConfig.Validate] after the floor has been
    applied assigns [CtrStopTimeout]. *)
Lemma ValidateDefaultRuntime_CtrStopTimeout v :
  keeps (λ c, CtrStopTimeout c = v) ValidateDefaultRuntime (λ _ c, CtrStopTimeout c = v).
Proof. unfold ValidateDefaultRuntime. keeps_config; done. Qed.

Lemma TranslateMonitorFields_CtrStopTimeout onExecution v :
  keeps (onConfig (λ c, CtrStopTimeout c = v)) (TranslateMonitorFields onExecution)
    (λ _, onConfig (λ c, CtrStopTimeout c = v)).
Proof.
  unfold TranslateMonitorFields, TranslateMonitorFields_body,
    TranslateMonitorFieldsForHandler, ValidateConmonPath.
  destruct onExecution; keeps_config; try done; intros [c h]; done.
Qed.

Lemma ValidateRuntimes_CtrStopTimeout v :
  keeps (onConfig (λ c, CtrStopTimeout c = v)) ValidateRuntimes
    (λ _, onConfig (λ c, CtrStopTimeout c = v)).
Proof.
  assert (Hloop : ∀ names failed,
    triple (onConfig (λ c, CtrStopTimeout c = v)) (ValidateRuntimes_loop names failed)
      (λ _, onConfig (λ c, CtrStopTimeout c = v))
      (λ _, onConfig (λ c, CtrStopTimeout c = v))).
  { induction names as [|name names IH]; intros failedValidation; simpl.
    - by apply triple_ret.
    - fold (keeps (onConfig (λ c, CtrStopTimeout c = v))
              (ValidateRuntimes_loop names failedValidation)
              (λ _, onConfig (λ c, CtrStopTimeout c = v))) in IH.
      change (keeps (onConfig (λ c, CtrStopTimeout c = v))
                (err ← attempt (onHandler name (RuntimeHandler_Validate name));
                 match err with
                 | inl err =>
                     c ← gets cfg;
                     if decide (DefaultRuntime c = name) then throw err
                     else
                       logf WarnLevel "'%s is being ignored due to: %q" [name];;
                       ValidateRuntimes_loop names (failedValidation ++ [name])
                 | inr _ => ValidateRuntimes_loop names failedValidation
                 end)
                (λ _, onConfig (λ c, CtrStopTimeout c = v))).
      keeps_config; try done; apply IH. }
  unfold ValidateRuntimes, initializeRuntimeFeatures.
  keeps_config; try done. apply Hloop.
Qed.

Lemma RuntimeConfig_Validate_onExecution_CtrStopTimeout sc v :
  keeps (onConfig (λ c, CtrStopTimeout c = v)) (RuntimeConfig_Validate_onExecution sc)
    (λ _, onConfig (λ c, CtrStopTimeout c = v)).
Proof.
  unfold RuntimeConfig_Validate_onExecution.
  keeps_config; try done; try apply ValidateRuntimes_CtrStopTimeout.
Qed.

Lemma RuntimeConfig_Validate_CtrStopTimeout sc onExecution t :
  triple (onConfig (λ c, CtrStopTimeout c = t)) (RuntimeConfig_Validate sc onExecution)
    (λ _, onConfig (λ c, CtrStopTimeout c = Z.max t defaultCtrStopTimeout))
    (λ _, onConfig (λ c, CtrStopTimeout c = t
                         ∨ CtrStopTimeout c = Z.max t defaultCtrStopTimeout)).
Proof.
  pose (before := λ _ : error,
          onConfig (C:=RuntimeConfig) (λ c, CtrStopTimeout c = t)).
  pose (after := λ _ : error,
          onConfig (C:=RuntimeConfig)
            (λ c, CtrStopTimeout c = Z.max t defaultCtrStopTimeout)).
  unfold RuntimeConfig_Validate.
  do 5 (bind_keeps;
        [apply (keeps_weaken _ _ _ before); [solve [keeps_config; done]|by left]|]).
  bind_keeps.
  { apply (keeps_weaken _ _ _ before); [|by left].
    solve [keeps_config; try done; apply ValidateDefaultRuntime_CtrStopTimeout]. }
  unfold mbind, M_bind.
  eapply (triple_bind _ _ _ (λ c s, CtrStopTimeout (cfg s) = t ∧ cfg s = c));
    [by apply triple_gets|intros c].
  do 2 (bind_keeps;
        [apply (keeps_weaken _ _ _ (λ _ s, CtrStopTimeout (cfg s) = t ∧ cfg s = c));
         [solve [keeps_config; done]|by intros ? ? [? ?]; left]|]).
  eapply (triple_bind _ _ _
            (λ _, onConfig (λ c, CtrStopTimeout c = Z.max t defaultCtrStopTimeout))).
  { case_decide as Hlow.
    - unfold mbind, M_bind.
      apply (triple_bind _ _ _
               (λ _, onConfig (λ c, CtrStopTimeout c = Z.max t defaultCtrStopTimeout)));
        [|intros ?; by apply triple_logf].
      apply triple_modifyCfg. intros c0 w0 [Ht <-]. simpl in *.
      unfold defaultCtrStopTimeout in *. lia.
    - apply triple_ret. intros [c0 w0] [Ht <-]. simpl in *.
      unfold defaultCtrStopTimeout in *. lia. }
  intros _.
  do 4 (bind_keeps;
        [apply (keeps_weaken _ _ _ after); [solve [keeps_config; done]|by right]|]).
  bind_keeps.
  { apply (keeps_weaken _ _ _ after); [|by right].
    destruct onExecution; keeps_config.
    apply RuntimeConfig_Validate_onExecution_CtrStopTimeout. }
  apply (keeps_weaken _ _ _ after); [|by right].
  change (keeps (onConfig (λ c, CtrStopTimeout c = Z.max t defaultCtrStopTimeout))
            (wrap "monitor fields translation: %w" [] (TranslateMonitorFields onExecution))
            after).
  keeps_config. apply TranslateMonitorFields_CtrStopTimeout.
Qed.

Lemma RuntimeConfig_Validate_phases sc onExecution :
  RuntimeConfig_Validate sc onExecution
  = RuntimeConfig_Validate_first
      (λ c, RuntimeConfig_Validate_floor c;; RuntimeConfig_Validate_rest sc onExecution c).
Proof. reflexivity. Qed.

(** The time zone and log size checks, which end what comes before
    the floor, for the configuration [c1] and log [l] reached so far. *)
Ltac first_fails :=
  left; eexists _, _; split; [intros k v; exec; done|];
  split;
  [ let He := fresh in intros He; (discriminate He || assumption)
  | intros ([? ?] & [? ?] & Hrt' & Htz');
    first
      [ congruence
      | destruct Hrt' as [[? ?]|?]; congruence
      | match goal with
        | H : _ && _ = true |- _ =>
            let H1 := fresh in
            let H2 := fresh in
            apply andb_true_iff in H as [H1 H2]; apply bool_decide_eq_true in H1;
            destruct Htz' as [?|[Hfold|?]];
            [congruence | rewrite Hfold in H2; discriminate H2 | congruence]
        end ] ].

Ltac first_checked :=
  split; [by eexists|]; split; [by eexists|];
  split;
  [ first [left; by eexists | right; by apply dec_stable]
  | first
      [ right; right; done
      | match goal with
        | H : _ && _ = false |- _ =>
            apply andb_false_iff in H as [H|H];
            [ left; apply bool_decide_eq_false in H; by apply dec_stable
            | right; left; by apply negb_false_iff ]
        end ] ].

Ltac first_tail c0 w c1 l :=
  destruct (bool_decide (Timezone c0 ≠ "")
            && negb (strings_EqualFold (Timezone c0) "local")) eqn:?;
  [destruct (time_LoadLocation (Timezone c0) w) as [?|] eqn:?|];
  try first_fails;
  (destruct (decide (0 ≤ LogSizeMax c0 ∧ LogSizeMax c0 < OCIBufSize)%Z) as [?|?] eqn:?;
   [first_fails|]);
  right; exists c1, l;
  (split;
   [ intros k v; exec; destruct (k _ _) as [r s l']; simpl; by rewrite ?app_nil_r
   | split; [done|split; [first_checked|done]] ]).

(** What comes before the floor does not look at [CtrStopTimeout]: it
    fails or goes on in the same way whatever the value [v] of the field,
    and hands the configuration on with that value.  When it fails with
    the error of the [LogSizeMax] check the value is in the rejected range,
    and that is the error when the check is reached with such a value;
    when it goes on the value is not in that range and the four checks
    before have passed. *)
Lemma RuntimeConfig_Validate_first_outcome c0 w :
  (∃ e l,
     (∀ k v,
        out_res (RuntimeConfig_Validate_first k (mkSt (set_CtrStopTimeout v c0) w)) = inl e
        ∧ world (out_st (RuntimeConfig_Validate_first k (mkSt (set_CtrStopTimeout v c0) w))) = w
        ∧ out_log (RuntimeConfig_Validate_first k (mkSt (set_CtrStopTimeout v c0) w)) = l)
     ∧ (e = Errorf "log size max should be negative or >= %d" ["8192"] →
        (0 ≤ LogSizeMax c0 ∧ LogSizeMax c0 < OCIBufSize)%Z)
     ∧ (LogSizeMax_checked c0 w →
        e = Errorf "log size max should be negative or >= %d" ["8192"]))
  ∨ (∃ c1 l,
       (∀ k v,
          RuntimeConfig_Validate_first k (mkSt (set_CtrStopTimeout v c0) w)
          = match k (set_CtrStopTimeout v c1) (mkSt (set_CtrStopTimeout v c1) w) with
            | mkOut r s l' => mkOut r s (l ++ l')
            end)
       ∧ ¬ (0 ≤ LogSizeMax c0 ∧ LogSizeMax c0 < OCIBufSize)%Z
       ∧ LogSizeMax_checked c0 w
       ∧ InfraCtrCPUSet c1 = InfraCtrCPUSet c0).
Proof.
  unfold RuntimeConfig_Validate_first, ValidateDefaultRuntime.
  destruct (ulimits_LoadUlimits (DefaultUlimits c0) (ulimitsConfig c0)) as [f|u] eqn:Hu;
    [first_fails|].
  destruct (device_LoadDevices (AdditionalDevices c0) (deviceConfig c0)) as [f|d] eqn:Hd;
    [first_fails|].
  destruct (Runtimes c0 !! DefaultRuntime c0) as [h|] eqn:Hrt.
  { first_tail c0 w (set_deviceConfig d (set_ulimitsConfig u c0)) (@nil LogEntry). }
  destruct (decide (DefaultRuntime c0 ≠ "")) as [Hne|He] eqn:Hdec; [first_fails|].
  destruct (Runtimes c0 !! defaultRuntime) as [h|] eqn:Hbuiltin.
  - first_tail c0 w
      (set_DefaultRuntime defaultRuntime (set_deviceConfig d (set_ulimitsConfig u c0)))
      [mkLog DebugLevel "Defaulting to %q as the runtime since default_runtime is not set"
         [defaultRuntime]].
  - first_tail c0 w
      (set_DefaultRuntime defaultRuntime
         (set_Runtimes (<[defaultRuntime := defaultRuntimeHandler]> (Runtimes c0))
            (set_deviceConfig d (set_ulimitsConfig u c0))))
      [mkLog DebugLevel "Defaulting to %q as the runtime since default_runtime is not set"
         [defaultRuntime]].
Qed.

Lemma RuntimeConfig_Validate_below_floor sc onExecution c0 w t :
  (t < defaultCtrStopTimeout)%Z →
  let o := RuntimeConfig_Validate sc onExecution (mkSt (set_CtrStopTimeout t c0) w) in
  let o' := RuntimeConfig_Validate sc onExecution
              (mkSt (set_CtrStopTimeout defaultCtrStopTimeout c0) w) in
  out_res o = out_res o'
  ∧ world (out_st o) = world (out_st o')
  ∧ (succeeded o →
       out_st o = out_st o'
       ∧ mkLog WarnLevel "Forcing ctr_stop_timeout to lowest possible value of %ds" ["30"]
         ∈ out_log o).
Proof.
  intros Hlow o o'. subst o o'. rewrite RuntimeConfig_Validate_phases.
  destruct (RuntimeConfig_Validate_first_outcome c0 w) as [(e & l & H & _)|(c1 & l & H & _)].
  - destruct (H (λ c, RuntimeConfig_Validate_floor c;;
                      RuntimeConfig_Validate_rest sc onExecution c) t) as (Hr & Hw & _).
    destruct (H (λ c, RuntimeConfig_Validate_floor c;;
                      RuntimeConfig_Validate_rest sc onExecution c) defaultCtrStopTimeout)
      as (Hr' & Hw' & _).
    rewrite Hr', Hw, Hw'. split; [done|split; [done|]].
    intros [a Ha]. congruence.
  - rewrite !H. clear H.
    unfold RuntimeConfig_Validate_floor. simpl.
    rewrite decide_True by done.
    try rewrite decide_False by (unfold defaultCtrStopTimeout; lia).
    run.
    change (RuntimeConfig_Validate_rest sc onExecution (set_CtrStopTimeout t c1))
      with (RuntimeConfig_Validate_rest sc onExecution
              (set_CtrStopTimeout defaultCtrStopTimeout c1)).
    change (set_CtrStopTimeout defaultCtrStopTimeout (set_CtrStopTimeout t c1))
      with (set_CtrStopTimeout defaultCtrStopTimeout c1).
    destruct (RuntimeConfig_Validate_rest _ _ _ _) as [r s l']. simpl.
    split; [done|split; [done|]]. intros _. split; [done|].
    rewrite !elem_of_app, !elem_of_cons. tauto.
Qed.

(** C5.  [RuntimeConfig.Validate] never rejects a stop timeout below
    the floor of 30 seconds: run on a configuration with such a value, it
    returns what it returns when the field holds the floor itself, and acts
    on the host in the same way; when it succeeds the two runs leave the
    same configuration, whose [CtrStopTimeout] is exactly the floor, and the
    warning has been logged.  A value at or above the floor is left as it
    is, whatever validation returns. *)
Theorem RuntimeConfig_Validate_CtrStopTimeout_floor sc onExecution c w :
  let o := RuntimeConfig_Validate sc onExecution (mkSt c w) in
  let o' := RuntimeConfig_Validate sc onExecution
              (mkSt (set_CtrStopTimeout defaultCtrStopTimeout c) w) in
  ((CtrStopTimeout c < defaultCtrStopTimeout)%Z →
     out_res o = out_res o'
     ∧ world (out_st o) = world (out_st o')
     ∧ (succeeded o →
          out_st o = out_st o'
          ∧ CtrStopTimeout (cfg (out_st o)) = defaultCtrStopTimeout
          ∧ mkLog WarnLevel "Forcing ctr_stop_timeout to lowest possible value of %ds" ["30"]
            ∈ out_log o))
  ∧ ((defaultCtrStopTimeout ≤ CtrStopTimeout c)%Z →
       CtrStopTimeout (cfg (out_st o)) = CtrStopTimeout c).
Proof.
  intros o o'.
  pose proof (RuntimeConfig_Validate_CtrStopTimeout sc onExecution (CtrStopTimeout c)
                (mkSt c w) eq_refl) as Hmax.
  fold o in Hmax. simpl in Hmax.
  split.
  - intros Hlow.
    pose proof (RuntimeConfig_Validate_below_floor sc onExecution c w (CtrStopTimeout c) Hlow)
      as H.
    replace (set_CtrStopTimeout (CtrStopTimeout c) c) with c in H by (by destruct c).
    destruct H as (Hr & Hw & Hs). fold o o' in Hr, Hw, Hs.
    split; [done|split; [done|]]. intros Ho. destruct (Hs Ho) as [Hst Hlog].
    split; [done|split; [|done]].
    destruct Ho as [a Ha]. destruct o as [[e|a'] s l]; simpl in *; [done|lia].
  - intros Hhigh. destruct o as [[e|a'] s l]; simpl in *; lia.
Qed.

(** ** The size of log files *)

(** The loop over the hooks directories returns no error. *)
Lemma hooksDirs_loop_returns dirs hooksDirs :
  keeps (λ _, True) (hooksDirs_loop dirs hooksDirs) (λ _ _, False).
Proof.
  revert hooksDirs. induction dirs as [|hooksDir dirs IH]; intros hooksDirs; simpl.
  - by apply keeps_ret.
  - repeat first [apply keeps_attempt; by apply keeps_True | apply IH | keeps_step].
Qed.

(** What [RuntimeConfig.Validate] does after the check of [LogSizeMax]
    never returns the error of that check. *)
Lemma RuntimeConfig_Validate_rest_errors sc onExecution c :
  keeps (λ _, True)
    (RuntimeConfig_Validate_floor c;; RuntimeConfig_Validate_rest sc onExecution c)
    (λ e _, e ≠ Errorf "log size max should be negative or >= %d" ["8192"]).
Proof.
  unfold RuntimeConfig_Validate_floor, RuntimeConfig_Validate_rest,
    RuntimeConfig_Validate_onExecution, cmdrunner_PrependCommandsWith.
  destruct onExecution;
    repeat first
      [ apply keeps_wrap; apply keeps_True; intros; discriminate
      | apply keeps_attempt; by apply keeps_True
      | keeps_step
      | eapply keeps_onWorld with (J := λ _, True) (EJ := λ _ _, False);
        [first [apply hooksDirs_loop_returns | keeps_step]|done..] ];
    try done.
Qed.

Lemma RuntimeConfig_Validate_first_cases c w :
  (∃ e l,
     (∀ k, out_res (RuntimeConfig_Validate_first k (mkSt c w)) = inl e
           ∧ world (out_st (RuntimeConfig_Validate_first k (mkSt c w))) = w
           ∧ out_log (RuntimeConfig_Validate_first k (mkSt c w)) = l)
     ∧ (e = Errorf "log size max should be negative or >= %d" ["8192"] →
        (0 ≤ LogSizeMax c ∧ LogSizeMax c < OCIBufSize)%Z)
     ∧ (LogSizeMax_checked c w →
        e = Errorf "log size max should be negative or >= %d" ["8192"]))
  ∨ (∃ c1 l,
       (∀ k, RuntimeConfig_Validate_first k (mkSt c w)
             = match k c1 (mkSt c1 w) with
               | mkOut r s l' => mkOut r s (l ++ l')
               end)
       ∧ ¬ (0 ≤ LogSizeMax c ∧ LogSizeMax c < OCIBufSize)%Z
       ∧ LogSizeMax_checked c w
       ∧ InfraCtrCPUSet c1 = InfraCtrCPUSet c).
Proof.
  assert (Hc : set_CtrStopTimeout (CtrStopTimeout c) c = c) by (by destruct c).
  destruct (RuntimeConfig_Validate_first_outcome c w)
    as [(e & l & H & Hrange)|(c1 & l & H & Hout)].
  - left. exists e, l. split; [|done]. intros k.
    specialize (H k (CtrStopTimeout c)). by rewrite Hc in H.
  - right. exists (set_CtrStopTimeout (CtrStopTimeout c) c1), l. split; [|done]. intros k.
    specialize (H k (CtrStopTimeout c)). by rewrite Hc in H.
Qed.

(** C6.  [RuntimeConfig.Validate] returns the error of the
    [LogSizeMax] check only for a value that is non-negative and below
    8192; with such a value it fails, and the error is the one of that
    check whenever the check is reached.  So a negative value and a value
    of 8192 or more are never rejected. *)
Theorem RuntimeConfig_Validate_LogSizeMax sc onExecution c w :
  let o := RuntimeConfig_Validate sc onExecution (mkSt c w) in
  (LogSizeMax_rejected o → (0 ≤ LogSizeMax c ∧ LogSizeMax c < OCIBufSize)%Z)
  ∧ ((0 ≤ LogSizeMax c ∧ LogSizeMax c < OCIBufSize)%Z →
       failed o ∧ (LogSizeMax_checked c w → LogSizeMax_rejected o))
  ∧ ((LogSizeMax c < 0 ∨ OCIBufSize ≤ LogSizeMax c)%Z → ¬ LogSizeMax_rejected o).
Proof.
  intros o.
  assert (Hrejected : LogSizeMax_rejected o →
                      (0 ≤ LogSizeMax c ∧ LogSizeMax c < OCIBufSize)%Z).
  { subst o. unfold LogSizeMax_rejected. rewrite RuntimeConfig_Validate_phases.
    destruct (RuntimeConfig_Validate_first_cases c w)
      as [(e & l & H & Hrange & _)|(c1 & l & H & _)].
    - destruct (H (λ c, RuntimeConfig_Validate_floor c;;
                        RuntimeConfig_Validate_rest sc onExecution c)) as (-> & _).
      intros [= ->]. by apply Hrange.
    - rewrite H. cbv beta.
      pose proof (RuntimeConfig_Validate_rest_errors sc onExecution c1 (mkSt c1 w) I)
        as Hrest.
      destruct ((RuntimeConfig_Validate_floor c1 ≫= _) _) as [[e|a] s l'];
        simpl; [|done]. intros [= ->]. done. }
  split; [exact Hrejected|]. split; [|intros Hout Hr; apply Hrejected in Hr; lia].
  intros Hrange. subst o. unfold LogSizeMax_rejected, failed.
  rewrite RuntimeConfig_Validate_phases.
  destruct (RuntimeConfig_Validate_first_cases c w)
    as [(e & l & H & _ & Hchecked)|(c1 & l & _ & Hout & _)]; [|done].
  destruct (H (λ c, RuntimeConfig_Validate_floor c;;
                    RuntimeConfig_Validate_rest sc onExecution c)) as (-> & _).
  split; [by eexists|]. intros Hreached. by rewrite (Hchecked Hreached).
Qed.

(** ** What static validation asks of the host *)

Section Blind.
Context {C : Type}.
Implicit Types (P : C → Prop).

Lemma blind_ret {A} P (a : A) : host_blind P (ret a).
Proof. by intros c w w' HP. Qed.

Lemma blind_throw {A} P (e : error) : host_blind (A:=A) P (throw e).
Proof. by intros c w w' HP. Qed.

Lemma blind_logf P level format operands : host_blind P (logf level format operands).
Proof. by intros c w w' HP. Qed.

Lemma blind_gets {A} P (g : C → A) : host_blind P (gets (λ s, g (cfg s))).
Proof. by intros c w w' HP. Qed.

Lemma blind_modifyCfg P (f : C → C) :
  (∀ c, P c → P (f c)) → host_blind P (modifyCfg f).
Proof. intros Hf c w w' HP. simpl. repeat split; by try apply Hf. Qed.

Lemma blind_liftF {A} P (r : Failure + A) : host_blind P (liftF r).
Proof. intros c w w' HP. by destruct r. Qed.

Lemma blind_checkF P (r : option Failure) : host_blind P (checkF r).
Proof. intros c w w' HP. by destruct r. Qed.

Lemma blind_bind {A B} P (m : M (St C) A) (f : A → M (St C) B) :
  host_blind P m → (∀ a, host_blind P (f a)) → host_blind P (bind m f).
Proof.
  intros Hm Hf c w w' HP. unfold bind. specialize (Hm c w w' HP).
  destruct (m (mkSt c w)) as [r [c1 w1] l], (m (mkSt c w')) as [r' [c1' w1'] l'].
  simpl in Hm. destruct Hm as (<- & <- & <- & -> & -> & HP1).
  destruct r as [e|a]; [done|].
  specialize (Hf a c1 w w' HP1).
  destruct (f a (mkSt c1 w)) as [r2 s2 l2], (f a (mkSt c1 w')) as [r2' s2' l2'].
  destruct Hf as (<- & <- & Hf). done.
Qed.

(** The configuration read is the one the method was started on. *)
Lemma blind_bind_gets {B} P (f : C → M (St C) B) :
  (∀ c, P c → host_blind P (f c)) → host_blind P (bind (gets cfg) f).
Proof.
  intros Hf c w w' HP. unfold bind, gets. simpl. specialize (Hf c HP c w w' HP).
  by destruct (f c (mkSt c w)) as [r s l], (f c (mkSt c w')) as [r' s' l'].
Qed.

Lemma blind_wrap {A} P format operands (m : M (St C) A) :
  host_blind P m → host_blind P (wrap format operands m).
Proof.
  intros Hm c w w' HP. unfold wrap. specialize (Hm c w w' HP).
  destruct (m (mkSt c w)) as [r s l], (m (mkSt c w')) as [r' s' l'].
  destruct Hm as (<- & <- & Hm). by destruct r.
Qed.

Lemma blind_onCfg {A} P (m : M C A) :
  keeps P m (λ _, P) → host_blind P (onCfg m).
Proof.
  intros Hm c w w' HP. unfold onCfg, zoom. simpl. specialize (Hm c HP).
  by destruct (m c) as [[e|a] c' l].
Qed.

Lemma blind_for_range {A} P (l : list A) (body : A → M (St C) unit) :
  (∀ x, host_blind P (body x)) → host_blind P (for_range l body).
Proof.
  intros Hbody. induction l as [|x l IH]; simpl.
  - apply blind_ret.
  - apply blind_bind; [apply Hbody|by intros []].
Qed.

End Blind.

Lemma blind_withHandler (P : RuntimeConfig → Prop) name
    (m : M (St (RuntimeConfig * RuntimeHandler)) unit) :
  host_blind (λ ch, P ch.1) m →
  (∀ c handlers, P c → P (set_Runtimes handlers c)) →
  host_blind P (withHandler name m).
Proof.
  intros Hm HP c w w' Hc. unfold withHandler. simpl.
  destruct (Runtimes c !! name) as [h|]; [|done].
  specialize (Hm (c, h) w w' Hc).
  destruct (m (mkSt (c, h) w)) as [r [[c1 h1] w1] l],
           (m (mkSt (c, h) w')) as [r' [[c1' h1'] w1'] l'].
  simpl in *. destruct Hm as (<- & <- & [= <- <-] & -> & -> & HP1).
  repeat split; by try apply HP.
Qed.

(** One step of a proof that a method is blind to the host. *)
Ltac blind_step :=
  lazymatch goal with
  | |- host_blind _ (mbind _ _) => unfold mbind, M_bind
  | |- host_blind _ (mret _) => unfold mret, M_ret
  | |- host_blind _ (bind _ _) => apply blind_bind; [|intros ?]
  | |- host_blind _ (ret _) => apply blind_ret
  | |- host_blind _ (throw _) => apply blind_throw
  | |- host_blind _ (logf _ _ _) => apply blind_logf
  | |- host_blind _ (gets _) => apply blind_gets
  | |- host_blind _ (modifyCfg _) => apply blind_modifyCfg
  | |- host_blind _ (wrap _ _ _) => apply blind_wrap
  | |- host_blind _ (liftF _) => apply blind_liftF
  | |- host_blind _ (checkF _) => apply blind_checkF
  | |- host_blind _ (for_range _ _) => apply blind_for_range; intros ?
  | |- host_blind _ (withHandler _ _) => apply blind_withHandler
  | |- host_blind _ (match ?x with _ => _ end) => destruct x eqn:?
  end.

Lemma TranslateMonitorFields_static_blind (P : RuntimeConfig → Prop) :
  (∀ c handlers, P c → P (set_Runtimes handlers c)) →
  host_blind P (TranslateMonitorFields false).
Proof.
  intros HP.
  unfold TranslateMonitorFields, TranslateMonitorFields_body,
    TranslateMonitorFieldsForHandler.
  repeat blind_step; done.
Qed.

(** Without a time zone to look up and without CPU set for the infra
    containers, static validation of the runtime configuration neither
    looks at the host nor acts on it. *)
Lemma RuntimeConfig_Validate_static_blind sc :
  host_blind
    (λ c, (Timezone c = "" ∨ strings_EqualFold (Timezone c) "local" = true)
          ∧ InfraCtrCPUSet c = "")
    (RuntimeConfig_Validate sc false).
Proof.
  unfold RuntimeConfig_Validate.
  repeat first
    [ apply blind_bind_gets; intros ? [? ?]
    | apply TranslateMonitorFields_static_blind
    | apply blind_onCfg; unfold ValidateDefaultRuntime; repeat keeps_step
    | blind_step ];
    try done.
  - exfalso.
    match goal with
    | H : _ && _ = true |- _ =>
        apply andb_true_iff in H as [Hset Hfold]; apply bool_decide_eq_true in Hset
    end.
    match goal with
    | H : Timezone ?c = "" ∨ _, Hs : Timezone ?c ≠ "" |- _ =>
        destruct H as [Hempty|Hlocal]; [done|by rewrite Hlocal in Hfold]
    end.
  - unfold TranslateMonitorFieldsForHandler. repeat blind_step; done.
Qed.

(** Two lookups on the host are made in either mode, and validation
    fails when one of them fails. *)
Lemma RuntimeConfig_Validate_timezone sc onExecution c w err :
  Timezone c ≠ "" → strings_EqualFold (Timezone c) "local" = false →
  time_LoadLocation (Timezone c) w = Some err →
  failed (RuntimeConfig_Validate sc onExecution (mkSt c w)).
Proof.
  intros Hset Hfold Hload. rewrite RuntimeConfig_Validate_phases.
  destruct (RuntimeConfig_Validate_first_cases c w)
    as [(e & l & H & _)|(c1 & l & _ & _ & (_ & _ & _ & Htz) & _)].
  - exists e. apply H.
  - destruct Htz as [?|[?|?]]; congruence.
Qed.

Lemma RuntimeConfig_Validate_taskset sc onExecution c w err :
  InfraCtrCPUSet c ≠ "" → exec_LookPath tasksetBinary w = inl err →
  failed (RuntimeConfig_Validate sc onExecution (mkSt c w)).
Proof.
  intros Hset Hlook. rewrite RuntimeConfig_Validate_phases.
  destruct (RuntimeConfig_Validate_first_cases c w)
    as [(e & l & H & _)|(c1 & l & H & _ & _ & Hcpu)].
  - exists e. apply H.
  - rewrite H. cbv beta. rewrite <- Hcpu in Hset. clear H Hcpu.
    unfold RuntimeConfig_Validate_floor, RuntimeConfig_Validate_rest, failed.
    destruct (decide (CtrStopTimeout c1 < defaultCtrStopTimeout)%Z) eqn:?;
    destruct (RuntimeConfig_Sysctls (DefaultSysctls c1)) eqn:?;
    destruct (capabilities_Validate (DefaultCapabilities c1)) eqn:?;
    (destruct (decide (InfraCtrCPUSet c1 ≠ "")) eqn:?; [|done]);
    destruct (cpuset_Parse (InfraCtrCPUSet c1)) eqn:?;
    exec; by eexists.
Qed.

(** C7 (as amended).  Validation in static mode leaves the
    host as it is: no file or directory is created or removed and no
    command is run, both for the whole configuration and for the runtime
    configuration.  But the runtime configuration is validated against the
    host in two places, whatever the mode: a time zone other than the empty
    one and "local" must be known to the host, and with a CPU set for the
    infra containers [taskset] must be found in [$PATH]; validation fails
    when the host does not provide them.  With neither of the two fields
    set, the host plays no part: on any other host static validation
    returns the same result, leaves the same configuration and logs the
    same. *)
Theorem Validate_static_host (conf : Config) sc (c : RuntimeConfig) (w : World) :
  same_host w (world (out_st (Config_Validate false (mkSt conf w))))
  ∧ same_host w (world (out_st (RuntimeConfig_Validate sc false (mkSt c w))))
  ∧ (Timezone c ≠ "" → strings_EqualFold (Timezone c) "local" = false →
     Timezone c ≠ "UTC" → Timezone c ∉ zoneinfo w →
     failed (RuntimeConfig_Validate sc false (mkSt c w)))
  ∧ (InfraCtrCPUSet c ≠ "" → env_PATH w !! tasksetBinary = None →
     failed (RuntimeConfig_Validate sc false (mkSt c w)))
  ∧ (Timezone c = "" ∨ strings_EqualFold (Timezone c) "local" = true →
     InfraCtrCPUSet c = "" →
     ∀ w',
       let o := RuntimeConfig_Validate sc false (mkSt c w) in
       let o' := RuntimeConfig_Validate sc false (mkSt c w') in
       out_res o' = out_res o ∧ cfg (out_st o') = cfg (out_st o)
       ∧ out_log o' = out_log o ∧ world (out_st o') = w').
Proof.
  split; [|split; [|split; [|split]]].
  - pose proof (Config_Validate_static_host w (mkSt conf w) (same_host_refl w)) as H.
    by destruct (Config_Validate false (mkSt conf w)) as [[e|a] s l].
  - pose proof (RuntimeConfig_Validate_static_host w sc (mkSt c w) (same_host_refl w)) as H.
    by destruct (RuntimeConfig_Validate sc false (mkSt c w)) as [[e|a] s l].
  - intros Hset Hfold Hutc Hzone.
    apply (RuntimeConfig_Validate_timezone sc false c w
             (Errorf "unknown time zone %s" [Timezone c])); [done..|].
    unfold time_LoadLocation. rewrite decide_False; [done|tauto].
  - intros Hset Hpath.
    apply (RuntimeConfig_Validate_taskset sc false c w (LookPathError tasksetBinary));
      [done|]. unfold exec_LookPath. by rewrite Hpath.
  - intros Htz Hcpu w' o o'. subst o o'.
    pose proof (RuntimeConfig_Validate_static_blind sc c w w' (conj Htz Hcpu)) as H.
    destruct (RuntimeConfig_Validate sc false (mkSt c w)) as [r s l],
             (RuntimeConfig_Validate sc false (mkSt c w')) as [r' s' l'].
    simpl. destruct H as (-> & -> & -> & _ & -> & _). done.
Qed.

(* ===================================================================== *)
(** * Further properties of the merge engine *)
(* ===================================================================== *)

(** ** removeDupStorageOpts *)

Lemma keep_last_occurrences_fixed l : NoDup l → keep_last_occurrences l = l.
Proof.
  induction 1 as [|x l Hx Hnd IH]; simpl; [done|].
  rewrite decide_False by done. by rewrite IH.
Qed.

(** X1.  [removeDupStorageOpts] is idempotent, and the lists it leaves
    as they are are exactly the lists without repetition. *)
Theorem removeDupStorageOpts_idempotent (storageOpts : list string) :
  removeDupStorageOpts (removeDupStorageOpts storageOpts) = removeDupStorageOpts storageOpts
  ∧ (removeDupStorageOpts storageOpts = storageOpts ↔ NoDup storageOpts).
Proof.
  rewrite !removeDupStorageOpts_keep_last. split.
  - apply keep_last_occurrences_fixed, keep_last_occurrences_NoDup.
  - split; [|apply keep_last_occurrences_fixed].
    intros <-. apply keep_last_occurrences_NoDup.
Qed.

(** Removing duplicates early does not change what a later removal gives. *)
Lemma keep_last_occurrences_absorb a b :
  keep_last_occurrences (keep_last_occurrences a ++ b) = keep_last_occurrences (a ++ b).
Proof.
  rewrite !keep_last_occurrences_app.
  by rewrite (keep_last_occurrences_fixed _ (keep_last_occurrences_NoDup a)).
Qed.

(** ** Merging a fragment that decodes *)

(** What a fragment that is read and decoded leaves behind: [t] is the
    shadow structure as [toml.Decode] leaves it. *)
Lemma UpdateFromDropInFile_decoded_fields path data t c w :
  os_ReadFile path w = inr data →
  toml_Decode data (fromConfig c) = mkOut (inr tt) t [] →
  ∃ c',
    UpdateFromDropInFile path (mkSt c w)
    = mkOut (inr tt) (mkSt c' w)
        (if decide (0 < length (Registries (Crio_Image t)))
         then [mkLog WarnLevel
                 "Support for the 'registries' option has been dropped but it is referenced in %q.  Please use containers-registries.conf(5) for configuring unqualified-search registries instead."
                 [path]]
         else [])
    ∧ StorageOptions (rootConfig c')
      = removeDupStorageOpts
          (StorageOptions (rootConfig c) ++ StorageOptions (Crio_RootConfig t))
    ∧ rootConfig c'
      = (let r := Crio_RootConfig t in
         {| Root := if decide (Root r = "") then Root (rootConfig c) else Root r;
            RunRoot := if decide (RunRoot r = "") then RunRoot (rootConfig c) else RunRoot r;
            ImageStore := ImageStore r;
            Storage := if decide (Storage r = "") then Storage (rootConfig c) else Storage r;
            StorageOptions :=
              removeDupStorageOpts (StorageOptions (rootConfig c) ++ StorageOptions r);
            LogDir := LogDir r;
            VersionFile := VersionFile r;
            VersionFilePersist := VersionFilePersist r;
            CleanShutdownFile := CleanShutdownFile r;
            InternalWipe := InternalWipe r;
            InternalRepair := InternalRepair r |})
    ∧ Comment c' = "# "
    ∧ systemContext c'
      = set_sc_BigFilesTemporaryDir (BigFilesTemporaryDir (Crio_Image t)) (systemContext c)
    ∧ singleConfigPath c' = singleConfigPath c
    ∧ dropInConfigDir c' = dropInConfigDir c
    ∧ apiConfig c' = Crio_API t
    ∧ runtimeConfig c' = Crio_Runtime t
    ∧ imageConfig c' = set_Registries [] (Crio_Image t)
    ∧ networkConfig c' = Crio_Network t
    ∧ metricsConfig c' = Crio_Metrics t
    ∧ tracingConfig c' = Crio_Tracing t
    ∧ statsConfig c' = Crio_Stats t
    ∧ NRI c' = Crio_NRI t.
Proof.
  intros Hdata Hdec. unfold UpdateFromDropInFile.
  run. rewrite Hdata. run. rewrite Hdec. run.
  clear Hdata Hdec. simpl.
  destruct (decide (Root (Crio_RootConfig t) = "")) as [H1|H1]; simpl;
  destruct (decide (RunRoot (Crio_RootConfig t) = "")) as [H2|H2]; simpl;
  destruct (decide (Storage (Crio_RootConfig t) = "")) as [H3|H3]; simpl;
  destruct (decide (0 < length (Registries (Crio_Image t)))) as [H4|H4]; simpl;
  (eexists; split; [reflexivity|]); simpl;
  repeat split; try done;
  try (apply length_not_pos_nil in H4; destruct (Crio_Image t); simpl in *; by subst).
Qed.

Lemma UpdateFromDropInFile_parsed path data d c w :
  fs_data w !! path = Some data →
  toml_parse data = Some d →
  ∃ c',
    UpdateFromDropInFile path (mkSt c w)
    = mkOut (inr tt) (mkSt c' w)
        (if decide (0 < length (Registries (doc_image d (imageConfig c))))
         then [mkLog WarnLevel
                 "Support for the 'registries' option has been dropped but it is referenced in %q.  Please use containers-registries.conf(5) for configuring unqualified-search registries instead."
                 [path]]
         else [])
    ∧ StorageOptions (rootConfig c')
      = removeDupStorageOpts
          (StorageOptions (rootConfig c) ++ default [] (doc_storage_option d))
    ∧ rootConfig c'
      = (let r := rootConfig c in
         {| Root := if decide (default (Root r) (doc_root d) = "") then Root r
                    else default (Root r) (doc_root d);
            RunRoot := if decide (default (RunRoot r) (doc_runroot d) = "") then RunRoot r
                       else default (RunRoot r) (doc_runroot d);
            ImageStore := default (ImageStore r) (doc_imagestore d);
            Storage := if decide (default (Storage r) (doc_storage_driver d) = "")
                       then Storage r else default (Storage r) (doc_storage_driver d);
            StorageOptions :=
              removeDupStorageOpts
                (StorageOptions r ++ default (StorageOptions r) (doc_storage_option d));
            LogDir := default (LogDir r) (doc_log_dir d);
            VersionFile := default (VersionFile r) (doc_version_file d);
            VersionFilePersist := default (VersionFilePersist r) (doc_version_file_persist d);
            CleanShutdownFile := default (CleanShutdownFile r) (doc_clean_shutdown_file d);
            InternalWipe := default (InternalWipe r) (doc_internal_wipe d);
            InternalRepair := default (InternalRepair r) (doc_internal_repair d) |})
    ∧ Comment c' = "# "
    ∧ systemContext c'
      = set_sc_BigFilesTemporaryDir (BigFilesTemporaryDir (doc_image d (imageConfig c)))
          (systemContext c)
    ∧ singleConfigPath c' = singleConfigPath c
    ∧ dropInConfigDir c' = dropInConfigDir c
    ∧ apiConfig c' = doc_api d (apiConfig c)
    ∧ runtimeConfig c' = doc_runtime d (runtimeConfig c)
    ∧ imageConfig c' = set_Registries [] (doc_image d (imageConfig c))
    ∧ networkConfig c' = doc_network d (networkConfig c)
    ∧ metricsConfig c' = doc_metrics d (metricsConfig c)
    ∧ tracingConfig c' = doc_tracing d (tracingConfig c)
    ∧ statsConfig c' = doc_stats d (statsConfig c)
    ∧ NRI c' = doc_nri d (NRI c).
Proof.
  intros Hdata Hdoc.
  destruct (UpdateFromDropInFile_decoded_fields path data
              (out_st (toml_Decode data (fromConfig c))) c w)
    as (c' & Hrun & Hopts & Hrest).
  { by apply os_ReadFile_data. }
  { unfold toml_Decode. by rewrite Hdoc. }
  unfold toml_Decode in Hrun, Hopts, Hrest. rewrite Hdoc in Hrun, Hopts, Hrest.
  simpl in Hrun, Hopts, Hrest.
  exists c'. split; [exact Hrun|]. split; [|exact Hrest].
  rewrite Hopts, !removeDupStorageOpts_keep_last.
  destruct (doc_storage_option d); simpl; [done|].
  apply keep_last_occurrences_twice.
Qed.

(** X2.  Merging two fragments one after the other gives the storage
    driver options that removing duplicates from the three lists in a row
    gives: what the first merge removed makes no difference to the second. *)
Theorem UpdateFromDropInFile_twice_storage_options path1 data1 d1 path2 data2 d2 c w :
  fs_data w !! path1 = Some data1 → toml_parse data1 = Some d1 →
  fs_data w !! path2 = Some data2 → toml_parse data2 = Some d2 →
  let o1 := UpdateFromDropInFile path1 (mkSt c w) in
  let o2 := UpdateFromDropInFile path2 (out_st o1) in
  out_res o1 = inr tt ∧ out_res o2 = inr tt
  ∧ StorageOptions (rootConfig (cfg (out_st o2)))
    = removeDupStorageOpts
        (StorageOptions (rootConfig c) ++ default [] (doc_storage_option d1)
         ++ default [] (doc_storage_option d2)).
Proof.
  intros Hdata1 Hdoc1 Hdata2 Hdoc2 o1 o2.
  destruct (UpdateFromDropInFile_parsed path1 data1 d1 c w Hdata1 Hdoc1)
    as (c1 & Hrun1 & Hopts1 & _).
  destruct (UpdateFromDropInFile_parsed path2 data2 d2 c1 w Hdata2 Hdoc2)
    as (c2 & Hrun2 & Hopts2 & _).
  subst o2 o1. rewrite Hrun1. simpl. rewrite Hrun2. simpl.
  split; [done|]. split; [done|].
  rewrite Hopts2, Hopts1, !removeDupStorageOpts_keep_last, app_assoc.
  apply keep_last_occurrences_absorb.
Qed.

(** X3.  The [registries] option is a no-op: after a fragment has been
    merged the list is empty, whatever the configuration or the fragment
    held, and the merge logs its warning, naming the fragment, exactly when
    the list was not empty after decoding. *)
Theorem UpdateFromDropInFile_drops_registries path data d c w :
  fs_data w !! path = Some data → toml_parse data = Some d →
  let o := UpdateFromDropInFile path (mkSt c w) in
  let warning :=
    mkLog WarnLevel
      "Support for the 'registries' option has been dropped but it is referenced in %q.  Please use containers-registries.conf(5) for configuring unqualified-search registries instead."
      [path] in
  Registries (imageConfig (cfg (out_st o))) = []
  ∧ (Registries (doc_image d (imageConfig c)) ≠ [] → out_log o = [warning])
  ∧ (Registries (doc_image d (imageConfig c)) = [] → out_log o = []).
Proof.
  intros Hdata Hdoc o warning.
  destruct (UpdateFromDropInFile_parsed path data d c w Hdata Hdoc)
    as (c' & Hrun & _ & _ & _ & _ & _ & _ & _ & _ & Himage & _).
  subst o. rewrite Hrun. simpl. rewrite Himage.
  split; [by destruct (doc_image d (imageConfig c))|].
  destruct (Registries (doc_image d (imageConfig c))) as [|r rs]; simpl.
  - split; [done|]. intros _. by try rewrite decide_False by (simpl; lia).
  - split; [|done]. intros _. by try rewrite decide_True by (simpl; lia).
Qed.

(** X4.  A fragment without any key is no plain no-op: it leaves every
    table as it is, but the merge still normalises the storage driver
    options, empties the registries, resets the comment prefix and copies
    the directory for big files into the system context.  On a
    configuration that is normal in these respects it changes nothing. *)
Theorem UpdateFromDropInFile_empty_document path data c w :
  fs_data w !! path = Some data → toml_parse data = Some empty_Document →
  let o := UpdateFromDropInFile path (mkSt c w) in
  out_res o = inr tt
  ∧ world (out_st o) = w
  ∧ cfg (out_st o)
    = set_Comment "# "
        (set_systemContext
           (set_sc_BigFilesTemporaryDir (BigFilesTemporaryDir (imageConfig c))
              (systemContext c))
           (set_imageConfig (set_Registries [] (imageConfig c))
              (set_rootConfig
                 (set_StorageOptions (removeDupStorageOpts (StorageOptions (rootConfig c)))
                    (rootConfig c))
                 c)))
  ∧ (NoDup (StorageOptions (rootConfig c)) → Registries (imageConfig c) = [] →
     Comment c = "# " →
     sc_BigFilesTemporaryDir (systemContext c) = BigFilesTemporaryDir (imageConfig c) →
     cfg (out_st o) = c).
Proof.
  intros Hdata Hdoc o.
  assert (Hrun : ∃ l, o = mkOut (inr tt)
    (mkSt (set_Comment "# "
        (set_systemContext
           (set_sc_BigFilesTemporaryDir (BigFilesTemporaryDir (imageConfig c))
              (systemContext c))
           (set_imageConfig (set_Registries [] (imageConfig c))
              (set_rootConfig
                 (set_StorageOptions (removeDupStorageOpts (StorageOptions (rootConfig c)))
                    (rootConfig c))
                 c)))) w) l).
  { destruct (UpdateFromDropInFile_parsed path data empty_Document c w Hdata Hdoc)
      as (c' & Hrun & _ & Hroot & Hcomment & Hsc & Hsingle & Hdrop & Hapi & Hruntime
          & Himage & Hnetwork & Hmetrics & Htracing & Hstats & Hnri).
    subst o. rewrite Hrun. eexists. do 2 f_equal.
    simpl in *.
    destruct c' as [? ? ? rc' ? ? ? ? ? ? ? ? ?]. simpl in *. subst.
    destruct c as [? ? ? rc ? ? ic ? ? ? ? ? sc]. simpl.
    destruct rc; simpl. clear Hrun.
    rewrite !removeDupStorageOpts_keep_last, keep_last_occurrences_twice, app_nil_r.
    cbv [set_Comment set_systemContext set_imageConfig set_rootConfig set_StorageOptions].
    simpl. do 2 f_equal; by case_decide. }
  destruct Hrun as [l Hrun]. rewrite Hrun. simpl.
  split; [done|]. split; [done|]. split; [done|].
  intros Hnd Hreg Hcomment Hbig.
  destruct c as [? ? ? rc ? ? ic ? ? ? ? ? sc]. simpl in *.
  destruct rc, ic, sc; simpl in *. subst.
  by rewrite removeDupStorageOpts_keep_last, keep_last_occurrences_fixed.
Qed.

(** ** Path markers *)

(** X5.  [UpdateFromFile] returns what [UpdateFromDropInFile] returns
    and remembers the path as the single configuration file exactly when
    the merge succeeds; after a failure the marker is the one from before.
    Neither touches the marker of the drop-in directory, and
    [UpdateFromDropInFile] touches none of the two. *)
Theorem UpdateFromFile_records_path (path : string) (c : Config) (w : World) :
  let o := UpdateFromFile path (mkSt c w) in
  let o' := UpdateFromDropInFile path (mkSt c w) in
  out_res o = out_res o'
  ∧ (succeeded o → singleConfigPath (cfg (out_st o)) = path)
  ∧ (failed o → singleConfigPath (cfg (out_st o)) = singleConfigPath c)
  ∧ dropInConfigDir (cfg (out_st o)) = dropInConfigDir c
  ∧ singleConfigPath (cfg (out_st o')) = singleConfigPath c
  ∧ dropInConfigDir (cfg (out_st o')) = dropInConfigDir c.
Proof.
  intros o o'. subst o o'. unfold UpdateFromFile. run.
  destruct (UpdateFromDropInFile_outcome path c w)
    as [(e & c' & Hrun & _ & _ & Hsingle & Hdrop)|(c' & l & Hrun & Hsingle & Hdrop)];
    rewrite Hrun; simpl.
  - repeat split; try done. intros [a Ha]. done.
  - repeat split; try done. intros [e He]. done.
Qed.

(** ** Merging a directory *)

(** X6.  A drop-in directory that does not exist is no error:
    [UpdateFromPath] returns [nil] and leaves the configuration as it is,
    the marker of the drop-in directory included. *)
Theorem UpdateFromPath_absent (path : string) (c : Config) (w : World) :
  path ∉ fs_noaccess w → path ∉ fs_dirs w → path ∉ fs_files w →
  UpdateFromPath path (mkSt c w) = mkOut (inr tt) (mkSt c w) [].
Proof.
  intros Hno Hdir Hfile. unfold UpdateFromPath, os_Stat. run.
  rewrite decide_False by done. rewrite decide_False by tauto. reflexivity.
Qed.

(** X7.  When [UpdateFromPath] succeeds on a path that [os.Stat] finds
    (or cannot examine), the configuration is the one that merging the
    files met by the walk, in the order of the walk and directories left
    out, gives; the path is recorded as the drop-in directory and the
    environment is as before. *)
Theorem UpdateFromPath_success (path : string) (c : Config) (w : World) :
  (path ∈ fs_noaccess w ∨ path ∈ fs_dirs w ∨ path ∈ fs_files w) →
  out_res (UpdateFromPath path (mkSt c w)) = inr tt →
  out_st (UpdateFromPath path (mkSt c w))
  = mkSt (set_dropInConfigDir path
            (merge_fragments (walk_fragments (default [] (fs_walk w !! path))) c w)) w.
Proof.
  intros Hpath. unfold UpdateFromPath, filepath_Walk, os_Stat. run.
  assert ((match (if decide (path ∈ fs_noaccess w) then Some (PathError "stat" path EACCES)
                  else if decide (path ∈ fs_dirs w ∨ path ∈ fs_files w) then None
                       else Some (PathError "stat" path ENOENT))
           with Some err => os_IsNotExist err | None => false end) = false) as ->.
  { destruct (decide (path ∈ fs_noaccess w)); [done|].
    rewrite decide_True by tauto. done. }
  run.
  destruct (for_range _ _ (mkSt c w)) as [r s l] eqn:Hrest.
  destruct (walk_outcome _ _ _ _ _ _ Hrest)
    as [(-> & -> & ?)|(e' & before & it & after & Hitems & -> & ?)]; simpl; [done|].
  intros [=].
Qed.

(* ===================================================================== *)
(** * Further properties of the validators *)
(* ===================================================================== *)

(** ** The API configuration *)

(** X8.  [APIConfig.Validate] leaves both gRPC message sizes positive,
    whatever it returns: a size that is not positive becomes the default of
    80 MiB, a positive size is kept, and nothing else of the configuration
    changes.  In static mode it returns [nil] and leaves the environment
    alone; on execution its result and its effect on the environment are
    those of [RemoveUnusedSocket] on the listen path. *)
Theorem APIConfig_Validate_sizes (onExecution : bool) (c : APIConfig) (w : World) :
  let o := APIConfig_Validate onExecution (mkSt c w) in
  let c' := cfg (out_st o) in
  c' = set_GRPCMaxRecvMsgSize
         (if decide (GRPCMaxRecvMsgSize c ≤ 0)%Z then defaultGRPCMaxMsgSize
          else GRPCMaxRecvMsgSize c)
         (set_GRPCMaxSendMsgSize
            (if decide (GRPCMaxSendMsgSize c ≤ 0)%Z then defaultGRPCMaxMsgSize
             else GRPCMaxSendMsgSize c) c)
  ∧ (0 < GRPCMaxSendMsgSize c')%Z ∧ (0 < GRPCMaxRecvMsgSize c')%Z
  ∧ (if onExecution
     then out_res o = out_res (RemoveUnusedSocket (Listen c) w)
          ∧ world (out_st o) = out_st (RemoveUnusedSocket (Listen c) w)
     else out_res o = inr tt ∧ world (out_st o) = w ∧ out_log o = []).
Proof.
  intros o c'. subst c' o. unfold APIConfig_Validate. run.
  destruct c as [send recv listen ? ? ? ? ? ? ?]. simpl.
  destruct (decide (send ≤ 0)%Z) as [Hs|Hs], (decide (recv ≤ 0)%Z) as [Hr|Hr];
    run; simpl;
    (destruct onExecution; run; simpl;
     [destruct (RemoveUnusedSocket listen w) as [r w' l]; simpl|]);
    repeat split; try done; unfold defaultGRPCMaxMsgSize; lia.
Qed.

(** ** The root configuration *)

(** X9.  [RootConfig.Validate] does nothing in static mode.  On
    execution a log directory that is not an absolute path is rejected
    before anything is done on the host; a log directory that cannot be
    created is an error as well, and the store is not opened; a store that
    cannot be opened is an error; in these cases the configuration is as
    before.  When validation succeeds, the four storage fields are those of
    the store opened for the configuration and the other fields are as
    before. *)
Theorem RootConfig_Validate_spec (c : RootConfig) (w : World) :
  let o := RootConfig_Validate true (mkSt c w) in
  let mk := os_MkdirAll (LogDir c) w in
  RootConfig_Validate false (mkSt c w) = mkOut (inr tt) (mkSt c w) []
  ∧ (filepath_IsAbs (LogDir c) = false →
     o = mkOut (inl (Errorf "log_dir is not an absolute path" [])) (mkSt c w) [])
  ∧ (filepath_IsAbs (LogDir c) = true →
     ∀ e, out_res mk = inl e →
     o = mkOut (inl (Wrapf "invalid log_dir: %w" [] e)) (mkSt c (out_st mk)) (out_log mk))
  ∧ (filepath_IsAbs (LogDir c) = true → out_res mk = inr tt →
     match storage_GetStore c (out_st mk) with
     | (inl f, w') =>
         out_res o = inl (Wrapf "failed to get store to set defaults: %w" [] (Foreign f))
         ∧ out_st o = mkSt c w'
     | (inr store, w') =>
         out_res o = inr tt
         ∧ out_st o
           = mkSt (set_StorageOptions (store_GraphOptions store)
                     (set_Storage (store_GraphDriverName store)
                        (set_Root (store_GraphRoot store)
                           (set_RunRoot (store_RunRoot store) c)))) w'
     end).
Proof.
  intros o mk. subst o mk. split; [done|]. unfold RootConfig_Validate. run.
  destruct (filepath_IsAbs (LogDir c)) eqn:Habs; run; simpl.
  2: { split; [done|]. split; done. }
  split; [done|].
  destruct (os_MkdirAll (LogDir c) w) as [[e|[]] w1 l1]; simpl.
  - split; [|done]. intros _ e' [= ->]. done.
  - split; [done|]. intros _ _. unfold call.
    destruct (storage_GetStore c w1) as [[f|store] w2]; simpl; done.
Qed.

(** ** The image configuration *)

(** X10.  [ImageConfig.Validate] never changes the configuration.  A
    signature policy directory that is not an absolute path is rejected in
    either mode, before the pause image is looked at; then a pause image
    that does not parse is rejected.  In static mode nothing else is
    checked and the environment is left alone; on execution the directory
    is created. *)
Theorem ImageConfig_Validate_spec (onExecution : bool) (c : ImageConfig) (w : World) :
  let o := ImageConfig_Validate onExecution (mkSt c w) in
  cfg (out_st o) = c
  ∧ (filepath_IsAbs (SignaturePolicyDir c) = false →
     o = mkOut (inl (Errorf "signature policy dir %q is not absolute" [SignaturePolicyDir c]))
           (mkSt c w) [])
  ∧ (filepath_IsAbs (SignaturePolicyDir c) = true →
     match references_ParseRegistryImageReferenceFromOutOfProcessData (PauseImage c) with
     | Some f =>
         o = mkOut (inl (Wrapf "invalid pause image %q: %w" [PauseImage c] (Foreign f)))
               (mkSt c w) []
     | None =>
         if onExecution then
           world (out_st o) = out_st (os_MkdirAll (SignaturePolicyDir c) w)
           ∧ (succeeded o ↔ succeeded (os_MkdirAll (SignaturePolicyDir c) w))
           ∧ (succeeded o → SignaturePolicyDir c ∈ fs_dirs (world (out_st o)))
         else o = mkOut (inr tt) (mkSt c w) []
     end).
Proof.
  intros o. subst o. unfold ImageConfig_Validate. run.
  destruct (filepath_IsAbs (SignaturePolicyDir c)) eqn:Habs; run; simpl; [|done].
  destruct (references_ParseRegistryImageReferenceFromOutOfProcessData (PauseImage c))
    as [f|] eqn:Hparse; run; simpl; [done|].
  destruct onExecution; run; simpl; [|done].
  unfold os_MkdirAll, succeeded.
  destruct (os_MkdirAll_from_outcome (String.length (SignaturePolicyDir c))
              (SignaturePolicyDir c) w) as (_ & _ & Hmade & _).
  unfold succeeded in Hmade.
  destruct (os_MkdirAll_from _ (SignaturePolicyDir c) w) as [[e|[]] w1 l1]; simpl in *;
    repeat split; try done; try (intros [a Ha]; done); try (by eexists);
    try (intros _; apply Hmade; by eexists).
Qed.

(** ** The network configuration *)

(** A fact that does not depend on the state can be taken out of the
    precondition. *)
Lemma triple_pure {S A} (P : S → Prop) (φ : Prop) (m : M S A) Q E :
  (φ → triple P m Q E) → triple (λ s, P s ∧ φ) m Q E.
Proof. intros H s [Hs Hφ]. by apply H. Qed.

(** The directories are created without a look at the configuration. *)
Lemma NetworkConfig_Validate_cfg (c : NetworkConfig) :
  triple (λ s, cfg s = c) (NetworkConfig_Validate true)
    (λ _ s, ∃ m,
       cfg s = set_cniManager (Some m)
                 (if decide (PluginDir c ≠ "")
                  then set_PluginDir "" (set_PluginDirs (PluginDirs c ++ [PluginDir c]) c)
                  else c))
    (λ _ s, cniManager (cfg s) = cniManager c).
Proof.
  unfold NetworkConfig_Validate, mbind, M_bind.
  eapply (triple_bind _ _ _ (λ c0 s, cfg s = c ∧ c0 = c)); [by apply triple_gets|].
  intros c0. apply triple_pure. intros ->.
  set (c1 := if decide (PluginDir c ≠ "")
             then set_PluginDir "" (set_PluginDirs (PluginDirs c ++ [PluginDir c]) c)
             else c).
  assert (Hmgr : cniManager c1 = cniManager c) by (subst c1; by case_decide).
  assert (Hhost : ∀ (I : St NetworkConfig → Prop) A (m : M World A),
            (I = (λ s, cfg s = c) ∨ I = (λ s, cfg s = c1)) →
            keeps I (onWorld m) (λ _ s, cniManager (cfg s) = cniManager c)).
  { intros I A m HI. apply keeps_onWorld_any.
    - intros c2 w w'. by destruct HI as [-> | ->].
    - intros e c2 w w'. destruct HI as [-> | ->]; simpl; intros H; simpl in H;
        by rewrite H. }
  bind_keeps; [by apply keeps_readWorld|].
  bind_keeps.
  { repeat first [apply Hhost; by left | keeps_step]. by intros s ->. }
  bind_keeps.
  { repeat first [apply Hhost; by left | keeps_step]. }
  apply (triple_bind _ _ _ (λ _ s, cfg s = c1)).
  { subst c1. case_decide.
    - bind_keeps; [by apply keeps_logf|].
      bind_keeps; [repeat first [apply Hhost; by left | keeps_step]|].
      unfold mbind, M_bind.
      apply (triple_bind _ _ _
               (λ _ s, cfg s = set_PluginDirs (PluginDirs c ++ [PluginDir c]) c)).
      + apply triple_modifyCfg. intros c2 w Hc2. simpl in *. by subst.
      + intros _. apply triple_modifyCfg. intros c2 w Hc2. simpl in *. by subst.
    - by apply triple_ret. }
  intros _.
  apply (triple_bind _ _ _ (λ c2 s, cfg s = c1 ∧ c2 = c1)); [by apply triple_gets|].
  intros c2. apply triple_pure. intros ->.
  apply (triple_bind _ _ _ (λ _ s, cfg s = c1)).
  { change (keeps (λ s : St NetworkConfig, cfg s = c1)
              (wrap "initialize CNI plugin: %w" []
                 (onWorld (call (cnimgr_New (CNIDefaultNetwork c1) (NetworkDir c1)
                                   (PluginDirs c1)))))
              (λ _ s, cniManager (cfg s) = cniManager c)).
    repeat first [apply Hhost; by right | keeps_step]. }
  intros m. apply triple_modifyCfg. intros c2 w Hc2. simpl in *. subst c2. by exists m.
Qed.

(** X11.  [NetworkConfig.Validate] does nothing in static mode.  When
    it succeeds on execution, the deprecated [PluginDir] has been moved to
    the end of [PluginDirs] and emptied, a CNI manager is stored, and the
    other fields are as before; when it fails, no CNI manager has been
    stored. *)
Theorem NetworkConfig_Validate_spec (c : NetworkConfig) (w : World) :
  let o := NetworkConfig_Validate true (mkSt c w) in
  let c' := cfg (out_st o) in
  NetworkConfig_Validate false (mkSt c w) = mkOut (inr tt) (mkSt c w) []
  ∧ (succeeded o →
     PluginDir c' = ""
     ∧ PluginDirs c'
       = PluginDirs c ++ (if decide (PluginDir c ≠ "") then [PluginDir c] else [])
     ∧ is_Some (cniManager c')
     ∧ NetworkDir c' = NetworkDir c
     ∧ CNIDefaultNetwork c' = CNIDefaultNetwork c)
  ∧ (failed o → cniManager c' = cniManager c).
Proof.
  intros o c'. split; [done|].
  pose proof (NetworkConfig_Validate_cfg c (mkSt c w) eq_refl) as H.
  fold o in H. subst c'. destruct o as [[e|[]] s l]; simpl in *.
  - split; [by intros [a Ha]|done].
  - split; [|by intros [e He]]. intros _. destruct H as [m ->].
    destruct (decide (PluginDir c ≠ "")) as [Hdir|Hdir]; simpl; rewrite ?app_nil_r;
      repeat split; try done; try (by eexists).
    by apply dec_stable in Hdir.
Qed.


(** ** The whole configuration *)

Lemma keeps_returns {S A} (m : M S A) (E : error → S → Prop) :
  (∀ s, succeeded (m s)) → keeps (λ _, True) m E.
Proof. intros H s _. destruct (H s) as [a Ha]. by destruct (m s) as [[e|a'] s' l]. Qed.

(** X12.  [Config.Validate] rejects an image volume type it does not
    know before it does anything else, in either mode: configuration and
    environment are untouched.  In static mode the root, network and API
    configurations are never the reason of a failure: an error is the one
    of the image volume type, or comes from the runtime, the image or the
    NRI configuration and is wrapped accordingly. *)
Theorem Config_Validate_static_errors (c : Config) (w : World) :
  (∀ onExecution token,
     ImageVolumes (imageConfig c) = ImageVolumesOther token →
     Config_Validate onExecution (mkSt c w)
     = mkOut (inl (Errorf "unrecognized image volume type specified" [])) (mkSt c w) [])
  ∧ (∀ e, out_res (Config_Validate false (mkSt c w)) = inl e →
       e = Errorf "unrecognized image volume type specified" []
       ∨ (∃ e', e = Wrapf "validating runtime config: %w" [] e')
       ∨ (∃ e', e = Wrapf "validating image config: %w" [] e')
       ∨ (∃ e', e = Wrapf "validating NRI config: %w" [] e')).
Proof.
  split.
  - intros onExecution token Hvol. unfold Config_Validate. run. by rewrite Hvol.
  - assert (H : keeps (λ _, True) (Config_Validate false)
                  (λ e _, e = Errorf "unrecognized image volume type specified" []
                          ∨ (∃ e', e = Wrapf "validating runtime config: %w" [] e')
                          ∨ (∃ e', e = Wrapf "validating image config: %w" [] e')
                          ∨ (∃ e', e = Wrapf "validating NRI config: %w" [] e'))).
    { unfold Config_Validate.
      repeat first
        [ apply keeps_wrap; apply keeps_True; intros; simpl; by eauto 6
        | apply keeps_wrap; apply keeps_returns; intros [c0 w0];
          unfold onField, zoom, RootConfig_Validate, NetworkConfig_Validate,
            APIConfig_Validate; run; simpl; repeat case_decide; run; by eexists
        | apply keeps_returns; intros [c0 w0]; unfold onWorld, zoom, selinux_SetDisabled;
          run; by eexists
        | keeps_step ]; try done; try (intros; by left). }
    intros e He. specialize (H (mkSt c w) I).
    destruct (Config_Validate false (mkSt c w)) as [[e'|a] s l]; simpl in *; [|done].
    by injection He as <-.
Qed.

(** ** Runtime handlers *)

(** The loop over the allow-list gets through exactly when no entry is
    missing from the map at its turn. *)
Lemma validateAllowed_loop_inv allowed m m' :
  validateAllowed_loop allowed m = inr m' →
  NoDup allowed ∧ (∀ a, a ∈ allowed → a ∈ m) ∧ m' = m ∖ list_to_set allowed.
Proof.
  revert m. induction allowed as [|a allowed IH]; intros m; simpl.
  - intros [= <-]. split; [constructor|]. split; [by intros a Ha%elem_of_nil|set_solver].
  - destruct (decide (a ∈ m)) as [Ha|Ha]; [|done].
    intros (Hnd & Hin & ->)%IH. split; [|split].
    + constructor; [|done]. intros Hin'. apply Hin in Hin'. set_solver.
    + intros b [->|Hb]%elem_of_cons; [done|]. apply Hin in Hb. set_solver.
    + set_solver.
Qed.

(** The first entry at which the loop stops is named in the error. *)
Lemma validateAllowed_loop_error allowed m e :
  validateAllowed_loop allowed m = inl e →
  ∃ before a after,
    allowed = before ++ a :: after
    ∧ e = Errorf "invalid allowed_annotation: %s" [a]
    ∧ (a ∉ m ∨ a ∈ before)
    ∧ NoDup before ∧ ∀ b, b ∈ before → b ∈ m.
Proof.
  revert m. induction allowed as [|a allowed IH]; intros m; simpl; [done|].
  destruct (decide (a ∈ m)) as [Ha|Ha].
  - intros (before & b & after & -> & -> & Hb & Hnd & Hin)%IH.
    exists (a :: before), b, after. split; [done|]. split; [done|].
    split; [|split].
    + destruct Hb as [Hb|Hb]; [|right; by right].
      destruct (decide (b = a)) as [->|Hne]; [right; by left|left; set_solver].
    + constructor; [|done]. intros Hin'. apply Hin in Hin'. set_solver.
    + intros x [->|Hx]%elem_of_cons; [done|]. apply Hin in Hx. set_solver.
  - intros [= <-]. exists [], a, allowed. split; [done|]. split; [done|].
    split; [by left|]. split; [constructor|]. by intros b Hb%elem_of_nil.
Qed.

(** X13.  [validateAllowedAndGenerateDisallowedAnnotations] succeeds
    exactly on the allow-lists that name recognized annotations only and no
    annotation twice; the result then lists the recognized annotations that
    the allow-list does not name (all of them for the empty allow-list).
    An error names an entry that is not recognized or has occurred before,
    the first such entry of the list. *)
Theorem validateAllowedAndGenerateDisallowedAnnotations_iff (allowed : list string) :
  let U : gset string := list_to_set annotations_AllAllowedAnnotations in
  let r := validateAllowedAndGenerateDisallowedAnnotations allowed in
  ((∃ disallowed, r = inr disallowed) ↔ NoDup allowed ∧ ∀ a, a ∈ allowed → a ∈ U)
  ∧ (∀ disallowed, r = inr disallowed →
       disallowed = range_order (elements (U ∖ list_to_set allowed)))
  ∧ (∀ e, r = inl e →
       ∃ before a after,
         allowed = before ++ a :: after
         ∧ e = Errorf "invalid allowed_annotation: %s" [a]
         ∧ (a ∉ U ∨ a ∈ before)
         ∧ NoDup before ∧ ∀ b, b ∈ before → b ∈ U).
Proof.
  intros U r. subst r. unfold validateAllowedAndGenerateDisallowedAnnotations.
  fold U. destruct (validateAllowed_loop allowed U) as [e|m] eqn:Hloop.
  - split; [|split; [done|]].
    + split; [by intros [d Hd]|]. intros [Hnd Hin].
      by rewrite (validateAllowed_loop_ok allowed U Hnd Hin) in Hloop.
    + intros e' [= <-]. by apply validateAllowed_loop_error.
  - apply validateAllowed_loop_inv in Hloop as (Hnd & Hin & ->).
    split; [|split; [|done]].
    + split; [done|]. intros _. by eexists.
    + by intros d [= <-].
Qed.

(** X14.  [RuntimeHandler.ValidateRuntimeConfigPath]: no configuration
    path is always fine; a configuration path on a handler that is not of
    type "vm" is an error whatever the host holds; on a "vm" handler the
    path is rejected when it does not exist, and accepted when it exists
    and also when it cannot be examined.  Handler and environment are never
    changed. *)
Theorem ValidateRuntimeConfigPath_spec (name : string) (r : RuntimeHandler) (w : World) :
  let o := ValidateRuntimeConfigPath name (mkSt r w) in
  out_st o = mkSt r w
  ∧ (RuntimeConfigPath r = "" → out_res o = inr tt)
  ∧ (RuntimeConfigPath r ≠ "" → RuntimeType r ≠ RuntimeTypeVM →
     out_res o
     = inl (Errorf "runtime_config_path can only be used with the 'vm' runtime type" []))
  ∧ (RuntimeConfigPath r ≠ "" → RuntimeType r = RuntimeTypeVM →
     if decide (RuntimeConfigPath r ∈ fs_noaccess w) then out_res o = inr tt
     else if decide (RuntimeConfigPath r ∈ fs_dirs w ∨ RuntimeConfigPath r ∈ fs_files w)
     then out_res o = inr tt
     else out_res o
          = inl (Errorf "invalid runtime_config_path for runtime '%s': %q"
                   [name; RuntimeConfigPath r])).
Proof.
  intros o. subst o. unfold ValidateRuntimeConfigPath, os_Stat. run.
  destruct (decide (RuntimeConfigPath r = "")) as [He|He]; run; [done|].
  destruct (decide (RuntimeType r ≠ RuntimeTypeVM)) as [Hv|Hv]; run; [done|].
  destruct (decide (RuntimeConfigPath r ∈ fs_noaccess w)); run; [done|].
  destruct (decide (RuntimeConfigPath r ∈ fs_dirs w ∨ RuntimeConfigPath r ∈ fs_files w));
    run; done.
Qed.

Lemma ValidateRuntimePath_outcome name r w :
  world (out_st (ValidateRuntimePath name (mkSt r w))) = w
  ∧ (succeeded (ValidateRuntimePath name (mkSt r w)) →
     ∃ path,
       cfg (out_st (ValidateRuntimePath name (mkSt r w))) = set_RuntimePath path r
       ∧ ValidateRuntimeVMBinaryPattern (set_RuntimePath path r) = true
       ∧ (RuntimePath r ≠ "" → path = RuntimePath r)
       ∧ (RuntimePath r = "" → exec_LookPath name w = inr path)).
Proof.
  assert (Heta : set_RuntimePath (RuntimePath r) r = r) by (by destruct r).
  unfold ValidateRuntimePath, succeeded. run.
  destruct (decide (RuntimePath r = "")) as [He|He]; run.
  - destruct (exec_LookPath name w) as [err|path] eqn:Hlook; run; simpl.
    { split; [done|]. by intros [a Ha]. }
    destruct (ValidateRuntimeVMBinaryPattern (set_RuntimePath path r)) eqn:Hvm; run; simpl.
    + split; [done|]. intros _. by exists path.
    + split; [done|]. by intros [a Ha].
  - destruct (os_Stat (RuntimePath r) w) as [err|] eqn:Hstat; run;
      [destruct (os_IsNotExist err) eqn:Hne; run|];
      simpl; try (split; [done|]; by intros [a Ha]);
      (destruct (ValidateRuntimeVMBinaryPattern r) eqn:Hvm; run; simpl;
       [split; [done|]; intros _; exists (RuntimePath r); by rewrite Heta
       |split; [done|]; by intros [a Ha]]).
Qed.

(** X15.  [RuntimeHandler.Validate] never acts on the environment, and
    a handler that it accepts is well formed: its type is one of the four
    known ones; a configuration path goes with type "vm" only; the binary
    of a "vm" handler follows the naming pattern; the allow-list names
    recognized annotations, each once, and [DisallowedAnnotations] lists the
    other recognized ones; a runtime path that was given is kept, a missing
    one is the executable of that name in [$PATH]; nothing else of the
    handler has changed. *)
Theorem RuntimeHandler_Validate_success (name : string) (r : RuntimeHandler) (w : World) :
  let o := RuntimeHandler_Validate name (mkSt r w) in
  let r' := cfg (out_st o) in
  let U : gset string := list_to_set annotations_AllAllowedAnnotations in
  world (out_st o) = w
  ∧ (succeeded o →
     (RuntimeType r' = "" ∨ RuntimeType r' = DefaultRuntimeType
      ∨ RuntimeType r' = RuntimeTypeVM ∨ RuntimeType r' = RuntimeTypePod)
     ∧ (RuntimeConfigPath r' ≠ "" → RuntimeType r' = RuntimeTypeVM)
     ∧ ValidateRuntimeVMBinaryPattern r' = true
     ∧ NoDup (AllowedAnnotations r')
     ∧ (∀ a, a ∈ AllowedAnnotations r' → a ∈ U)
     ∧ DisallowedAnnotations r'
       = range_order (elements (U ∖ list_to_set (AllowedAnnotations r')))
     ∧ (RuntimePath r ≠ "" → RuntimePath r' = RuntimePath r)
     ∧ (RuntimePath r = "" → exec_LookPath name w = inr (RuntimePath r'))
     ∧ r' = set_DisallowedAnnotations (DisallowedAnnotations r')
              (set_RuntimePath (RuntimePath r') r)).
Proof.
  intros o r' U. subst r' o. unfold RuntimeHandler_Validate. unfold_monad.
  destruct (ValidateRuntimePath_outcome name r w) as [Hw1 Hs1].
  destruct (ValidateRuntimePath name (mkSt r w)) as [[e1|[]] [r1 w1] l1]; simpl in *.
  { split; [done|]. by intros [a Ha]. }
  subst w1. destruct Hs1 as (path & -> & Hvm & Hgiven & Hlook); [by eexists|].
  unfold ValidateRuntimeConfigPath, ValidateRuntimeAllowedAnnotations, ValidateRuntimeType,
    validateAllowedAndGenerateDisallowedAnnotations, succeeded.
  fold U. run. simpl.
  destruct (decide (RuntimeConfigPath r = "")) as [Hc|Hc]; run; simpl;
    [|destruct (decide (RuntimeType r ≠ RuntimeTypeVM)) as [Hv|Hv]; run; simpl;
      [split; [done|]; by intros [a Ha]|];
      destruct (os_Stat (RuntimeConfigPath r) w) as [err|]; run; simpl;
      [destruct (os_IsNotExist err); run; simpl;
       [split; [done|]; by intros [a Ha]|]|]];
    (destruct (validateAllowed_loop (AllowedAnnotations r) U) as [e|m] eqn:Hloop;
     run; simpl; [split; [done|]; by intros [a Ha]|]);
    apply validateAllowed_loop_inv in Hloop as (Hnd & Hin & ->);
    (destruct (decide (RuntimeType r ≠ "" ∧ RuntimeType r ≠ DefaultRuntimeType
                       ∧ RuntimeType r ≠ RuntimeTypeVM ∧ RuntimeType r ≠ RuntimeTypePod))
       as [Ht|Ht]; run; simpl; [split; [done|]; by intros [a Ha]|]);
    (split; [done|]); intros _;
    (split; [destruct (decide (RuntimeType r = "")); [tauto|];
             destruct (decide (RuntimeType r = DefaultRuntimeType)); [tauto|];
             destruct (decide (RuntimeType r = RuntimeTypeVM)); [tauto|];
             destruct (decide (RuntimeType r = RuntimeTypePod)); tauto|]);
    (split; [try done; intros _; by apply dec_stable|]);
    repeat split; try done.
Qed.

(** ** The table of runtime handlers *)

Lemma RuntimeHandler_Validate_host (I : World → Prop) name :
  keeps (onHost I) (RuntimeHandler_Validate name) (λ _, onHost I).
Proof.
  unfold RuntimeHandler_Validate, ValidateRuntimePath, ValidateRuntimeConfigPath,
    ValidateRuntimeAllowedAnnotations, ValidateRuntimeType.
  keeps_host; done.
Qed.

(** The visit of one handler by [ValidateRuntimes]. *)
Lemma ValidateRuntimes_visit name c w :
  let o := onHandler name (RuntimeHandler_Validate name) (mkSt c w) in
  (∀ n, n ≠ name → Runtimes (cfg (out_st o)) !! n = Runtimes c !! n)
  ∧ dom (Runtimes (cfg (out_st o))) = dom (Runtimes c)
  ∧ DefaultRuntime (cfg (out_st o)) = DefaultRuntime c
  ∧ world (out_st o) = w
  ∧ (failed o ↔ fails_validation c w name).
Proof.
  unfold onHandler, failed, fails_validation. simpl.
  destruct (Runtimes c !! name) as [h|] eqn:Hh; simpl.
  - pose proof (RuntimeHandler_Validate_host (λ w', w' = w) name (mkSt h w) eq_refl) as Hw.
    destruct (RuntimeHandler_Validate name (mkSt h w)) as [[e|a] [h' w'] l] eqn:Hrun;
      simpl in *;
      (split; [by intros n Hn; apply lookup_insert_ne|]);
      (split; [by apply dom_insert_lookup_L|]); (split; [done|]); (split; [done|]).
    + split; [|by eexists]. intros _. exists h. split; [done|]. unfold failed.
      rewrite Hrun. by eexists.
    + split; [by intros [e He]|]. intros (h0 & [= <-] & e & He). by rewrite Hrun in He.
  - do 4 (split; [done|]). split; [by intros [e He]|]. by intros (h & Hh' & _).
Qed.

Lemma fails_validation_ext c c' w name :
  Runtimes c' !! name = Runtimes c !! name →
  fails_validation c' w name ↔ fails_validation c w name.
Proof. unfold fails_validation. by intros ->. Qed.

(** The first loop of [ValidateRuntimes]: the handlers that fail are
    collected, unless the default runtime is among them. *)
Lemma ValidateRuntimes_loop_spec names failedValidation c w :
  NoDup names →
  let o := ValidateRuntimes_loop names failedValidation (mkSt c w) in
  (∀ n, n ∉ names → Runtimes (cfg (out_st o)) !! n = Runtimes c !! n)
  ∧ dom (Runtimes (cfg (out_st o))) = dom (Runtimes c)
  ∧ DefaultRuntime (cfg (out_st o)) = DefaultRuntime c
  ∧ world (out_st o) = w
  ∧ match out_res o with
    | inr failed' =>
        ∃ extra, failed' = failedValidation ++ extra
                 ∧ DefaultRuntime c ∉ extra
                 ∧ ∀ x, x ∈ extra ↔ x ∈ names ∧ fails_validation c w x
    | inl _ => DefaultRuntime c ∈ names ∧ fails_validation c w (DefaultRuntime c)
    end.
Proof.
  intros Hnd. revert failedValidation c.
  induction Hnd as [|name names Hname Hnd IH]; intros failedValidation c; simpl.
  { do 4 (split; [done|]). exists []. rewrite app_nil_r. split; [done|].
    split; [by intros Hx%elem_of_nil|]. intros x. split; [by intros Hx%elem_of_nil|].
    by intros [Hx%elem_of_nil _]. }
  unfold mbind, M_bind, bind, attempt.
  destruct (ValidateRuntimes_visit name c w) as (Hother & Hdom & Hdef & Hw & Hfail).
  assert (∀ c2 : RuntimeConfig,
            (∀ n, n ∉ names → Runtimes c2 !! n = Runtimes (cfg (out_st
               (onHandler name (RuntimeHandler_Validate name) (mkSt c w)))) !! n) →
            ∀ n, n ∉ name :: names → Runtimes c2 !! n = Runtimes c !! n) as Hrest.
  { intros c2 H2 n Hn. rewrite H2 by set_solver. apply Hother. set_solver. }
  assert (∀ x, x ∈ names →
            fails_validation (cfg (out_st
               (onHandler name (RuntimeHandler_Validate name) (mkSt c w)))) w x
            ↔ fails_validation c w x) as Hsame.
  { intros x Hx. apply fails_validation_ext, Hother. by intros ->. }
  destruct (onHandler name (RuntimeHandler_Validate name) (mkSt c w))
    as [[e|[]] [c1 w1] l1]; simpl in *; subst w1.
  - assert (fails_validation c w name) as Hbad by (apply Hfail; by eexists).
    unfold gets. simpl.
    destruct (decide (DefaultRuntime c1 = name)) as [Hdefault|Hdefault]; simpl.
    + unfold throw. simpl. split; [by apply Hrest|]. do 3 (split; [done|]).
      rewrite <- Hdef, Hdefault. split; [by left|done].
    + unfold logf; simpl.
      destruct (IH (failedValidation ++ [name]) c1) as (IHother & IHdom & IHdef & IHw & IHres).
      destruct (ValidateRuntimes_loop names (failedValidation ++ [name]) (mkSt c1 w))
        as [r [c2 w2] l2]; simpl in *.
      split; [by apply Hrest|]. split; [congruence|]. split; [congruence|]. split; [done|].
      destruct r as [e'|failed'].
      * destruct IHres as [Hin Hf]. rewrite <- Hdef. split; [by right|].
        by apply Hsame.
      * destruct IHres as (extra & -> & Hnot & Hin).
        exists (name :: extra). rewrite <- app_assoc. split; [done|]. split.
        -- rewrite <- Hdef. by intros [Heq|Hx]%elem_of_cons.
        -- intros x. rewrite !elem_of_cons, Hin. split.
           ++ intros [->|[Hx Hf]]; [by split; [left|]|]. split; [by right|]. by apply Hsame.
           ++ intros [[->|Hx] Hf]; [by left|]. right. split; [done|]. by apply Hsame.
  - assert (¬ fails_validation c w name) as Hgood.
    { intros [e He]%Hfail. done. }
    destruct (IH failedValidation c1) as (IHother & IHdom & IHdef & IHw & IHres).
    destruct (ValidateRuntimes_loop names failedValidation (mkSt c1 w))
      as [r [c2 w2] l2]; simpl in *.
    split; [by apply Hrest|]. split; [congruence|]. split; [congruence|]. split; [done|].
    destruct r as [e'|failed'].
    + destruct IHres as [Hin Hf]. rewrite <- Hdef. split; [by right|].
      by apply Hsame.
    + destruct IHres as (extra & -> & Hnot & Hin).
      exists extra. split; [done|]. split; [by rewrite <- Hdef|].
      intros x. rewrite elem_of_cons, Hin. split.
      * intros [Hx Hf]. split; [by right|]. by apply Hsame.
      * intros [[->|Hx] Hf]; [done|]. split; [done|]. by apply Hsame.
Qed.

(** The second loop of [ValidateRuntimes] removes the collected names
    from the table and nothing else. *)
Lemma ValidateRuntimes_delete_spec failedValidation c w :
  ∃ c', for_range failedValidation (λ invalidHandlerName,
          modifyCfg (λ c, set_Runtimes (delete invalidHandlerName (Runtimes c)) c)) (mkSt c w)
        = mkOut (inr tt) (mkSt c' w) []
        ∧ DefaultRuntime c' = DefaultRuntime c
        ∧ ∀ n, n ∈ dom (Runtimes c') ↔ n ∈ dom (Runtimes c) ∧ n ∉ failedValidation.
Proof.
  revert c. induction failedValidation as [|x l IH]; intros c; simpl.
  - exists c. split; [done|]. split; [done|]. intros n. rewrite elem_of_nil. tauto.
  - destruct (IH (set_Runtimes (delete x (Runtimes c)) c)) as (c' & Hrun & Hdef & Hdom).
    exists c'. unfold bind. unfold modifyCfg at 1, modify at 1. simpl. rewrite Hrun. simpl.
    split; [done|]. split; [by destruct c|]. intros n. rewrite Hdom, elem_of_cons.
    replace (Runtimes (set_Runtimes (delete x (Runtimes c)) c))
      with (delete x (Runtimes c)) by (by destruct c).
    rewrite dom_delete_L, elem_of_difference, elem_of_singleton. tauto.
Qed.

Lemma keeps_onHandler (I : St RuntimeConfig → Prop) (J : St RuntimeHandler → Prop)
    name (m : M (St RuntimeHandler) unit) E EJ :
  keeps J m EJ →
  (∀ c w h, I (mkSt c w) → Runtimes c !! name = Some h → J (mkSt h w)) →
  (∀ c w h h' w', I (mkSt c w) → Runtimes c !! name = Some h → J (mkSt h' w') →
     I (mkSt (set_Runtimes (<[name := h']> (Runtimes c)) c) w')) →
  (∀ e c w h h' w', I (mkSt c w) → Runtimes c !! name = Some h → EJ e (mkSt h' w') →
     E e (mkSt (set_Runtimes (<[name := h']> (Runtimes c)) c) w')) →
  keeps I (onHandler name m) E.
Proof.
  intros Hm HJ HI HE [c w] Hs. unfold onHandler. simpl.
  destruct (Runtimes c !! name) as [h|] eqn:Hh; [|done].
  specialize (Hm _ (HJ c w h Hs Hh)).
  destruct (m (mkSt h w)) as [[e|a] [h' w'] l]; simpl; eauto.
Qed.

(** [initializeRuntimeFeatures] has no error to return, and it leaves
    the names of the table and the default runtime as they are. *)
Lemma initializeRuntimeFeatures_keys D d :
  keeps (λ s, dom (Runtimes (cfg s)) = D ∧ DefaultRuntime (cfg s) = d)
        initializeRuntimeFeatures (λ _ _, False).
Proof.
  unfold initializeRuntimeFeatures, mbind, M_bind.
  apply keeps_bind; [apply keeps_gets|intros s0].
  apply keeps_for_range. intros name.
  eapply (keeps_onHandler _ (λ _, True) _ _ _ (λ _ _, False)).
  - apply keeps_returns. intros [h w]. unfold onWorld, zoom, cmdrunner_CombinedOutput. run.
    destruct (cmd_result w !! _); run; [|by eexists].
    destruct (json_Unmarshal_features _ _) as [[e|] f]; run; by eexists.
  - done.
  - intros c w h h' w' [HD Hd] Hh _. simpl. split.
    + replace (Runtimes (set_Runtimes (<[name:=h']> (Runtimes c)) c))
        with (<[name:=h']> (Runtimes c)) by (by destruct c).
      rewrite dom_insert_lookup_L; [done|by eexists].
    + by destruct c.
  - done.
Qed.

(** X16.  [ValidateRuntimes], given that a [range] clause visits every
    key of the table once: the default runtime is never renamed; the
    method fails exactly when the handler of the default runtime fails its
    validation, and then no handler has been removed and the host is as
    it was; when it succeeds the table keeps exactly the handlers that
    pass their validation. *)
Theorem ValidateRuntimes_spec c w :
  (∀ l, range_order l ≡ₚ l) →
  let o := ValidateRuntimes (mkSt c w) in
  let c' := cfg (out_st o) in
  DefaultRuntime c' = DefaultRuntime c
  ∧ (failed o ↔ fails_validation c w (DefaultRuntime c))
  ∧ (failed o → dom (Runtimes c') = dom (Runtimes c) ∧ world (out_st o) = w)
  ∧ (¬ failed o → ∀ name,
       name ∈ dom (Runtimes c') ↔ name ∈ dom (Runtimes c) ∧ ¬ fails_validation c w name).
Proof.
  intros Hperm. unfold ValidateRuntimes, mbind, M_bind, bind, gets. simpl.
  assert (NoDup (range_Runtimes c)) as Hnd.
  { unfold range_Runtimes. rewrite Hperm. apply NoDup_elements. }
  assert (∀ x, x ∈ range_Runtimes c ↔ x ∈ dom (Runtimes c)) as Hrange.
  { intros x. unfold range_Runtimes. by rewrite Hperm, elem_of_elements. }
  assert (∀ x, fails_validation c w x → x ∈ dom (Runtimes c)) as Hkey.
  { intros x (h & Hh & _). apply elem_of_dom. by eexists. }
  destruct (ValidateRuntimes_loop_spec (range_Runtimes c) [] c w Hnd)
    as (_ & Hdom & Hdef & Hw & Hres).
  destruct (ValidateRuntimes_loop (range_Runtimes c) [] (mkSt c w))
    as [[e|failedValidation] [c1 w1] l1]; simpl in *; subst w1.
  - destruct Hres as [_ Hbad]. split; [done|]. split; [by split; [|eexists]|].
    split; [done|]. intros Hnot. destruct Hnot. by eexists.
  - destruct Hres as (extra & -> & Hnot & Hin).
    destruct (ValidateRuntimes_delete_spec extra c1 w) as (c2 & -> & Hdef2 & Hdom2).
    simpl.
    pose proof (initializeRuntimeFeatures_keys (dom (Runtimes c2)) (DefaultRuntime c2)
                  (mkSt c2 w) (conj eq_refl eq_refl)) as Hfeat.
    destruct (initializeRuntimeFeatures (mkSt c2 w)) as [[e|[]] [c3 w3] l3];
      simpl in *; [done|].
    destruct Hfeat as [Hdom3 Hdef3].
    assert (¬ fails_validation c w (DefaultRuntime c)) as Hgood.
    { intros Hbad. apply Hnot, Hin. split; [|done]. by apply Hrange, Hkey. }
    split; [congruence|]. split; [by split; [intros [e He]|]|].
    split; [by intros [e He]|]. intros _ name.
    rewrite Hdom3, Hdom2, Hdom, Hin, Hrange. split.
    + intros [Hname Hno]. split; [done|]. intros Hbad. by apply Hno.
    + intros [Hname Hno]. split; [done|]. by intros [_ Hbad].
Qed.

(** ** The default runtime of a validated configuration *)

(** The first loop of [ValidateRuntimes] never marks the default runtime
    for removal, whatever the order of the visits. *)
Lemma ValidateRuntimes_loop_default names failedValidation c w :
  let o := ValidateRuntimes_loop names failedValidation (mkSt c w) in
  dom (Runtimes (cfg (out_st o))) = dom (Runtimes c)
  ∧ DefaultRuntime (cfg (out_st o)) = DefaultRuntime c
  ∧ world (out_st o) = w
  ∧ ∀ failed', out_res o = inr failed' →
      ∃ extra, failed' = failedValidation ++ extra ∧ DefaultRuntime c ∉ extra.
Proof.
  revert failedValidation c.
  induction names as [|name names IH]; intros failedValidation c; simpl.
  { do 3 (split; [done|]). intros failed' [= <-]. exists []. rewrite app_nil_r.
    split; [done|]. by intros Hx%elem_of_nil. }
  unfold mbind, M_bind, bind, attempt.
  destruct (ValidateRuntimes_visit name c w) as (_ & Hdom & Hdef & Hw & _).
  destruct (onHandler name (RuntimeHandler_Validate name) (mkSt c w))
    as [[e|[]] [c1 w1] l1]; simpl in *; subst w1.
  - unfold gets. simpl.
    destruct (decide (DefaultRuntime c1 = name)) as [Hdefault|Hdefault]; simpl.
    + unfold throw. simpl. by do 3 (split; [done|]).
    + unfold logf; simpl.
      destruct (IH (failedValidation ++ [name]) c1) as (IHdom & IHdef & IHw & IHres).
      destruct (ValidateRuntimes_loop names (failedValidation ++ [name]) (mkSt c1 w))
        as [r [c2 w2] l2]; simpl in *.
      split; [congruence|]. split; [congruence|]. split; [done|].
      intros failed' ->. destruct (IHres failed' eq_refl) as (extra & -> & Hnot).
      exists (name :: extra). rewrite <- app_assoc. split; [done|].
      rewrite <- Hdef. by intros [Heq|Hx]%elem_of_cons.
  - destruct (IH failedValidation c1) as (IHdom & IHdef & IHw & IHres).
    destruct (ValidateRuntimes_loop names failedValidation (mkSt c1 w))
      as [r [c2 w2] l2]; simpl in *.
    split; [congruence|]. split; [congruence|]. split; [done|].
    intros failed' ->. destruct (IHres failed' eq_refl) as (extra & -> & Hnot).
    exists extra. split; [done|]. by rewrite <- Hdef.
Qed.

Lemma ValidateRuntimes_default :
  keeps (onConfig (λ c, DefaultRuntime c ∈ dom (Runtimes c))) ValidateRuntimes (λ _ _, True).
Proof.
  intros [c w] Hs. unfold onConfig in *. simpl in Hs.
  unfold ValidateRuntimes, mbind, M_bind, bind, gets. simpl.
  destruct (ValidateRuntimes_loop_default (range_Runtimes c) [] c w)
    as (Hdom & Hdef & Hw & Hres).
  destruct (ValidateRuntimes_loop (range_Runtimes c) [] (mkSt c w))
    as [[e|failedValidation] [c1 w1] l1]; simpl in *; subst w1; [done|].
  destruct (Hres _ eq_refl) as (extra & -> & Hnot).
  destruct (ValidateRuntimes_delete_spec extra c1 w) as (c2 & -> & Hdef2 & Hdom2).
  simpl.
  pose proof (initializeRuntimeFeatures_keys (dom (Runtimes c2)) (DefaultRuntime c2)
                (mkSt c2 w) (conj eq_refl eq_refl)) as Hfeat.
  destruct (initializeRuntimeFeatures (mkSt c2 w)) as [[e|[]] [c3 w3] l3];
    simpl in *; [done|].
  destruct Hfeat as [-> ->]. apply Hdom2. rewrite Hdef2, Hdom, Hdef. done.
Qed.

Lemma TranslateMonitorFields_keys onExecution (D : gset string) d :
  keeps (onConfig (λ c, dom (Runtimes c) = D ∧ DefaultRuntime c = d))
    (TranslateMonitorFields onExecution)
    (λ _, onConfig (λ c, dom (Runtimes c) = D ∧ DefaultRuntime c = d)).
Proof.
  unfold TranslateMonitorFields, TranslateMonitorFields_body.
  repeat keeps_step; try done.
  eapply (keeps_withHandler _
            (λ t, dom (Runtimes (cfg t).1) = D ∧ DefaultRuntime (cfg t).1 = d ∧ x ∈ D)
            _ _ _
            (λ _ t, dom (Runtimes (cfg t).1) = D ∧ DefaultRuntime (cfg t).1 = d ∧ x ∈ D)).
  - unfold TranslateMonitorFieldsForHandler, ValidateConmonPath.
    destruct onExecution; keeps_cfg; try done; intros [c0 h0]; done.
  - intros c0 w0 h0 [HD Hd] Hh. simpl. split; [done|]. split; [done|].
    rewrite <- HD. apply elem_of_dom. by eexists.
  - intros c0 w0 c' h' w' _ (HD & Hd & Hx). unfold onConfig. simpl in *. split.
    + replace (Runtimes (set_Runtimes (<[x:=h']> (Runtimes c')) c'))
        with (<[x:=h']> (Runtimes c')) by (by destruct c').
      rewrite dom_insert_lookup_L; [done|]. apply elem_of_dom. by rewrite HD.
    + by destruct c'.
  - intros e c0 w0 c' h' w' _ (HD & Hd & Hx). unfold onConfig. simpl in *. split.
    + replace (Runtimes (set_Runtimes (<[x:=h']> (Runtimes c')) c'))
        with (<[x:=h']> (Runtimes c')) by (by destruct c').
      rewrite dom_insert_lookup_L; [done|]. apply elem_of_dom. by rewrite HD.
    + by destruct c'.
Qed.

Lemma TranslateMonitorFields_default onExecution :
  keeps (onConfig (λ c, DefaultRuntime c ∈ dom (Runtimes c)))
    (TranslateMonitorFields onExecution) (λ _ _, True).
Proof.
  intros [c w] Hs.
  pose proof (TranslateMonitorFields_keys onExecution (dom (Runtimes c)) (DefaultRuntime c)
                (mkSt c w) (conj eq_refl eq_refl)) as H.
  unfold onConfig in *. simpl in *.
  destruct (TranslateMonitorFields onExecution (mkSt c w)) as [[e|a] [c' w'] l];
    simpl in *; [done|]. destruct H as [-> ->]. done.
Qed.

Lemma ValidateDefaultRuntime_default c :
  match out_res (ValidateDefaultRuntime c) with
  | inr _ =>
      DefaultRuntime (out_st (ValidateDefaultRuntime c))
      ∈ dom (Runtimes (out_st (ValidateDefaultRuntime c)))
  | inl _ => True
  end.
Proof.
  unfold ValidateDefaultRuntime. run.
  destruct (Runtimes c !! DefaultRuntime c) as [h|] eqn:Hh; run.
  { apply elem_of_dom. by eexists. }
  destruct (decide (DefaultRuntime c ≠ "")); run; [done|].
  destruct (Runtimes c !! defaultRuntime) as [h|] eqn:Hd; run;
    destruct c; simpl in *; apply elem_of_dom.
  - by eexists.
  - rewrite lookup_insert_eq. by eexists.
Qed.

(** X17.  A runtime configuration that [RuntimeConfig.Validate] accepts,
    in either mode, has a default runtime that names a handler of its
    table: validation of the handlers may remove entries, never that
    one. *)
Theorem RuntimeConfig_Validate_default_runtime sc onExecution c w :
  let o := RuntimeConfig_Validate sc onExecution (mkSt c w) in
  succeeded o →
  is_Some (Runtimes (cfg (out_st o)) !! DefaultRuntime (cfg (out_st o))).
Proof.
  intros o [a Ha]. apply elem_of_dom.
  assert (triple (λ _, True) (RuntimeConfig_Validate sc onExecution)
            (λ _, onConfig (λ c, DefaultRuntime c ∈ dom (Runtimes c))) (λ _ _, True)) as H.
  { unfold RuntimeConfig_Validate.
    do 5 (bind_keeps; [by apply keeps_True|]).
    unfold mbind, M_bind.
    apply (triple_bind _ _ _ (λ _, onConfig (λ c, DefaultRuntime c ∈ dom (Runtimes c)))).
    { intros [c0 w0] _. unfold onCfg, zoom. simpl.
      pose proof (ValidateDefaultRuntime_default c0) as Hd.
      by destruct (ValidateDefaultRuntime c0) as [[e|a'] c' l]. }
    intros _.
    match goal with |- triple ?P ?m _ ?E => change (keeps P m E) end.
    unfold RuntimeConfig_Validate_onExecution, cmdrunner_PrependCommandsWith.
    destruct onExecution;
      repeat first
        [ apply TranslateMonitorFields_default
        | apply ValidateRuntimes_default
        | keeps_step
        | apply keeps_onWorld_any ];
      try done. }
  specialize (H (mkSt c w) I). fold o in H.
  destruct o as [[e|a'] s l]; simpl in *; [done|]. exact H.
Qed.

(** ** Hooks directories *)

(** X18.  The loop of [RuntimeConfig.Validate] over the configured hooks
    directories has no error to return.  It keeps a sub-sequence of the
    configured directories, in their order, after what the slice holds
    already.  On the host it does nothing but create directories, and
    each of them is a configured directory or lies on the way up from
    one.  When every configured directory exists already, all are kept
    and the host is left as it is. *)
Theorem hooksDirs_loop_spec dirs hooksDirs w :
  let o := hooksDirs_loop dirs hooksDirs w in
  ∃ kept (created : gset string),
    out_res o = inr (hooksDirs ++ kept)
    ∧ sublist kept dirs
    ∧ out_st o = set_fs_dirs (created ∪ fs_dirs w) w
    ∧ (∀ d, d ∈ created → ∃ dir k, dir ∈ dirs ∧ d = Nat.iter k filepath_Dir dir)
    ∧ ((∀ d, d ∈ dirs → utils_IsDirectory d w = None) → kept = dirs ∧ out_st o = w).
Proof.
  revert hooksDirs w. induction dirs as [|hooksDir dirs IH]; intros hooksDirs w; simpl.
  { exists [], ∅. rewrite app_nil_r, set_fs_dirs_empty.
    split; [done|]. split; [done|]. split; [done|]. split; [|done].
    intros d Hd. set_solver. }
  assert (Hlater : ∀ (created : gset string),
            (∀ d, d ∈ created → ∃ dir k, dir ∈ dirs ∧ d = Nat.iter k filepath_Dir dir) →
            ∀ d, d ∈ created →
                 ∃ dir k, dir ∈ hooksDir :: dirs ∧ d = Nat.iter k filepath_Dir dir).
  { intros created Hcr d Hd. destruct (Hcr d Hd) as (dir & k & Hdir & Hk).
    exists dir, k. split; [by right|done]. }
  unfold mbind, M_bind, bind, gets. simpl.
  destruct (utils_IsDirectory hooksDir w) as [err|] eqn:HisDir; simpl.
  - destruct (failure_not_exist err) eqn:Hne; simpl.
    + unfold attempt.
      destruct (os_MkdirAll_from_outcome (String.length hooksDir) hooksDir w)
        as (Hlog & _ & _ & D & Hst & HD).
      unfold os_MkdirAll.
      assert (Hboth : ∀ (created : gset string),
                (∀ d, d ∈ created →
                      ∃ dir k, dir ∈ dirs ∧ d = Nat.iter k filepath_Dir dir) →
                ∀ d, d ∈ created ∪ D →
                     ∃ dir k, dir ∈ hooksDir :: dirs ∧ d = Nat.iter k filepath_Dir dir).
      { intros created Hcr d [Hd|Hd]%elem_of_union; [by apply (Hlater created)|].
        destruct (HD d Hd) as [_ [k Hk]]. exists hooksDir, k. split; [by left|done]. }
      destruct (os_MkdirAll_from _ hooksDir w) as [[e|[]] w1 l1]; simpl in *; subst l1 w1.
      * destruct (IH hooksDirs (set_fs_dirs (D ∪ fs_dirs w) w))
          as (kept & created & Hres & Hsub & Hst' & Hcr & _).
        destruct (hooksDirs_loop dirs hooksDirs (set_fs_dirs (D ∪ fs_dirs w) w))
          as [r w' l]; simpl in *.
        exists kept, (created ∪ D). split; [done|]. split; [by apply sublist_cons|].
        split; [rewrite Hst', set_fs_dirs_twice; f_equal; set_solver|].
        split; [by apply Hboth|].
        intros Hall. specialize (Hall hooksDir (list_elem_of_here _ _)). congruence.
      * destruct (IH (hooksDirs ++ [hooksDir]) (set_fs_dirs (D ∪ fs_dirs w) w))
          as (kept & created & Hres & Hsub & Hst' & Hcr & _).
        destruct (hooksDirs_loop dirs (hooksDirs ++ [hooksDir])
                    (set_fs_dirs (D ∪ fs_dirs w) w)) as [r w' l]; simpl in *.
        exists (hooksDir :: kept), (created ∪ D). rewrite Hres, <- app_assoc. simpl.
        split; [done|]. split; [by apply sublist_skip|].
        split; [rewrite Hst', set_fs_dirs_twice; f_equal; set_solver|].
        split; [by apply Hboth|].
        intros Hall. specialize (Hall hooksDir (list_elem_of_here _ _)). congruence.
    + destruct (IH hooksDirs w) as (kept & created & Hres & Hsub & Hst & Hcr & _).
      destruct (hooksDirs_loop dirs hooksDirs w) as [r w' l]; simpl in *.
      exists kept, created. split; [done|]. split; [by apply sublist_cons|].
      split; [done|]. split; [by apply Hlater|].
      intros Hall. specialize (Hall hooksDir (list_elem_of_here _ _)). congruence.
  - destruct (IH (hooksDirs ++ [hooksDir]) w) as (kept & created & Hres & Hsub & Hst & Hcr & Hall).
    destruct (hooksDirs_loop dirs (hooksDirs ++ [hooksDir]) w) as [r w' l]; simpl in *.
    exists (hooksDir :: kept), created. rewrite Hres, <- app_assoc. simpl.
    split; [done|]. split; [by apply sublist_skip|]. split; [done|].
    split; [by apply Hlater|].
    intros Hdirs. destruct Hall as [-> Hw].
    { intros d Hd. apply Hdirs. by right. }
    done.
Qed.

(** ** The monitor of a handler *)

(** [validateExecutablePath] reads the host and leaves it alone. *)
Lemma validateExecutablePath_outcome executable currentPath w :
  let o := validateExecutablePath executable currentPath w in
  out_st o = w
  ∧ match out_res o with
    | inr path =>
        if decide (currentPath = "") then env_PATH w !! executable = Some path
        else path = currentPath ∧ os_Stat currentPath w = None
    | inl err =>
        if decide (currentPath = "") then env_PATH w !! executable = None
        else ∃ cause, os_Stat currentPath w = Some cause
                      ∧ err = Wrapf "invalid %s path: %w" [executable] cause
    end.
Proof.
  unfold validateExecutablePath, exec_LookPath.
  destruct (decide (currentPath = "")) as [Hp|Hp]; run.
  - destruct (env_PATH w !! executable) as [path|] eqn:Hpath; run; done.
  - destruct (os_Stat currentPath w) as [cause|] eqn:Hstat; run; [|done].
    split; [done|]. by exists cause.
Qed.

(** X19.  [ValidateConmonPath] assigns both results of the calls it
    makes, also when they fail.  When the monitor path cannot be resolved
    (no path is configured and the executable is not in $PATH, or the
    configured path cannot be examined, for whatever reason) the error is
    returned, the monitor path of the handler is erased and nothing else
    changes.  Otherwise the handler holds the resolved path, which is the
    configured one when there is one, and the configuration holds the
    monitor manager made for it, or none when making it fails. *)
Theorem ValidateConmonPath_spec executable c h w :
  let o := ValidateConmonPath executable (mkSt (c, h) w) in
  let resolved := validateExecutablePath executable (MonitorPath h) w in
  match out_res resolved with
  | inl err =>
      out_res o = inl err ∧ out_st o = mkSt (c, set_MonitorPath "" h) w
      ∧ (if decide (MonitorPath h = "") then env_PATH w !! executable = None
         else is_Some (os_Stat (MonitorPath h) w))
  | inr path =>
      (if decide (MonitorPath h = "") then env_PATH w !! executable = Some path
       else path = MonitorPath h ∧ os_Stat path w = None)
      ∧ match conmonmgr_New path w with
        | (inl f, w') =>
            out_res o = inl (Foreign f)
            ∧ out_st o = mkSt (set_conmonManager None c, set_MonitorPath path h) w'
        | (inr m, w') =>
            out_res o = inr tt
            ∧ out_st o = mkSt (set_conmonManager (Some m) c, set_MonitorPath path h) w'
        end
  end.
Proof.
  cbv zeta.
  destruct (validateExecutablePath_outcome executable (MonitorPath h) w) as [Hw Hres].
  unfold ValidateConmonPath, onWorld, zoom, call. run.
  destruct (validateExecutablePath executable (MonitorPath h) w) as [[err|path] w1 l1];
    simpl in *; subst w1; run.
  - split; [done|]. split; [reflexivity|].
    destruct (decide (MonitorPath h = "")); [done|].
    destruct Hres as (cause & -> & _). by eexists.
  - split.
    { destruct (decide (MonitorPath h = "")); [done|]. by destruct Hres as [-> ?]. }
    destruct (conmonmgr_New path w) as [[f|m] w']; run; by split.
Qed.

(** X20.  A handler whose monitor fields [TranslateMonitorFieldsForHandler]
    accepts on execution: the configuration holds a monitor manager; the
    monitor path of the handler exists on the host, or is the one found in
    $PATH; and its monitor cgroup fits the cgroup manager, that is, it is
    "pod" or a systemd slice under systemd, and "pod" or empty otherwise. *)
Theorem TranslateMonitorFieldsForHandler_execution c h w :
  let o := TranslateMonitorFieldsForHandler true (mkSt (c, h) w) in
  let c' := (cfg (out_st o)).1 in
  let h' := (cfg (out_st o)).2 in
  succeeded o →
  is_Some (conmonManager c')
  ∧ (os_Stat (MonitorPath h') w = None ∨ env_PATH w !! "conmon" = Some (MonitorPath h'))
  ∧ (if cgmgr_IsSystemd (cgroupManager c')
     then MonitorCgroup h' = utils_PodCgroupName
          ∨ strings_HasSuffix (MonitorCgroup h') ".slice" = true
     else MonitorCgroup h' = utils_PodCgroupName ∨ MonitorCgroup h' = "").
Proof.
  intros o c' h' [a Ha].
  pose (resolved := λ s : St (RuntimeConfig * RuntimeHandler),
          is_Some (conmonManager (cfg s).1)
          ∧ (os_Stat (MonitorPath (cfg s).2) w = None
             ∨ env_PATH w !! "conmon" = Some (MonitorPath (cfg s).2))).
  assert (triple (λ s, world s = w) (TranslateMonitorFieldsForHandler true)
            (λ _ s, resolved s
                    ∧ (if cgmgr_IsSystemd (cgroupManager (cfg s).1)
                       then MonitorCgroup (cfg s).2 = utils_PodCgroupName
                            ∨ strings_HasSuffix (MonitorCgroup (cfg s).2) ".slice" = true
                       else MonitorCgroup (cfg s).2 = utils_PodCgroupName
                            ∨ MonitorCgroup (cfg s).2 = ""))
            (λ _ _, True)) as H.
  { unfold TranslateMonitorFieldsForHandler.
    do 6 (bind_keeps; [keeps_cfg; done|]).
    unfold mbind, M_bind.
    apply (triple_bind _ _ _ (λ _, resolved)).
    - intros [[c0 h0] w0] Hw. simpl in Hw. subst w0.
      destruct (validateExecutablePath_outcome "conmon" (MonitorPath h0) w) as [Hw Hres].
      unfold ValidateConmonPath, onWorld, zoom, call. run.
      destruct (validateExecutablePath "conmon" (MonitorPath h0) w) as [[err|path] w1 l1];
        simpl in *; subst w1; run; [done|].
      destruct (conmonmgr_New path w) as [[f|m] w']; run; [done|].
      unfold resolved. simpl. split; [by eexists|].
      destruct (decide (MonitorPath h0 = "")); [by right|]. left. by destruct Hres as [-> ?].
    - intros _. apply triple_bind with (R := λ ch s, resolved s ∧ cfg s = ch).
      { by apply triple_gets. }
      intros ch.
      destruct (cgmgr_IsSystemd (cgroupManager ch.1)) eqn:Hsys; simpl.
      + destruct (bool_decide (MonitorCgroup ch.2 = utils_PodCgroupName)) eqn:Hpod; simpl.
        * apply triple_ret. intros s [Hr <-]. split; [done|]. rewrite Hsys.
          left. by apply bool_decide_eq_true in Hpod.
        * destruct (strings_HasSuffix (MonitorCgroup ch.2) ".slice") eqn:Hslice; simpl.
          -- apply triple_ret. intros s [Hr <-]. split; [done|]. rewrite Hsys. by right.
          -- by apply triple_throw.
      + destruct (decide (MonitorCgroup ch.2 ≠ utils_PodCgroupName ∧ MonitorCgroup ch.2 ≠ ""))
          as [Hbad|Hgood].
        * by apply triple_throw.
        * apply triple_ret. intros s [Hr <-]. split; [done|]. rewrite Hsys.
          destruct (decide (MonitorCgroup (cfg s).2 = utils_PodCgroupName)); [by left|].
          right. apply dec_stable. tauto. }
  specialize (H (mkSt (c, h) w) eq_refl). fold o in H. subst c' h'.
  destruct o as [[e|a'] s l]; simpl in *; [done|].
  destruct H as [[Hm Hp] Hc]. done.
Qed.

(** ** Features of the runtimes *)

Lemma same_but_features_refl h : same_but_features h h.
Proof. by destruct h. Qed.

Lemma set_spawned_nil w : set_spawned (spawned w ++ []) w = w.
Proof. destruct w. unfold set_spawned. simpl. by rewrite app_nil_r. Qed.

Lemma set_spawned_app l1 l2 w :
  set_spawned (spawned (set_spawned (spawned w ++ l1) w) ++ l2) (set_spawned (spawned w ++ l1) w)
  = set_spawned (spawned w ++ l1 ++ l2) w.
Proof. destruct w. unfold set_spawned. simpl. by rewrite app_assoc. Qed.

(** X21.  [initializeRuntimeFeatures] has no error to return.  It runs
    the command [<runtime_path> features] once for every visit of a
    handler, in the order of the visits, and leaves of the host everything
    else as it was; in the configuration it changes nothing but the
    features recorded for the handlers. *)
Theorem initializeRuntimeFeatures_spec c w :
  let o := initializeRuntimeFeatures (mkSt c w) in
  let c' := cfg (out_st o) in
  out_res o = inr tt
  ∧ c' = set_Runtimes (Runtimes c') c
  ∧ (∀ name, option_Forall2 same_but_features (Runtimes c !! name) (Runtimes c' !! name))
  ∧ world (out_st o)
    = set_spawned (spawned w ++ map (features_command w)
                                  (omap (λ name, Runtimes c !! name) (range_Runtimes c))) w.
Proof.
  cbv zeta. unfold initializeRuntimeFeatures.
  match goal with |- context [for_range _ ?body] => set (visit := body) end.
  unfold mbind, M_bind, bind, gets. simpl.
  assert (Hvisit : ∀ name c1 w1 h1,
            Runtimes c1 !! name = Some h1 →
            ∃ f l,
              visit name (mkSt c1 w1)
              = mkOut (inr tt)
                  (mkSt (set_Runtimes (<[name := set_features f h1]> (Runtimes c1)) c1)
                     (set_spawned (spawned w1 ++ [features_command w1 h1]) w1)) l).
  { intros name c1 w1 h1 Hh1. unfold visit, onHandler, features_command. simpl. rewrite Hh1.
    unfold onWorld, zoom, cmdrunner_CombinedOutput. run.
    destruct (cmd_result w1 !! _); run.
    - destruct (json_Unmarshal_features _ _) as [[e|] f]; run; by eexists _, _.
    - exists (features h1). eexists. by destruct h1. }
  assert (Hskip : ∀ name c1 w1,
            Runtimes c1 !! name = None →
            visit name (mkSt c1 w1) = mkOut (inr tt) (mkSt c1 w1) []).
  { intros name c1 w1 Hh1. unfold visit, onHandler. simpl. by rewrite Hh1. }
  clearbody visit.
  assert (Hloop : ∀ names c1 w1,
            c1 = set_Runtimes (Runtimes c1) c →
            (∀ name, option_Forall2 same_but_features
                       (Runtimes c !! name) (Runtimes c1 !! name)) →
            cmd_prefix w1 = cmd_prefix w →
            out_res (for_range names visit (mkSt c1 w1)) = inr tt
            ∧ cfg (out_st (for_range names visit (mkSt c1 w1)))
              = set_Runtimes (Runtimes (cfg (out_st (for_range names visit (mkSt c1 w1))))) c
            ∧ (∀ name, option_Forall2 same_but_features (Runtimes c !! name)
                 (Runtimes (cfg (out_st (for_range names visit (mkSt c1 w1)))) !! name))
            ∧ world (out_st (for_range names visit (mkSt c1 w1)))
              = set_spawned (spawned w1 ++ map (features_command w)
                               (omap (λ name, Runtimes c !! name) names)) w1).
  { induction names as [|name names IH]; intros c1 w1 Hc Hrel Hpre; simpl.
    { by rewrite set_spawned_nil. }
    unfold bind.
    specialize (Hrel name) as Hname.
    destruct (Runtimes c !! name) as [h|] eqn:Hh; inversion Hname as [h0 h1 Hsame Hh0 Hh1|];
      subst; simpl.
    2: { rewrite Hskip by done. simpl.
         destruct (IH c1 w1 Hc Hrel Hpre) as (Hres & Hc' & Hrel' & Hw').
         by destruct (for_range names visit (mkSt c1 w1)) as [r [c3 w3] l3]. }
    destruct (Hvisit name c1 w1 h1 (eq_sym Hh1)) as (f & l & ->). simpl.
    assert (features_command w1 h1 = features_command w h) as ->.
    { unfold features_command. rewrite Hpre. unfold same_but_features in Hsame.
      rewrite Hsame. by destruct h. }
    match goal with
    | |- context [for_range names visit (mkSt ?c2 ?w2)] =>
        destruct (IH c2 w2) as (Hres & Hc' & Hrel' & Hw');
          [| | |destruct (for_range names visit (mkSt c2 w2)) as [r [c3 w3] l3]]
    end.
    - rewrite Hc. by destruct c.
    - intros n.
      replace (Runtimes (set_Runtimes (<[name:=set_features f h1]> (Runtimes c1)) c1))
        with (<[name:=set_features f h1]> (Runtimes c1)) by (by destruct c1).
      destruct (decide (n = name)) as [->|Hn].
      + rewrite lookup_insert_eq, Hh. constructor. unfold same_but_features in *.
        rewrite Hsame. by destruct h.
      + rewrite lookup_insert_ne by done. apply Hrel.
    - by destruct w1.
    - simpl in *. split; [done|]. split; [done|]. split; [done|].
      rewrite Hw'. apply (set_spawned_app [_]). }
  destruct (Hloop (range_Runtimes c) c w) as (Hres & Hc & Hrel & Hw).
  - by destruct c.
  - intros name. destruct (Runtimes c !! name); constructor. apply same_but_features_refl.
  - done.
  - by destruct (for_range (range_Runtimes c) visit (mkSt c w)) as [r [c3 w3] l3].
Qed.

(** ** The command prefix *)

(** What follows the floor of the stop timeout, in static mode. *)
Lemma RuntimeConfig_Validate_rest_prefix sc c1 w :
  let fits w' :=
    (InfraCtrCPUSet c1 = "" → cmd_prefix w' = cmd_prefix w)
    ∧ (InfraCtrCPUSet c1 ≠ "" →
       ∃ set executable,
         cpuset_Parse (InfraCtrCPUSet c1) = inr set
         ∧ env_PATH w !! tasksetBinary = Some executable
         ∧ cmd_prefix w' = [executable; "--cpu-list"; cpuset_String set]) in
  triple (λ s, world s = w)
    (RuntimeConfig_Validate_floor c1;; RuntimeConfig_Validate_rest sc false c1)
    (λ _ s, fits (world s))
    (λ _ s, InfraCtrCPUSet c1 = "" → cmd_prefix (world s) = cmd_prefix w).
Proof.
  intros fits.
  pose (before := λ (_ : error) (s : St RuntimeConfig), world s = w).
  assert (Hbefore : ∀ e s, before e s →
                      InfraCtrCPUSet c1 = "" → cmd_prefix (world s) = cmd_prefix w).
  { intros e s Hs _. unfold before in Hs. by rewrite Hs. }
  unfold RuntimeConfig_Validate_floor, RuntimeConfig_Validate_rest.
  do 3 (bind_keeps;
        [apply (keeps_weaken _ _ _ before); [|exact Hbefore];
         change (keeps (onHost (λ w', w' = w)) ?m _) with
           (keeps (onHost (C:=RuntimeConfig) (λ w', w' = w)) m (λ _, onHost (λ w', w' = w)));
         solve [keeps_host; done]|]).
  unfold mbind, M_bind.
  apply (triple_bind _ _ _ (λ _ s, fits (world s))).
  - intros [c0 w0] Hw. simpl in Hw. subst w0. unfold fits.
    destruct (decide (InfraCtrCPUSet c1 ≠ "")) as [Hset|Hset]; run.
    + destruct (cpuset_Parse (InfraCtrCPUSet c1)) as [f|set] eqn:Hparse; run; [done|].
      unfold exec_LookPath.
      destruct (env_PATH w !! tasksetBinary) as [executable|] eqn:Hpath; run; [|done].
      unfold onWorld, zoom, cmdrunner_PrependCommandsWith. run.
      split; [done|]. intros _. by exists set, executable.
    + apply dec_stable in Hset. split; [done|]. by intros ?.
  - intros _.
    match goal with |- triple ?P ?m _ ?E => change (keeps P m E) end.
    apply (keeps_weaken _ _ _ (λ _, onHost fits)); [|by intros e s [H _]].
    change (keeps (onHost (C:=RuntimeConfig) fits) ?m _) with
      (keeps (onHost (C:=RuntimeConfig) fits) m (λ _, onHost fits)).
    keeps_host; try done; apply TranslateMonitorFields_static_host.
Qed.

(** X22.  Validation of the runtime configuration in static mode sets
    the prefix of the commands the process runs from then on: without a
    CPU set for the infra containers the prefix is left as it is; with one,
    a successful validation leaves the prefix [taskset --cpu-list <set>],
    with the executable found in $PATH and the CPU set as parsed. *)
Theorem RuntimeConfig_Validate_static_cmd_prefix sc c w :
  let o := RuntimeConfig_Validate sc false (mkSt c w) in
  (InfraCtrCPUSet c = "" → cmd_prefix (world (out_st o)) = cmd_prefix w)
  ∧ (InfraCtrCPUSet c ≠ "" → succeeded o →
     ∃ set executable,
       cpuset_Parse (InfraCtrCPUSet c) = inr set
       ∧ env_PATH w !! tasksetBinary = Some executable
       ∧ cmd_prefix (world (out_st o)) = [executable; "--cpu-list"; cpuset_String set]).
Proof.
  cbv zeta. rewrite RuntimeConfig_Validate_phases.
  destruct (RuntimeConfig_Validate_first_cases c w)
    as [(e & l & H & _)|(c1 & l & H & _ & _ & Hcpu)].
  - destruct (H (λ c, RuntimeConfig_Validate_floor c;;
                      RuntimeConfig_Validate_rest sc false c)) as (Hres & Hw & _).
    rewrite Hw. split; [done|]. intros _ [a Ha]. congruence.
  - rewrite H. cbv beta. rewrite <- Hcpu.
    pose proof (RuntimeConfig_Validate_rest_prefix sc c1 w (mkSt c1 w) eq_refl) as Hrest.
    destruct ((RuntimeConfig_Validate_floor c1 ≫= _) _) as [[e|a] s l']; simpl in *.
    + split; [done|]. by intros _ [a Ha].
    + destruct Hrest as [Hnone Hsome]. split; [done|]. intros Hset _. by apply Hsome.
Qed.

(** ** The shadow structure *)

(** X23.  [fromConfig] reads back what [toConfig] stores.  Storing what
    was just read changes nothing of the configuration but the comment
    prefix and the temporary directory of the system context, which follows
    the image configuration; storing twice is storing once, and the paths
    the configuration remembers are never touched. *)
Theorem toConfig_fromConfig t c :
  fromConfig (toConfig t c) = t
  ∧ toConfig (fromConfig c) c = set_Comment "# " (SetSystemContext c)
  ∧ toConfig t (toConfig t c) = toConfig t c
  ∧ singleConfigPath (toConfig t c) = singleConfigPath c
  ∧ dropInConfigDir (toConfig t c) = dropInConfigDir c
  ∧ sc_BigFilesTemporaryDir (systemContext (toConfig t c))
    = BigFilesTemporaryDir (Crio_Image t).
Proof.
  destruct t, c. unfold toConfig, fromConfig, SetSystemContext. simpl.
  repeat split; try done.
Qed.

(** ** Precedence among fragments *)

(** X24.  Two fragments that decode are applied one after the other,
    the later over the earlier: a key of the later fragment wins, a key it
    does not have keeps what the earlier fragment or the configuration
    gave.  For the root, the run root and the storage driver an empty
    value counts as absent. *)
Theorem merge_fragments_precedence path1 data1 d1 path2 data2 d2 c w :
  fs_data w !! path1 = Some data1 → toml_parse data1 = Some d1 →
  fs_data w !! path2 = Some data2 → toml_parse data2 = Some d2 →
  let c' := merge_fragments [path1; path2] c w in
  let pick (old : string) (new : option string) :=
    if decide (default old new = "") then old else default old new in
  LogDir (rootConfig c')
  = default (default (LogDir (rootConfig c)) (doc_log_dir d1)) (doc_log_dir d2)
  ∧ Root (rootConfig c') = pick (pick (Root (rootConfig c)) (doc_root d1)) (doc_root d2)
  ∧ RunRoot (rootConfig c')
    = pick (pick (RunRoot (rootConfig c)) (doc_runroot d1)) (doc_runroot d2)
  ∧ Storage (rootConfig c')
    = pick (pick (Storage (rootConfig c)) (doc_storage_driver d1)) (doc_storage_driver d2)
  ∧ apiConfig c' = doc_api d2 (doc_api d1 (apiConfig c))
  ∧ runtimeConfig c' = doc_runtime d2 (doc_runtime d1 (runtimeConfig c))
  ∧ networkConfig c' = doc_network d2 (doc_network d1 (networkConfig c))
  ∧ imageConfig c'
    = set_Registries [] (doc_image d2 (set_Registries [] (doc_image d1 (imageConfig c)))).
Proof.
  intros H1 Hd1 H2 Hd2. cbv zeta. unfold merge_fragments. simpl.
  destruct (UpdateFromDropInFile_parsed path1 data1 d1 c w H1 Hd1)
    as (c1 & -> & _ & Hroot1 & _ & _ & _ & _ & Hapi1 & Hrt1 & Him1 & Hnet1 & _).
  simpl.
  destruct (UpdateFromDropInFile_parsed path2 data2 d2 c1 w H2 Hd2)
    as (c2 & -> & _ & Hroot2 & _ & _ & _ & _ & Hapi2 & Hrt2 & Him2 & Hnet2 & _).
  simpl. rewrite Hroot2, Hroot1, Hapi2, Hapi1, Hrt2, Hrt1, Hnet2, Hnet1, Him2, Him1.
  simpl. by repeat split.
Qed.

End Properties.

(* ===================================================================== *)
(** * The properties on the concrete host *)
(* ===================================================================== *)

Section Witnesses.
#[local] Existing Instance example_types.
#[local] Existing Instance example_collaborators.
#[local] Existing Instance example_constants.

Lemma UpdateFromDropInFile_storage_options_witness :
  fs_data example_World !! "/etc/crio/opts.conf" = Some example_fragment_options
  ∧ toml_parse example_fragment_options = Some example_doc_options
  ∧ StorageOptions (rootConfig (cfg (out_st
       (UpdateFromDropInFile "/etc/crio/opts.conf" (mkSt example_Config example_World)))))
    = ["b"; "c"; "a"].
Proof.
  assert (H1 : fs_data example_World !! "/etc/crio/opts.conf"
               = Some example_fragment_options) by (vm_compute; reflexivity).
  assert (H2 : toml_parse example_fragment_options = Some example_doc_options)
    by reflexivity.
  split; [exact H1|]. split; [exact H2|].
  apply (UpdateFromDropInFile_storage_options _ _ _ example_Config example_World H1 H2);
    reflexivity.
Defined.

Lemma UpdateFromDropInFile_inherits_witness :
  fs_data example_World !! "/etc/crio/driver.conf" = Some example_fragment_driver
  ∧ toml_parse example_fragment_driver = Some example_doc_driver
  ∧ let r' := rootConfig (cfg (out_st
       (UpdateFromDropInFile "/etc/crio/driver.conf" (mkSt example_Config example_World)))) in
    Root r' = "/r" ∧ RunRoot r' = "/run" ∧ Storage r' = "vfs".
Proof.
  assert (H1 : fs_data example_World !! "/etc/crio/driver.conf"
               = Some example_fragment_driver) by (vm_compute; reflexivity).
  assert (H2 : toml_parse example_fragment_driver = Some example_doc_driver)
    by reflexivity.
  split; [exact H1|]. split; [exact H2|].
  apply (UpdateFromDropInFile_inherits _ _ _ example_Config example_World H1 H2);
    reflexivity.
Defined.

(** C2, the statement as given fails: with the empty name a key of
    [Runtimes] and [DefaultRuntime] empty, validation succeeds without
    setting [DefaultRuntime] to the built-in name and without a handler
    under that name. *)
Lemma ValidateDefaultRuntime_empty_name_kept :
  DefaultRuntime example_empty_name = ""
  ∧ out_res (ValidateDefaultRuntime example_empty_name) = inr tt
  ∧ DefaultRuntime (out_st (ValidateDefaultRuntime example_empty_name)) ≠ defaultRuntime
  ∧ Runtimes (out_st (ValidateDefaultRuntime example_empty_name)) !! defaultRuntime = None.
Proof. vm_compute. repeat split; congruence. Qed.

(** C4, the failing input: an allow-list that repeats a recognized
    annotation is rejected as if the annotation were unknown. *)
Lemma validateAllowed_repeated_annotation_rejected :
  (∀ a, a ∈ example_repeated_annotation → a ∈ annotations_AllAllowedAnnotations)
  ∧ validateAllowedAndGenerateDisallowedAnnotations example_repeated_annotation
    = inl (Errorf "invalid allowed_annotation: %s" ["io.kubernetes.cri-o.Devices"]).
Proof.
  split; [|vm_compute; reflexivity].
  intros a Ha. unfold example_repeated_annotation in Ha.
  assert (a = "io.kubernetes.cri-o.Devices") as -> by set_solver.
  simpl. set_solver.
Qed.


(** The stop timeout of ten seconds is raised to thirty, not rejected. *)
Lemma RuntimeConfig_Validate_CtrStopTimeout_floor_witness :
  let o := RuntimeConfig_Validate (systemContext example_Config) false
             (mkSt example_low_timeout example_World) in
  (CtrStopTimeout example_low_timeout < defaultCtrStopTimeout)%Z
  ∧ succeeded o
  ∧ CtrStopTimeout (cfg (out_st o)) = defaultCtrStopTimeout
  ∧ mkLog WarnLevel "Forcing ctr_stop_timeout to lowest possible value of %ds" ["30"]
    ∈ out_log o.
Proof.
  cbv zeta.
  assert (Hlow : (CtrStopTimeout example_low_timeout < defaultCtrStopTimeout)%Z)
    by (vm_compute; reflexivity).
  assert (Hok : succeeded (RuntimeConfig_Validate (systemContext example_Config) false
                             (mkSt example_low_timeout example_World)))
    by (exists tt; vm_compute; reflexivity).
  split; [exact Hlow|]. split; [exact Hok|].
  destruct (RuntimeConfig_Validate_CtrStopTimeout_floor (systemContext example_Config) false
              example_low_timeout example_World) as [H _].
  destruct (H Hlow) as (_ & _ & Hs). destruct (Hs Hok) as (_ & Hfloor & Hwarn).
  split; [exact Hfloor|exact Hwarn].
Defined.

(** A limit of 100 bytes is rejected. *)
Lemma RuntimeConfig_Validate_LogSizeMax_witness :
  (0 ≤ LogSizeMax example_small_log ∧ LogSizeMax example_small_log < OCIBufSize)%Z
  ∧ LogSizeMax_rejected (RuntimeConfig_Validate (systemContext example_Config) false
                           (mkSt example_small_log example_World)).
Proof.
  assert (Hrange : (0 ≤ LogSizeMax example_small_log
                    ∧ LogSizeMax example_small_log < OCIBufSize)%Z)
    by (vm_compute; split; congruence).
  split; [exact Hrange|].
  destruct (RuntimeConfig_Validate_LogSizeMax (systemContext example_Config) false
              example_small_log example_World) as (_ & H & _).
  destruct (H Hrange) as [_ Hchecked]. apply Hchecked.
  split; [by eexists|]. split; [by eexists|]. split; [left; by eexists|by left].
Defined.

(** No limit, and a limit of 9000 bytes, pass. *)
Lemma RuntimeConfig_Validate_LogSizeMax_examples :
  LogSizeMax example_RuntimeConfig = (-1)%Z
  ∧ succeeded (RuntimeConfig_Validate (systemContext example_Config) false
                 (mkSt example_RuntimeConfig example_World))
  ∧ succeeded (RuntimeConfig_Validate (systemContext example_Config) false
                 (mkSt example_large_log example_World))
  ∧ out_res (RuntimeConfig_Validate (systemContext example_Config) false
               (mkSt example_small_log example_World))
    = inl (Errorf "log size max should be negative or >= %d" ["8192"]).
Proof.
  split; [reflexivity|]. split; [exists tt; vm_compute; reflexivity|].
  split; [exists tt; vm_compute; reflexivity|vm_compute; reflexivity].
Qed.

(** C7, the statement as given fails: the same configuration passes
    static validation on a host with [taskset] and fails it on a host
    without, and a time zone passes or fails with the host's time zone
    database. *)
Lemma Config_Validate_static_depends_on_host :
  out_res (Config_Validate false (mkSt example_cpuset example_World_taskset)) = inr tt
  ∧ out_res (Config_Validate false (mkSt example_cpuset example_World))
    = inl (Wrapf "validating runtime config: %w" []
             (Wrapf "%q not found in $PATH: %w" ["taskset"] (LookPathError "taskset")))
  ∧ out_res (Config_Validate false (mkSt example_berlin example_World)) = inr tt
  ∧ out_res (Config_Validate false (mkSt example_atlantis example_World))
    = inl (Wrapf "validating runtime config: %w" []
             (Errorf "invalid timezone: %s" ["Atlantis/Capital"])).
Proof. repeat split; vm_compute; reflexivity. Qed.

(** On the example host static validation of the pinned configuration
    fails for want of [taskset], and leaves the host alone. *)
Lemma Validate_static_host_witness :
  InfraCtrCPUSet (runtimeConfig example_cpuset) ≠ ""
  ∧ env_PATH example_World !! tasksetBinary = None
  ∧ failed (RuntimeConfig_Validate (systemContext example_cpuset) false
              (mkSt (runtimeConfig example_cpuset) example_World))
  ∧ same_host example_World
      (world (out_st (Config_Validate false (mkSt example_cpuset example_World)))).
Proof.
  assert (Hset : InfraCtrCPUSet (runtimeConfig example_cpuset) ≠ "") by (vm_compute; congruence).
  assert (Hpath : env_PATH example_World !! tasksetBinary = None) by (vm_compute; reflexivity).
  split; [exact Hset|]. split; [exact Hpath|].
  destruct (Validate_static_host example_cpuset (systemContext example_cpuset)
              (runtimeConfig example_cpuset) example_World) as (Hhost & _ & _ & Htaskset & _).
  split; [exact (Htaskset Hset Hpath)|exact Hhost].
Defined.

(** The VM handler of the example keeps its monitor fields under the
    legacy settings, in either mode. *)
Lemma TranslateMonitorFields_skips_vm_and_pod_witness :
  Runtimes example_kata !! "kata" = Some example_kata_handler
  ∧ (RuntimeType example_kata_handler = RuntimeTypeVM
     ∨ RuntimeType example_kata_handler = RuntimeTypePod)
  ∧ Runtimes (cfg (out_st (TranslateMonitorFields true (mkSt example_kata example_World))))
      !! "kata" = Some example_kata_handler.
Proof.
  assert (Hkata : Runtimes example_kata !! "kata" = Some example_kata_handler)
    by (vm_compute; reflexivity).
  assert (Htype : RuntimeType example_kata_handler = RuntimeTypeVM
                  ∨ RuntimeType example_kata_handler = RuntimeTypePod) by (by left).
  split; [exact Hkata|]. split; [exact Htype|].
  destruct (TranslateMonitorFields_skips_vm_and_pod true "kata" example_kata_handler
              example_kata example_World Hkata) as [Hskip _].
  apply Hskip. by left.
Defined.

(** The default handler of the same configuration is translated. *)
Lemma TranslateMonitorFields_translates_default :
  let o := TranslateMonitorFields false (mkSt example_kata example_World) in
  out_res o = inr tt
  ∧ (MonitorPath <$> Runtimes (cfg (out_st o)) !! "runc") = Some "/usr/local/bin/conmon"
  ∧ (MonitorCgroup <$> Runtimes (cfg (out_st o)) !! "runc") = Some "pod"
  ∧ (MonitorEnv <$> Runtimes (cfg (out_st o)) !! "runc") = Some ["PATH=/usr/local/bin"]
  ∧ Runtimes (cfg (out_st o)) !! "kata" = Some example_kata_handler.
Proof. cbv zeta. repeat split; vm_compute; reflexivity. Qed.

(** Merging the fragment with the options "c" and "a" twice lists them
    once. *)
Lemma UpdateFromDropInFile_twice_storage_options_witness :
  fs_data example_World !! "/etc/crio/opts.conf" = Some example_fragment_options
  ∧ toml_parse example_fragment_options = Some example_doc_options
  ∧ StorageOptions (rootConfig (cfg (out_st
       (UpdateFromDropInFile "/etc/crio/opts.conf"
          (out_st (UpdateFromDropInFile "/etc/crio/opts.conf"
                     (mkSt example_Config example_World)))))))
    = ["b"; "c"; "a"].
Proof.
  assert (H1 : fs_data example_World !! "/etc/crio/opts.conf"
               = Some example_fragment_options) by (vm_compute; reflexivity).
  assert (H2 : toml_parse example_fragment_options = Some example_doc_options)
    by reflexivity.
  split; [exact H1|]. split; [exact H2|].
  pose proof (UpdateFromDropInFile_twice_storage_options _ _ _ _ _ _
                example_Config example_World H1 H2 H1 H2) as H.
  cbv zeta in H. destruct H as (_ & _ & H).
  etrans; [exact H|]. vm_compute. reflexivity.
Defined.

(** The fragment with the storage driver names no registries: none are
    left, and nothing is logged. *)
Lemma UpdateFromDropInFile_drops_registries_witness :
  fs_data example_World !! "/etc/crio/driver.conf" = Some example_fragment_driver
  ∧ toml_parse example_fragment_driver = Some example_doc_driver
  ∧ Registries (imageConfig (cfg (out_st
       (UpdateFromDropInFile "/etc/crio/driver.conf" (mkSt example_Config example_World)))))
    = []
  ∧ out_log (UpdateFromDropInFile "/etc/crio/driver.conf" (mkSt example_Config example_World))
    = [].
Proof.
  assert (H1 : fs_data example_World !! "/etc/crio/driver.conf"
               = Some example_fragment_driver) by (vm_compute; reflexivity).
  assert (H2 : toml_parse example_fragment_driver = Some example_doc_driver)
    by reflexivity.
  split; [exact H1|]. split; [exact H2|].
  pose proof (UpdateFromDropInFile_drops_registries _ _ _
                example_Config example_World H1 H2) as H.
  cbv zeta in H. destruct H as (Hnone & _ & Hlog).
  split; [exact Hnone|]. apply Hlog. reflexivity.
Defined.

(** Merging the empty file into the example configuration changes
    nothing. *)
Lemma UpdateFromDropInFile_empty_document_witness :
  fs_data example_World_empty_file !! "/etc/crio/empty.conf" = Some ""
  ∧ toml_parse "" = Some empty_Document
  ∧ cfg (out_st (UpdateFromDropInFile "/etc/crio/empty.conf"
                   (mkSt example_Config example_World_empty_file)))
    = example_Config.
Proof.
  assert (H1 : fs_data example_World_empty_file !! "/etc/crio/empty.conf" = Some "")
    by (vm_compute; reflexivity).
  assert (H2 : toml_parse "" = Some empty_Document) by reflexivity.
  split; [exact H1|]. split; [exact H2|].
  pose proof (UpdateFromDropInFile_empty_document _ _
                example_Config example_World_empty_file H1 H2) as H.
  cbv zeta in H. destruct H as (_ & _ & _ & H).
  apply H; [|reflexivity..].
  apply (bool_decide_unpack _). vm_compute. reflexivity.
Defined.

(** The example host has no drop-in directory [/etc/crio/nothing.d]. *)
Lemma UpdateFromPath_absent_witness :
  "/etc/crio/nothing.d" ∉ fs_noaccess example_World
  ∧ "/etc/crio/nothing.d" ∉ fs_dirs example_World
  ∧ "/etc/crio/nothing.d" ∉ fs_files example_World
  ∧ UpdateFromPath "/etc/crio/nothing.d" (mkSt example_Config example_World)
    = mkOut (inr tt) (mkSt example_Config example_World) [].
Proof.
  assert (H1 : "/etc/crio/nothing.d" ∉ fs_noaccess example_World)
    by (apply (bool_decide_unpack _); vm_compute; reflexivity).
  assert (H2 : "/etc/crio/nothing.d" ∉ fs_dirs example_World)
    by (apply (bool_decide_unpack _); vm_compute; reflexivity).
  assert (H3 : "/etc/crio/nothing.d" ∉ fs_files example_World)
    by (apply (bool_decide_unpack _); vm_compute; reflexivity).
  split; [exact H1|]. split; [exact H2|]. split; [exact H3|].
  exact (UpdateFromPath_absent _ example_Config example_World H1 H2 H3).
Defined.

(** The repaired drop-in directory is merged as a whole. *)
Lemma UpdateFromPath_success_witness :
  "/etc/crio/crio.conf.d" ∈ fs_dirs example_World_repaired
  ∧ out_res (UpdateFromPath "/etc/crio/crio.conf.d" (mkSt example_Config example_World_repaired))
    = inr tt
  ∧ out_st (UpdateFromPath "/etc/crio/crio.conf.d" (mkSt example_Config example_World_repaired))
    = mkSt (set_dropInConfigDir "/etc/crio/crio.conf.d"
              (merge_fragments
                 ["/etc/crio/crio.conf.d/10-root.conf"; "/etc/crio/crio.conf.d/30-driver.conf"]
                 example_Config example_World_repaired))
        example_World_repaired.
Proof.
  assert (H1 : "/etc/crio/crio.conf.d" ∈ fs_dirs example_World_repaired)
    by (apply (bool_decide_unpack _); vm_compute; reflexivity).
  assert (H2 : out_res (UpdateFromPath "/etc/crio/crio.conf.d"
                          (mkSt example_Config example_World_repaired)) = inr tt)
    by (vm_compute; reflexivity).
  split; [exact H1|]. split; [exact H2|].
  etrans; [exact (UpdateFromPath_success _ example_Config example_World_repaired
                    (or_intror (or_introl H1)) H2)|].
  vm_compute. reflexivity.
Defined.

(** On the example host the handler without executable is removed from
    the table, and the default runtime stays. *)
Lemma ValidateRuntimes_spec_witness :
  (∀ l : list string, range_order l ≡ₚ l)
  ∧ DefaultRuntime (cfg (out_st (ValidateRuntimes (mkSt example_two_runtimes example_World))))
    = "runc"
  ∧ ¬ fails_validation example_two_runtimes example_World "runc".
Proof.
  assert (H1 : ∀ l : list string, range_order l ≡ₚ l) by (intros l; reflexivity).
  split; [exact H1|].
  pose proof (ValidateRuntimes_spec example_two_runtimes example_World H1) as H.
  cbv zeta in H. destruct H as (Hdef & Hfail & _).
  split; [exact Hdef|]. intros Hbad. apply Hfail in Hbad. destruct Hbad as [e He].
  vm_compute in He. discriminate He.
Defined.

(** The default configuration passes validation on execution on the
    example host, and its default runtime is in the table. *)
Lemma RuntimeConfig_Validate_default_runtime_witness :
  succeeded (RuntimeConfig_Validate (systemContext example_Config) true
               (mkSt example_RuntimeConfig example_World))
  ∧ is_Some (Runtimes (cfg (out_st (RuntimeConfig_Validate (systemContext example_Config) true
                                      (mkSt example_RuntimeConfig example_World))))
             !! DefaultRuntime (cfg (out_st
                  (RuntimeConfig_Validate (systemContext example_Config) true
                     (mkSt example_RuntimeConfig example_World))))).
Proof.
  assert (H1 : succeeded (RuntimeConfig_Validate (systemContext example_Config) true
                            (mkSt example_RuntimeConfig example_World)))
    by (exists tt; vm_compute; reflexivity).
  split; [exact H1|].
  exact (RuntimeConfig_Validate_default_runtime _ true example_RuntimeConfig example_World H1).
Defined.

(** The default handler under systemd: [conmon] is found in $PATH and
    the default monitor cgroup is a slice. *)
Lemma TranslateMonitorFieldsForHandler_execution_witness :
  let o := TranslateMonitorFieldsForHandler true
             (mkSt (example_RuntimeConfig, defaultRuntimeHandler) example_World) in
  succeeded o
  ∧ is_Some (conmonManager (cfg (out_st o)).1)
  ∧ (os_Stat (MonitorPath (cfg (out_st o)).2) example_World = None
     ∨ env_PATH example_World !! "conmon" = Some (MonitorPath (cfg (out_st o)).2)).
Proof.
  cbv zeta.
  assert (H1 : succeeded (TranslateMonitorFieldsForHandler true
                            (mkSt (example_RuntimeConfig, defaultRuntimeHandler) example_World)))
    by (exists tt; vm_compute; reflexivity).
  split; [exact H1|].
  pose proof (TranslateMonitorFieldsForHandler_execution example_RuntimeConfig
                defaultRuntimeHandler example_World H1) as H.
  destruct H as (Hm & Hp & _). split; [exact Hm|exact Hp].
Defined.

(** The fragments of the repaired drop-in directory: the first sets the
    root, the second the storage driver, and both are found in the
    result. *)
Lemma merge_fragments_precedence_witness :
  let c' := merge_fragments
              ["/etc/crio/crio.conf.d/10-root.conf"; "/etc/crio/crio.conf.d/30-driver.conf"]
              example_Config example_World in
  fs_data example_World !! "/etc/crio/crio.conf.d/10-root.conf"
  = Some example_fragment_root
  ∧ toml_parse example_fragment_root = Some example_doc_root
  ∧ fs_data example_World !! "/etc/crio/crio.conf.d/30-driver.conf"
    = Some example_fragment_driver
  ∧ toml_parse example_fragment_driver = Some example_doc_driver
  ∧ Root (rootConfig c') = "/srv/containers"
  ∧ Storage (rootConfig c') = "vfs".
Proof.
  cbv zeta.
  assert (H1 : fs_data example_World !! "/etc/crio/crio.conf.d/10-root.conf"
               = Some example_fragment_root) by (vm_compute; reflexivity).
  assert (H2 : toml_parse example_fragment_root = Some example_doc_root)
    by reflexivity.
  assert (H3 : fs_data example_World !! "/etc/crio/crio.conf.d/30-driver.conf"
               = Some example_fragment_driver) by (vm_compute; reflexivity).
  assert (H4 : toml_parse example_fragment_driver = Some example_doc_driver)
    by reflexivity.
  do 4 (split; [assumption|]).
  pose proof (merge_fragments_precedence _ _ _ _ _ _ example_Config example_World
                H1 H2 H3 H4) as H.
  cbv zeta in H. destruct H as (_ & Hroot & _ & Hdriver & _).
  split; [etrans; [exact Hroot|reflexivity]|etrans; [exact Hdriver|reflexivity]].
Defined.

End Witnesses.

